(** * sshToTerminal: SSH hosts as Windows Terminal profiles

    A shallow embedding of [ssh_to_terminal.py] and the properties of its
    parser ([parse_ssh_config]), of the derived fields of [SshHost]
    ([commandline], [guid]) and of the two reconcilers ([upsert_profiles],
    [remove_profiles]), together with the discovery of the files
    ([discover_ssh_config_files]), the container of the profiles
    ([ensure_profiles_container]) and the run of [main].

    Conventions of the embedding:
    - a Python [str] is a list of Unicode code points ([ustr], code points
      as [Z]); [u "..."] turns an ASCII literal into such a list;
    - a value read by [json.load] is a [json]; Python's [None] is [JNull];
    - a function that mutates its list argument in place is a function from
      the list to the list it leaves behind, paired with how the call ended
      ([Returned] or [Raised e]). *)

From Stdlib Require Import ZArith String Ascii.
From Stdlib.Floats Require Import SpecFloat.
From stdpp Require Import base option list gmap.

Local Open Scope Z_scope.
Local Set Warnings "-register-all".

(** ** Python strings *)

(** A [str]: the sequence of its code points. *)
Definition ustr : Type := list Z.

(** An ASCII literal as a [str]. *)
Definition u (s : string) : ustr :=
  map (λ a, Z.of_N (N_of_ascii a)) (list_ascii_of_string s).

(** [Py_UNICODE_ISSPACE]: the code points that [str.isspace], [str.strip],
    [str.split] and the regular expression class [\s] treat as whitespace. *)
Definition py_isspace (c : Z) : bool :=
  ((9 <=? c) && (c <=? 13)) || ((28 <=? c) && (c <=? 32))
  || (c =? 0x85) || (c =? 0xA0) || (c =? 0x1680)
  || ((0x2000 <=? c) && (c <=? 0x200A))
  || (c =? 0x2028) || (c =? 0x2029) || (c =? 0x202F) || (c =? 0x205F)
  || (c =? 0x3000).

Definition LF : Z := 10.
Definition CR : Z := 13.

Fixpoint lstrip_by (p : Z → bool) (s : ustr) : ustr :=
  match s with
  | c :: s' => if p c then lstrip_by p s' else s
  | [] => []
  end.

Definition rstrip_by (p : Z → bool) (s : ustr) : ustr :=
  reverse (lstrip_by p (reverse s)).

(** [s.strip(chars)] with the characters to remove given as a predicate. *)
Definition strip_by (p : Z → bool) (s : ustr) : ustr :=
  rstrip_by p (lstrip_by p s).

(** [s.strip()] *)
Definition py_strip (s : ustr) : ustr := strip_by py_isspace s.

(** [s.strip("\n")] *)
Definition py_strip_nl (s : ustr) : ustr := strip_by (λ c, c =? LF) s.

(** [s.startswith(prefix)] *)
Fixpoint py_startswith (s prefix : ustr) : bool :=
  match prefix, s with
  | [], _ => true
  | p :: prefix', c :: s' => (c =? p) && py_startswith s' prefix'
  | _ :: _, [] => false
  end.

(** [s.split()]: the maximal runs of non-whitespace code points. The
    accumulator [tok] holds the current run, reversed. *)
Fixpoint split_from (tok : ustr) (s : ustr) : list ustr :=
  match s with
  | [] => match tok with [] => [] | _ => [reverse tok] end
  | c :: s' =>
      if py_isspace c
      then match tok with
           | [] => split_from [] s'
           | _ => reverse tok :: split_from [] s'
           end
      else split_from (c :: tok) s'
  end.

Definition py_split (s : ustr) : list ustr := split_from [] s.

(** [sep.join(parts)] *)
Fixpoint py_join (sep : ustr) (parts : list ustr) : ustr :=
  match parts with
  | [] => []
  | [p] => p
  | p :: rest => p ++ sep ++ py_join sep rest
  end.

(** [ch in s] for a one-character [ch]. *)
Definition py_contains (s : ustr) (ch : Z) : bool := existsb (Z.eqb ch) s.

(** [bool(s)] for a [str]. *)
Definition str_truthy (s : ustr) : bool :=
  match s with [] => false | _ => true end.

(** [bool(o)] for an [Optional[str]]: [None] and the empty string are false. *)
Definition opt_truthy (o : option ustr) : bool :=
  match o with Some s => str_truthy s | None => false end.

(** Equality of two [str]. *)
Definition ustr_eqb (a b : ustr) : bool := bool_decide (a = b).

(** ** Exceptions *)

(** The exceptions the modelled code can raise. *)
Inductive exn : Type :=
  | TypeError            (* hashing a list or a dict *)
  | UnicodeEncodeError   (* encoding a lone surrogate as UTF-8 *)
  | JSONDecodeError      (* [json.load] on a malformed document *)
  | AttributeError       (* [get] on a value that is not a dict *)
  | IndexError           (* assignment to a list index out of range *)
  | OSError.             (* a file that cannot be read or written *)

(** How a call ends: it returns a value or raises. *)
Inductive outcome (A : Type) : Type :=
  | Returned (a : A)
  | Raised (e : exn).
Arguments Returned {A} a.
Arguments Raised {A} e.

(** ** The deterministic identifier: [uuid.uuid5]

    [uuid5(ns, name)] is the SHA-1 digest of [ns.bytes + name.encode("utf-8")],
    cut to 16 bytes, with the version and variant bits set. *)
Module Uuid.

(** [str.encode("utf-8")]: lone surrogates cannot be encoded. A byte is a [Z]
    in [0, 255]. Values outside the code space do not occur in a [str]. *)
Definition utf8_char (c : Z) : option (list Z) :=
  if (c <? 0) then None
  else if c <? 0x80 then Some [c]
  else if c <? 0x800 then
    Some [Z.lor 0xC0 (Z.shiftr c 6); Z.lor 0x80 (Z.land c 0x3F)]
  else if (0xD800 <=? c) && (c <=? 0xDFFF) then None
  else if c <? 0x10000 then
    Some [Z.lor 0xE0 (Z.shiftr c 12);
          Z.lor 0x80 (Z.land (Z.shiftr c 6) 0x3F);
          Z.lor 0x80 (Z.land c 0x3F)]
  else if c <=? 0x10FFFF then
    Some [Z.lor 0xF0 (Z.shiftr c 18);
          Z.lor 0x80 (Z.land (Z.shiftr c 12) 0x3F);
          Z.lor 0x80 (Z.land (Z.shiftr c 6) 0x3F);
          Z.lor 0x80 (Z.land c 0x3F)]
  else None.

Fixpoint utf8_encode (s : ustr) : option (list Z) :=
  match s with
  | [] => Some []
  | c :: s' =>
      match utf8_char c, utf8_encode s' with
      | Some b, Some bs => Some (b ++ bs)
      | _, _ => None
      end
  end.

(** 32-bit words with wrap-around. *)
Definition w32 (x : Z) : Z := Z.land x 0xFFFFFFFF.
Definition rotl (n x : Z) : Z :=
  w32 (Z.lor (Z.shiftl x n) (Z.shiftr x (32 - n))).
Definition add32 (x y : Z) : Z := w32 (x + y).

(** Big-endian bytes of a [n]-byte unsigned integer, and back. *)
Fixpoint be_bytes (n : nat) (x : Z) : list Z :=
  match n with
  | O => []
  | S n' => Z.land (Z.shiftr x (8 * Z.of_nat n')) 0xFF :: be_bytes n' x
  end.
Definition be_int (bs : list Z) : Z :=
  fold_left (λ acc b, Z.lor (Z.shiftl acc 8) b) bs 0.

(** Message padding of SHA-1: a 1 bit, zeros up to 56 modulo 64 bytes, then
    the bit length on 8 bytes. *)
Definition sha1_pad (msg : list Z) : list Z :=
  let len := Z.of_nat (length msg) in
  let zeros := Z.to_nat ((55 - len) mod 64) in
  msg ++ [0x80] ++ repeat 0 zeros ++ be_bytes 8 (8 * len).

(** The list cut into pieces of [n] elements ([fuel] bounds the number of
    pieces). *)
Fixpoint chunks {A} (fuel n : nat) (l : list A) : list (list A) :=
  match fuel, l with
  | O, _ | _, [] => []
  | S fuel', _ => take n l :: chunks fuel' n (drop n l)
  end.

(** The message schedule: 16 words of the block extended to 80. *)
Fixpoint sha1_extend (k : nat) (ws : list Z) : list Z :=
  match k with
  | O => ws
  | S k' =>
      let t := length ws in
      let w i := nth (t - i) ws 0 in
      sha1_extend k'
        (ws ++ [rotl 1 (Z.lxor (Z.lxor (w 3%nat) (w 8%nat))
                               (Z.lxor (w 14%nat) (w 16%nat)))])
  end.

Definition sha1_schedule (block : list Z) : list Z :=
  sha1_extend 64 (map be_int (chunks 16 4 block)).

Definition sha1_state : Type := Z * Z * Z * Z * Z.

Definition sha1_round (st : sha1_state) (tw : nat * Z) : sha1_state :=
  let '(a, b, c, d, e) := st in
  let '(t, w) := tw in
  let '(f, k) :=
    if (t <? 20)%nat then
      (Z.lor (Z.land b c) (Z.land (Z.lxor b 0xFFFFFFFF) d), 0x5A827999)
    else if (t <? 40)%nat then (Z.lxor (Z.lxor b c) d, 0x6ED9EBA1)
    else if (t <? 60)%nat then
      (Z.lor (Z.lor (Z.land b c) (Z.land b d)) (Z.land c d), 0x8F1BBCDC)
    else (Z.lxor (Z.lxor b c) d, 0xCA62C1D6) in
  let temp := add32 (add32 (add32 (add32 (rotl 5 a) f) e) k) w in
  (temp, a, rotl 30 b, c, d).

Definition sha1_block (h : sha1_state) (block : list Z) : sha1_state :=
  let '(h0, h1, h2, h3, h4) := h in
  let '(a, b, c, d, e) :=
    fold_left sha1_round (imap (λ t w, (t, w)) (sha1_schedule block)) h in
  (add32 h0 a, add32 h1 b, add32 h2 c, add32 h3 d, add32 h4 e).

(** [hashlib.sha1(msg).digest()] *)
Definition sha1 (msg : list Z) : list Z :=
  let padded := sha1_pad msg in
  let '(h0, h1, h2, h3, h4) :=
    fold_left sha1_block (chunks (length padded) 64 padded)
      (0x67452301, 0xEFCDAB89, 0x98BADCFE, 0x10325476, 0xC3D2E1F0) in
  be_bytes 4 h0 ++ be_bytes 4 h1 ++ be_bytes 4 h2 ++ be_bytes 4 h3
  ++ be_bytes 4 h4.

Definition hex_digit (d : Z) : Z := if d <? 10 then 48 + d else 87 + d.

(** ['%02x' % b] for each byte. *)
Definition hex_of_bytes (bs : list Z) : ustr :=
  flat_map (λ b, [hex_digit (Z.shiftr b 4); hex_digit (Z.land b 0xF)]) bs.

(** [UUID(bytes=..., version=5)]: the variant bits become [10], the version
    nibble becomes [5]. *)
Definition set_version5 (bs : list Z) : list Z :=
  let i := be_int bs in
  let i := Z.land i (Z.lnot (Z.shiftl 0xC000 48)) in
  let i := Z.lor i (Z.shiftl 0x8000 48) in
  let i := Z.land i (Z.lnot (Z.shiftl 0xF000 64)) in
  let i := Z.lor i (Z.shiftl 5 76) in
  be_bytes 16 i.

(** [str(UUID)]: 32 hex digits grouped 8-4-4-4-12. *)
Definition uuid_str (bs : list Z) : ustr :=
  let h := hex_of_bytes bs in
  let dash := [45] in
  take 8 h ++ dash ++ take 4 (drop 8 h) ++ dash ++ take 4 (drop 12 h)
  ++ dash ++ take 4 (drop 16 h) ++ dash ++ drop 20 h.

(** [uuid.UUID("12345678-1234-5678-1234-567812345678").bytes] *)
Definition ns_bytes : list Z :=
  [0x12; 0x34; 0x56; 0x78; 0x12; 0x34; 0x56; 0x78;
   0x12; 0x34; 0x56; 0x78; 0x12; 0x34; 0x56; 0x78].

(** [str(uuid.uuid5(ns, name))] *)
Definition uuid5_str (name : ustr) : outcome ustr :=
  match utf8_encode name with
  | None => Raised UnicodeEncodeError
  | Some bs => Returned (uuid_str (set_version5 (take 16 (sha1 (ns_bytes ++ bs)))))
  end.

End Uuid.

#[global] Instance exn_eq_dec : EqDecision exn.
Proof. solve_decision. Defined.

#[global] Instance outcome_eq_dec {A} `{EqDecision A} : EqDecision (outcome A).
Proof. solve_decision. Defined.

(** ** [SshHost] *)

(** The dataclass [SshHost]: a name and four optional strings. *)
Record SshHost : Type := mkSshHost {
  name : ustr;
  hostname : option ustr;
  user : option ustr;
  port : option ustr;
  identity_file : option ustr;
}.

#[global] Instance SshHost_eq_dec : EqDecision SshHost.
Proof. solve_decision. Defined.

(** [SshHost(name=n)] *)
Definition host_named (n : ustr) : SshHost := mkSshHost n None None None None.

(** The property [SshHost.commandline]. Each [if self.x:] is a truth test, so
    a field that is [None] or the empty string is skipped, and
    [self.hostname or self.name] falls back to the name in both cases. *)
Definition commandline (h : SshHost) : ustr :=
  let parts := [u "ssh"] in
  let parts :=
    if opt_truthy (port h)
    then parts ++ [u "-p"; default [] (port h)] else parts in
  let parts :=
    if opt_truthy (identity_file h)
    then parts ++ [u "-i"; default [] (identity_file h)] else parts in
  let target :=
    if opt_truthy (hostname h) then default [] (hostname h) else name h in
  let target :=
    if opt_truthy (user h)
    then default [] (user h) ++ u "@" ++ target else target in
  py_join (u " ") (parts ++ [target]).

(** The method [SshHost.guid]: a version-5 UUID of
    ["ssh-to-terminal:" + name] in the fixed namespace. It depends on the
    name only, so it is given as a function of the name. *)
Definition guid_of_name (n : ustr) : outcome ustr :=
  Uuid.uuid5_str (u "ssh-to-terminal:" ++ n).

Definition guid (h : SshHost) : outcome ustr := guid_of_name (name h).

Arguments guid_of_name : simpl never.

(** ** JSON values and profiles *)

(** What [json.load] produces. A [dict] is the list of its items in insertion
    order (its keys are distinct); [None] is [JNull]. *)
Inductive json : Type :=
  | JNull
  | JBool (b : bool)
  | JInt (z : Z)
  | JFloat (f : spec_float)
  | JStr (s : ustr)
  | JArr (l : list json)
  | JObj (d : list (ustr * json)).

(** [d.get(k)]: the value stored under [k], or [None]. *)
Fixpoint py_get (d : list (ustr * json)) (k : ustr) : json :=
  match d with
  | [] => JNull
  | (k', v) :: d' => if ustr_eqb k' k then v else py_get d' k
  end.

(** [bool(v)] *)
Definition truthy (v : json) : bool :=
  match v with
  | JNull => false
  | JBool b => b
  | JInt z => negb (z =? 0)
  | JFloat f => match f with S754_zero _ => false | _ => true end
  | JStr s => str_truthy s
  | JArr l => match l with [] => false | _ => true end
  | JObj d => match d with [] => false | _ => true end
  end.

(** Whether [hash(v)] succeeds: lists and dicts are unhashable. *)
Definition hashable (v : json) : bool :=
  match v with JArr _ | JObj _ => false | _ => true end.

(** [isinstance(p, dict)] *)
Definition is_dict (p : json) : bool :=
  match p with JObj _ => true | _ => false end.

(** [p.get("name")] for an entry of the profile list that is a dict. *)
Definition get_name (p : json) : json :=
  match p with JObj d => py_get d (u "name") | _ => JNull end.

(** ** [upsert_profiles] *)

(** The dict literal built for a host, given its identifier. *)
Definition profile_with (h : SshHost) (g : ustr) : json :=
  JObj [(u "name", JStr (name h));
        (u "commandline", JStr (commandline h));
        (u "guid", JStr (u "{" ++ g ++ u "}"));
        (u "hidden", JBool false)].

(** Evaluating the dict literal: only [host.guid()] can raise. *)
Definition make_profile (h : SshHost) : outcome json :=
  match guid h with
  | Returned g => Returned (profile_with h g)
  | Raised e => Raised e
  end.

(** The dict comprehension building [by_name], entry by entry: a later entry
    with the same name overwrites the index of an earlier one. A truthy name
    that is a list or a dict cannot be hashed and raises [TypeError]. Only
    [str] keys are recorded: a key that is a number or a boolean is never
    equal to a host name, which is a [str], so it is never found by
    [host.name in by_name]. *)
Fixpoint index_names (i : nat) (ps : list json) (by_name : gmap ustr nat)
  : outcome (gmap ustr nat) :=
  match ps with
  | [] => Returned by_name
  | p :: ps' =>
      if is_dict p && truthy (get_name p) then
        match get_name p with
        | JStr s => index_names (S i) ps' (<[s := i]> by_name)
        | JArr _ | JObj _ => Raised TypeError
        | _ => index_names (S i) ps' by_name
        end
      else index_names (S i) ps' by_name
  end.

(** The loop over the hosts. [by_name] is not updated by the loop. An
    assignment [profiles[i] = profile] past the end of the list raises. *)
Fixpoint upsert_loop (by_name : gmap ustr nat) (hosts : list SshHost)
    (profiles : list json) : list json * outcome unit :=
  match hosts with
  | [] => (profiles, Returned tt)
  | h :: hosts' =>
      match make_profile h with
      | Raised e => (profiles, Raised e)
      | Returned p =>
          match by_name !! name h with
          | Some i =>
              if bool_decide (i < length profiles)%nat
              then upsert_loop by_name hosts' (<[i := p]> profiles)
              else (profiles, Raised IndexError)
          | None => upsert_loop by_name hosts' (profiles ++ [p])
          end
      end
  end.

(** [upsert_profiles(profiles, ssh_hosts)]: the list it leaves behind and how
    the call ended. *)
Definition upsert_profiles (profiles : list json) (ssh_hosts : list SshHost)
  : list json * outcome unit :=
  match index_names 0 profiles ∅ with
  | Raised e => (profiles, Raised e)
  | Returned by_name => upsert_loop by_name ssh_hosts profiles
  end.

(** ** [remove_profiles] *)

(** [n in names] for a set of [str]: hashes [n] first. *)
Definition py_in_names (n : json) (names : gset ustr) : outcome bool :=
  match n with
  | JArr _ | JObj _ => Raised TypeError
  | JStr s => Returned (bool_decide (s ∈ names))
  | _ => Returned false
  end.

(** The heuristic of the empty host list: the entry's [guid] is the braced
    identifier of its own [name]. An exception while computing the expected
    value is swallowed and the entry does not match. *)
Definition looks_like_ours (n g : json) : bool :=
  match n, g with
  | JStr ns, JStr gs =>
      match guid (host_named ns) with
      | Returned id => ustr_eqb gs (u "{" ++ id ++ u "}")
      | Raised _ => false
      end
  | _, _ => false
  end.

(** The loop filling [keep]. *)
Fixpoint remove_loop (names : gset ustr) (ps : list json) (keep : list json)
  : outcome (list json) :=
  match ps with
  | [] => Returned keep
  | p :: ps' =>
      match p with
      | JObj d =>
          let n := py_get d (u "name") in
          match py_in_names n names with
          | Raised e => Raised e
          | Returned true => remove_loop names ps' keep
          | Returned false =>
              if bool_decide (names = ∅)
                 && looks_like_ours n (py_get d (u "guid"))
              then remove_loop names ps' keep
              else remove_loop names ps' (keep ++ [p])
          end
      | _ => remove_loop names ps' (keep ++ [p])
      end
  end.

(** [remove_profiles(profiles, ssh_hosts)]: [profiles[:] = keep] is the last
    statement, so a call that raises leaves the list as it was. *)
Definition remove_profiles (profiles : list json) (ssh_hosts : list SshHost)
  : list json * outcome unit :=
  let names : gset ustr := list_to_set (name <$> ssh_hosts) in
  match remove_loop names profiles [] with
  | Returned keep => (keep, Returned tt)
  | Raised e => (profiles, Raised e)
  end.

(** ** The tables of the Unicode database

    [\w], [str.lower] and the final-sigma rule read tables of the Unicode
    database that are not part of the program. They are taken as an
    interface, with the facts about them that the proofs use. *)
Definition ascii_isalnum (c : Z) : bool :=
  ((48 <=? c) && (c <=? 57)) || ((65 <=? c) && (c <=? 90))
  || ((97 <=? c) && (c <=? 122)).

Definition ascii_lower (c : Z) : Z :=
  if (65 <=? c) && (c <=? 90) then c + 32 else c.

Class UnicodeData : Type := {
  (** [chr(c).isalnum()] *)
  uni_isalnum : Z → bool;
  (** the full lowercase mapping of one code point *)
  uni_tolower_full : Z → ustr;
  (** the properties Cased and Case_Ignorable *)
  uni_iscased : Z → bool;
  uni_iscase_ignorable : Z → bool;
  (** no whitespace is a letter or a digit *)
  uni_isalnum_space : ∀ c, py_isspace c = true → uni_isalnum c = false;
  (** below 128 the tables are the ASCII ones *)
  uni_isalnum_ascii : ∀ c, 0 ≤ c < 128 → uni_isalnum c = ascii_isalnum c;
  uni_tolower_ascii :
    ∀ c, 0 ≤ c < 128 → uni_tolower_full c = [ascii_lower c];
  (** U+017F, the long s, is a lowercase letter *)
  uni_tolower_long_s : uni_tolower_full 0x17F = [0x17F];
}.

(** The tables cut down to ASCII: every other code point is caseless and is
    no letter. They run the model on ASCII text. *)
Definition ascii_only_isalnum (c : Z) : bool := (c <? 128) && ascii_isalnum c.

Definition ascii_tables : UnicodeData := {|
  uni_isalnum := ascii_only_isalnum;
  uni_tolower_full c := [ascii_lower c];
  uni_iscased c := ((65 <=? c) && (c <=? 90)) || ((97 <=? c) && (c <=? 122));
  uni_iscase_ignorable c :=
    (c =? 39) || (c =? 46) || (c =? 58) || (c =? 94) || (c =? 96);
  uni_isalnum_space :=
    ltac:(intros c; unfold py_isspace, ascii_only_isalnum, ascii_isalnum; lia);
  uni_isalnum_ascii :=
    ltac:(intros c Hc; unfold ascii_only_isalnum;
          by replace (c <? 128) with true by lia);
  uni_tolower_ascii := λ c _, eq_refl;
  uni_tolower_long_s := eq_refl;
|}.

(** ** Regular expressions

    The two expressions are matched from the start of the string with the
    back-tracking order of [re]: a [+] takes the longest run first and gives
    characters back one at a time. *)

(** [X+] for a character class [X], followed by the continuation [k] on the
    run matched and on the rest. [acc] is the run so far, reversed. *)
Fixpoint re_plus_from {A} (p : Z → bool) (acc s : ustr)
    (k : ustr → ustr → option A) : option A :=
  match s with
  | c :: s' =>
      if p c then
        match re_plus_from p (c :: acc) s' k with
        | Some r => Some r
        | None => k (reverse (c :: acc)) s'
        end
      else None
  | [] => None
  end.

Definition re_plus {A} (p : Z → bool) (s : ustr)
    (k : ustr → ustr → option A) : option A :=
  re_plus_from p [] s k.

(** One character per class, in sequence; the rest of the string. *)
Fixpoint re_chars (ps : list (Z → bool)) (s : ustr) : option ustr :=
  match ps, s with
  | [], _ => Some s
  | p :: ps', c :: s' => if p c then re_chars ps' s' else None
  | _ :: _, [] => None
  end.

(** [.] matches everything but a line feed. *)
Definition re_dot (c : Z) : bool := negb (c =? LF).

(** [$] without [re.MULTILINE]: the end, or just before a final line feed. *)
Definition re_at_end (s : ustr) : bool :=
  match s with
  | [] => true
  | [c] => c =? LF
  | _ => false
  end.

(** The literal [Host] under [re.IGNORECASE]: each letter matches its two
    cases, and [s] also matches U+017F, the long s. *)
Definition host_keyword : list (Z → bool) :=
  [ (λ c, (c =? 104) || (c =? 72));
    (λ c, (c =? 111) || (c =? 79));
    (λ c, (c =? 115) || (c =? 83) || (c =? 0x17F));
    (λ c, (c =? 116) || (c =? 84)) ].

(** [HOST_LINE_RE.match(line)]: the group [patterns] of
    [^Host\s+(?P<patterns>.+)$], or [None]. *)
Definition host_line_match (line : ustr) : option ustr :=
  match re_chars host_keyword line with
  | None => None
  | Some r =>
      re_plus py_isspace r (λ _ r2,
        re_plus re_dot r2 (λ patterns r3,
          if re_at_end r3 then Some patterns else None))
  end.

Section Parser.
Context `{UnicodeData}.

(** [\w]: what [str.isalnum] accepts, and the underscore. *)
Definition re_word (c : Z) : bool := uni_isalnum c || (c =? 95).

(** [KV_RE.match(s)]: the groups [key] and [value] of
    [^(?P<key>\w+)\s+(?P<value>.+)$], or [None]. *)
Definition kv_match (s : ustr) : option (ustr * ustr) :=
  re_plus re_word s (λ key r,
    re_plus py_isspace r (λ _ r2,
      re_plus re_dot r2 (λ value r3,
        if re_at_end r3 then Some (key, value) else None))).

(** The first code point of [s] that is not case-ignorable. *)
Fixpoint skip_ignorable (s : ustr) : option Z :=
  match s with
  | [] => None
  | c :: s' => if uni_iscase_ignorable c then skip_ignorable s' else Some c
  end.

(** Whether a capital sigma is in final position: a cased letter before it
    and none after it, case-ignorable code points skipped. *)
Definition final_sigma (before_rev after : ustr) : bool :=
  match skip_ignorable before_rev with
  | Some c =>
      uni_iscased c
      && match skip_ignorable after with
         | None => true
         | Some c' => negb (uni_iscased c')
         end
  | None => false
  end.

(** [str.lower]: code point by code point, but for the capital sigma
    U+03A3, which becomes U+03C2 in final position and U+03C3 elsewhere. *)
Fixpoint lower_from (before_rev s : ustr) : ustr :=
  match s with
  | [] => []
  | c :: s' =>
      (if c =? 0x3A3
       then [if final_sigma before_rev s' then 0x3C2 else 0x3C3]
       else uni_tolower_full c)
      ++ lower_from (c :: before_rev) s'
  end.

Definition py_lower (s : ustr) : ustr := lower_from [] s.

(** ** [parse_ssh_config] *)

Definition SUPPORTED_KEYS : gset ustr :=
  {[ u "hostname"; u "user"; u "port"; u "identityfile" ]}.

(** The variables of [parse_ssh_config] that its loop and [flush] share. *)
Record parser : Type := mkParser {
  hosts : list SshHost;
  current_names : list ustr;
  current_block : gmap ustr ustr;
}.

Definition parser_init : parser := mkParser [] [] ∅.

(** [any(ch in hn for ch in ("*", "?"))] *)
Definition is_wildcard (hn : ustr) : bool :=
  existsb (py_contains hn) [42; 63].

(** The host built for one name of the block. *)
Definition host_of_block (block : gmap ustr ustr) (hn : ustr) : SshHost :=
  {| name := hn;
     hostname := block !! u "hostname";
     user := block !! u "user";
     port := block !! u "port";
     identity_file := block !! u "identityfile" |}.

(** The closure [flush]: nothing at all when there is no pending name,
    else one host per name without wildcard and both variables reset. *)
Definition flush (st : parser) : parser :=
  match current_names st with
  | [] => st
  | _ =>
      {| hosts :=
           fold_left
             (λ hs hn,
                if is_wildcard hn then hs
                else hs ++ [host_of_block (current_block st) hn])
             (current_names st) (hosts st);
         current_names := [];
         current_block := ∅ |}
  end.

(** One turn of the loop over the lines of the file. *)
Definition parse_line (st : parser) (raw : ustr) : parser :=
  let line := py_strip_nl raw in
  if negb (str_truthy (py_strip line))
     || py_startswith (py_strip line) (u "#")
  then st
  else
    match host_line_match line with
    | Some patterns =>
        let st := flush st in
        {| hosts := hosts st;
           current_names := py_split patterns;
           current_block := current_block st |}
    | None =>
        match kv_match (py_strip line) with
        | Some (key, value) =>
            let key := py_lower key in
            let val := py_strip value in
            if bool_decide (key ∈ SUPPORTED_KEYS)
            then {| hosts := hosts st;
                    current_names := current_names st;
                    current_block := <[key := val]> (current_block st) |}
            else st
        | None => st
        end
    end.

(** The lines of a text file opened with universal newlines: [\r\n] and
    [\r] read as [\n], and every line but possibly the last ends in [\n].
    [cur] is the line being read, reversed. *)
Fixpoint readlines_from (cur : ustr) (s : ustr) : list ustr :=
  match s with
  | [] => match cur with [] => [] | _ => [reverse cur] end
  | c :: s' =>
      if c =? LF then reverse (LF :: cur) :: readlines_from [] s'
      else if c =? CR then
        reverse (LF :: cur)
        :: readlines_from []
             match s' with
             | c2 :: s'' => if c2 =? LF then s'' else s'
             | [] => s'
             end
      else readlines_from (c :: cur) s'
  end.

Definition readlines (text : ustr) : list ustr := readlines_from [] text.

(** The loop and the final [flush], on the lines of the file. *)
Definition parse_lines (lines : list ustr) : list SshHost :=
  hosts (flush (fold_left parse_line lines parser_init)).

(** [parse_ssh_config(path)] on the decoded text of the file. *)
Definition parse_ssh_config (text : ustr) : list SshHost :=
  parse_lines (readlines text).

End Parser.

(** ** The driver [main] *)

(** The parsed command line ([argparse.Namespace]). *)
Record Args : Type := mkArgs {
  debug : bool;
  ssh_dir : ustr;
  nosubdir : bool;
  terminal : option ustr;
  add : bool;
  remove : bool;
  exclude : list ustr;
}.

(** The records handed to [logging]. *)
Inductive log_record : Type :=
  | ErrNoAction                         (* logging.error *)
  | DbgScanning (dir : ustr) (recursive : bool)
  | InfoFound (n : nat)
  | DbgParsed (f : ustr) (n : nat)
  | WarnParseFailed (f : ustr) (e : exn)
  | InfoRemovalComplete
  | InfoAddComplete
  | InfoSaved (path : ustr).

(** The text of the only error record. *)
Definition error_text (r : log_record) : option ustr :=
  match r with
  | ErrNoAction => Some (u "No action specified. Use --add and/or --remove.")
  | _ => None
  end.

Definition is_debug_record (r : log_record) : bool :=
  match r with DbgScanning _ _ | DbgParsed _ _ => true | _ => false end.

(** The operating system as [main] uses it: a file system that is read,
    listed and written, paths, and the JSON codec. *)
Class System : Type := {
  FS : Type;
  (** [open(p).read()] on the decoded text, or the error raised *)
  fs_read : FS → ustr → outcome ustr;
  (** [p.exists()] *)
  fs_exists : FS → ustr → bool;
  (** the regular files of [dir.rglob("*")] (recursive) or of
      [dir.iterdir()] when the directory exists *)
  fs_files : FS → ustr → bool → list ustr;
  (** the error that walking the directory raises, if any: [dir.iterdir()]
      on a path that exists and is no directory, a directory that may not
      be read *)
  fs_files_error : FS → ustr → bool → option exn;
  (** [p.parent.mkdir(parents=True, exist_ok=True)], [p.open("w")] and the
      writes of the text, each of which can raise: the file system they
      leave, directories created before an error included, and how they
      end *)
  fs_save : FS → ustr → ustr → FS * outcome unit;
  (** [os.path.basename] and [Path.name] *)
  os_path_basename : ustr → ustr;
  path_name : ustr → ustr;
  (** [os.path.expanduser] *)
  expanduser : ustr → ustr;
  (** [find_default_settings_path]: it reads the environment and the file
      system; [os.getlogin] and [Path.home] can raise *)
  find_default_settings_path : FS → outcome ustr;
  (** [load_schema_fallback_from_example] on the [example.json] of the
      program: it reads the file system, and the look for the file can
      raise *)
  load_schema_fallback_from_example : FS → outcome (option ustr);
  (** [json.load] and [json.dump(data, f, indent=4)] *)
  json_loads : ustr → outcome json;
  json_dumps : json → ustr;
}.

Section Driver.
Context `{UnicodeData} `{System}.

(** What a run can change: the file system and the log. *)
Record world : Type := mkWorld {
  fs : FS;
  log : list log_record;
}.

(** Computations of the driver: they read and change the world and return
    or raise. *)
Definition M (A : Type) : Type := world → world * outcome A.

Definition ret {A} (a : A) : M A := λ w, (w, Returned a).
Definition bind {A B} (m : M A) (k : A → M B) : M B :=
  λ w, match m w with
       | (w', Returned a) => k a w'
       | (w', Raised e) => (w', Raised e)
       end.
Definition lift {A} (o : outcome A) : M A := λ w, (w, o).
Definition with_fs {A} (f : FS → A) : M A := λ w, (w, Returned (f (fs w))).
Definition read_fs {A} (f : FS → outcome A) : M A := λ w, (w, f (fs w)).

#[local] Instance M_ret : MRet M := @ret.
#[local] Instance M_bind : MBind M := λ A B k m, bind m k.

(** [logging.basicConfig(level=DEBUG if args.debug else INFO)] and one call
    of [logging.debug/info/warning/error]. *)
Definition emit (args : Args) (r : log_record) : M unit :=
  λ w, if is_debug_record r && negb (debug args) then (w, Returned tt)
       else (mkWorld (fs w) (log w ++ [r]), Returned tt).

(** [line.rstrip("\n")] *)
Definition py_rstrip_nl (s : ustr) : ustr := rstrip_by (λ c, c =? LF) s.

(** [looks_like_ssh_config]: some line is a [Host] line; a file that cannot
    be read does not look like one. *)
Definition looks_like_ssh_config (f : FS) (p : ustr) : bool :=
  match fs_read f p with
  | Returned text =>
      existsb (λ raw, bool_decide (is_Some (host_line_match (py_rstrip_nl raw))))
        (readlines text)
  | Raised _ => false
  end.

Definition discover_ssh_config_files (f : FS) (dir : ustr)
    (include_subdirs : bool) (excludes : list ustr) : list ustr :=
  let exclude_names : gset ustr := list_to_set (map os_path_basename excludes) in
  filter (λ p, (path_name p ∉ exclude_names) ∧ looks_like_ssh_config f p)
    (fs_files f dir include_subdirs).

(** [d[k] = v] *)
Fixpoint py_set (d : list (ustr * json)) (k : ustr) (v : json)
  : list (ustr * json) :=
  match d with
  | [] => [(k, v)]
  | (k', v') :: d' =>
      if ustr_eqb k' k then (k', v) :: d' else (k', v') :: py_set d' k v
  end.

Definition default_settings : json :=
  JObj [(u "$schema", JStr (u "https://aka.ms/terminal-profiles-schema"));
        (u "profiles", JObj [(u "defaults", JObj []); (u "list", JArr [])]);
        (u "actions", JArr []);
        (u "schemes", JArr []);
        (u "themes", JArr [])].

Definition load_settings (settings_path : ustr) : M json :=
  λ w, if fs_exists (fs w) settings_path
       then match fs_read (fs w) settings_path with
            | Returned text => (w, json_loads text)
            | Raised e => (w, Raised e)
            end
       else (w, Returned default_settings).

(** [save_settings]: the validation against the schema, for which alone
    the fallback of the schema is passed, is best effort: it raises nothing
    and changes nothing. Then the parent directories are created, the file is opened and the document is written followed by a
    line feed; an error of one of these steps ends [save_settings] and
    leaves the file system as that step found it. *)
Definition save_settings (settings_path : ustr) (data : json) : M unit :=
  λ w, let r := fs_save (fs w) settings_path (json_dumps data ++ [LF]) in
       (mkWorld (fst r) (log w), snd r).

(** [ensure_profiles_container]: the list under [profiles.list], an empty
    one when it is missing or is no list. The list is shared with the
    document: [store_profiles] puts the reconciled list at that place of the
    document. A document that is not a dict has no [get]. *)
Definition ensure_profiles_container (data : json)
  : outcome (list json) :=
  match data with
  | JObj d =>
      match py_get d (u "profiles") with
      | JObj prof =>
          match py_get prof (u "list") with
          | JArr lst => Returned lst
          | _ => Returned []
          end
      | _ => Returned []
      end
  | _ => Raised AttributeError
  end.

Definition store_profiles (data : json) (lst : list json) : json :=
  match data with
  | JObj d =>
      let prof :=
        match py_get d (u "profiles") with JObj prof => prof | _ => [] end in
      JObj (py_set d (u "profiles") (JObj (py_set prof (u "list") (JArr lst))))
  | _ => data
  end.

(** A reconciler run on the shared list. *)
Definition run (r : list json * outcome unit) : M (list json) :=
  lift (match r with
        | (l, Returned _) => Returned l
        | (_, Raised e) => Raised e
        end).

(** The loop of [main] over the files: a file that fails to parse is
    reported and contributes nothing. *)
Fixpoint parse_all (args : Args) (files : list ustr) (all_hosts : list SshHost)
  : M (list SshHost) :=
  match files with
  | [] => ret all_hosts
  | f :: files' =>
      r ← with_fs (λ fsys, fs_read fsys f);
      match r with
      | Returned text =>
          let hs := parse_ssh_config text in
          emit args (DbgParsed f (length hs)) ;;
          parse_all args files' (all_hosts ++ hs)
      | Raised e =>
          emit args (WarnParseFailed f e) ;;
          parse_all args files' all_hosts
      end
  end.

(** The settings path of [main]: the one of [--terminal] when it is given
    and not empty, the default one otherwise. *)
Definition settings_path_for (args : Args) : M ustr :=
  if opt_truthy (terminal args)
  then ret (default [] (terminal args))
  else read_fs find_default_settings_path.

(** The call of [discover_ssh_config_files] in [main]: walking the
    directory can raise, and no list is returned then. *)
Definition discover_call (args : Args) (dir : ustr) (include_subdirs : bool)
  : M (list ustr) :=
  λ w, match fs_files_error (fs w) dir include_subdirs with
       | Some e => (w, Raised e)
       | None =>
           (w, Returned (discover_ssh_config_files (fs w) dir include_subdirs
                           (exclude args)))
       end.

(** [main], from the parsed arguments to the exit status. *)
Definition main (args : Args) : M Z :=
  if negb (add args) && negb (remove args) then
    emit args ErrNoAction ;;
    ret 2
  else
    let dir := expanduser (ssh_dir args) in
    let include_subdirs := negb (nosubdir args) in
    settings_path ← settings_path_for args;
    emit args (DbgScanning dir include_subdirs) ;;
    files ← discover_call args dir include_subdirs;
    emit args (InfoFound (length files)) ;;
    all_hosts ← parse_all args files [];
    settings ← load_settings settings_path;
    profiles ← lift (ensure_profiles_container settings);
    profiles ←
      (if remove args
       then l ← run (remove_profiles profiles all_hosts);
            emit args InfoRemovalComplete ;; ret l
       else ret profiles);
    profiles ←
      (if add args
       then l ← run (upsert_profiles profiles all_hosts);
            emit args InfoAddComplete ;; ret l
       else ret profiles);
    schema_fallback ← read_fs load_schema_fallback_from_example;
    save_settings settings_path (store_profiles settings profiles) ;;
    emit args (InfoSaved settings_path) ;;
    ret 0.

End Driver.

(** ** Vocabulary of the statements *)

(** The command line as the specification words it: a field counts when it
    is present. *)
Definition flag_tokens (flag : ustr) (o : option ustr) : list ustr :=
  match o with Some v => [flag; v] | None => [] end.

Definition spec_commandline (h : SshHost) : ustr :=
  let target := match hostname h with Some hn => hn | None => name h end in
  let target :=
    match user h with Some us => us ++ u "@" ++ target | None => target end in
  py_join (u " ")
    ([u "ssh"] ++ flag_tokens (u "-p") (port h)
     ++ flag_tokens (u "-i") (identity_file h) ++ [target]).

(** An optional field with the empty string read as absent. *)
Definition nonempty_field (o : option ustr) : option ustr :=
  match o with Some [] => None | _ => o end.

Definition drop_empty_fields (h : SshHost) : SshHost :=
  {| name := name h;
     hostname := nonempty_field (hostname h);
     user := nonempty_field (user h);
     port := nonempty_field (port h);
     identity_file := nonempty_field (identity_file h) |}.

(** A code point of the ASCII range. *)
Definition is_ascii (c : Z) : Prop := 0 ≤ c < 128.

#[global] Instance is_ascii_dec (c : Z) : Decision (is_ascii c).
Proof. unfold is_ascii. apply _. Defined.

(** The example of the specification: one block with two names. *)
Definition two_names_block : ustr :=
  u "Host web1 web2
    User bob".

(** The text that [json.dumps(data, indent=4)] gives, for the file system
    held in memory below. *)
Module JsonText.

(** [str(n)] for an [int]. *)
Fixpoint digits_from (fuel : nat) (n : Z) (acc : ustr) : ustr :=
  match fuel with
  | O => acc
  | S fuel' =>
      let acc := (48 + n mod 10) :: acc in
      if n <? 10 then acc else digits_from fuel' (n / 10) acc
  end.

Definition int_text (z : Z) : ustr :=
  if z <? 0
  then 45 :: digits_from (S (Z.to_nat (Z.log2 (- z)))) (- z) []
  else digits_from (S (Z.to_nat (Z.log2 z))) z [].

(** ['\\u{0:04x}'.format(n)] *)
Definition u_escape (n : Z) : ustr :=
  [92; 117;
   Uuid.hex_digit (Z.land (Z.shiftr n 12) 0xF);
   Uuid.hex_digit (Z.land (Z.shiftr n 8) 0xF);
   Uuid.hex_digit (Z.land (Z.shiftr n 4) 0xF);
   Uuid.hex_digit (Z.land n 0xF)].

(** One character of a string under [ensure_ascii]: the printable ASCII
    characters stand for themselves but the quote and the backslash. *)
Definition char_text (c : Z) : ustr :=
  if c =? 34 then [92; 34]
  else if c =? 92 then [92; 92]
  else if c =? 8 then [92; 98]
  else if c =? 12 then [92; 102]
  else if c =? 10 then [92; 110]
  else if c =? 13 then [92; 114]
  else if c =? 9 then [92; 116]
  else if (32 <=? c) && (c <=? 126) then [c]
  else if c <? 0x10000 then u_escape c
  else
    let n := c - 0x10000 in
    u_escape (Z.lor 0xd800 (Z.land (Z.shiftr n 10) 0x3ff))
    ++ u_escape (Z.lor 0xdc00 (Z.land n 0x3ff)).

Definition str_text (s : ustr) : ustr :=
  [34] ++ flat_map char_text s ++ [34].

(** [float.__repr__] where it needs no digits: the digits of a finite float
    other than zero are not computed, its text is left empty. *)
Definition float_text (f : spec_float) : ustr :=
  match f with
  | S754_zero false => u "0.0"
  | S754_zero true => u "-0.0"
  | S754_infinity false => u "Infinity"
  | S754_infinity true => u "-Infinity"
  | S754_nan => u "NaN"
  | S754_finite _ _ _ => []
  end.

Definition newline_indent (level : nat) : ustr :=
  LF :: concat (replicate level (u "    ")).

(** A list or a dict with its items, one per line, one level deeper. *)
Definition block_text (opening closing : Z) (level : nat)
    (items : list ustr) : ustr :=
  match items with
  | [] => [opening; closing]
  | _ =>
      [opening] ++ newline_indent (S level)
      ++ py_join (44 :: newline_indent (S level)) items
      ++ newline_indent level ++ [closing]
  end.

Fixpoint dumps_at (level : nat) (v : json) : ustr :=
  match v with
  | JNull => u "null"
  | JBool true => u "true"
  | JBool false => u "false"
  | JInt z => int_text z
  | JFloat f => float_text f
  | JStr s => str_text s
  | JArr l => block_text 91 93 level (map (dumps_at (S level)) l)
  | JObj d =>
      block_text 123 125 level
        (map (λ kv, match kv with
                    | (k, x) => str_text k ++ u ": " ++ dumps_at (S level) x
                    end) d)
  end.

Definition dumps (v : json) : ustr := dumps_at 0 v.

End JsonText.

(** A file system held in memory, to run the driver: files are found by
    their full path, a directory holds the files whose path it starts,
    walking a directory and saving a file never fail, and no document can
    be decoded. *)
Definition memory_system : System := {|
  FS := gmap ustr ustr;
  fs_read f p :=
    match f !! p with Some t => Returned t | None => Raised OSError end;
  fs_exists f p := bool_decide (is_Some (f !! p));
  fs_files f dir _ :=
    filter (λ p, py_startswith p dir = true) (map fst (map_to_list f));
  fs_files_error _ _ _ := None;
  fs_save f p t := (<[p := t]> f, Returned tt);
  os_path_basename p := p;
  path_name p := p;
  expanduser p := p;
  find_default_settings_path _ := Returned (u "settings.json");
  load_schema_fallback_from_example _ := Returned None;
  json_loads _ := Raised JSONDecodeError;
  json_dumps := JsonText.dumps;
|}.

(** The key under which [by_name] records a name: a non-empty [str]. *)
Definition str_key (n : json) : option ustr :=
  match n with JStr (c :: s) => Some (c :: s) | _ => None end.

(** The name under which [by_name] records an entry of the list, if any. *)
Definition str_name (p : json) : option ustr := str_key (get_name p).

(** An entry whose name makes the comprehension of [by_name] raise: a dict
    whose name is a non-empty list or dict. *)
Definition unhashable_name (p : json) : bool :=
  is_dict p && truthy (get_name p) && negb (hashable (get_name p)).

(** [i] is the last position of the list with an entry recorded as [s]. *)
Definition last_named (l : list json) (s : ustr) (i : nat) : Prop :=
  (∃ p, l !! i = Some p ∧ str_name p = Some s)
  ∧ ∀ j p, (i < j)%nat → l !! j = Some p → str_name p ≠ Some s.

(** No entry of the list is recorded as [s]. *)
Definition unnamed (l : list json) (s : ustr) : Prop :=
  ∀ j p, l !! j = Some p → str_name p ≠ Some s.

(** [by_name] is the index of the list: each recorded name with its last
    position. *)
Definition indexes (by_name : gmap ustr nat) (l : list json) : Prop :=
  ∀ s, match by_name !! s with
       | Some i => last_named l s i
       | None => unnamed l s
       end.

(** The profile written for a host whose identifier can be computed. *)
Definition the_profile (h : SshHost) : json :=
  match make_profile h with Returned p => p | Raised _ => JNull end.

(** The identifier of the host can be computed. *)
Definition host_ok (h : SshHost) : Prop :=
  make_profile h = Returned (the_profile h).

(** The part of [upsert_loop] that writes over existing entries. *)
Definition overwrite (by_name : gmap ustr nat) (hs : list SshHost)
    (l : list json) : list json :=
  fold_left
    (λ q h, match by_name !! name h with
            | Some i => <[i := the_profile h]> q
            | None => q
            end)
    hs l.

(** The hosts that [upsert_loop] appends. *)
Definition appended (by_name : gmap ustr nat) (hs : list SshHost)
  : list SshHost :=
  filter (λ h, by_name !! name h = None) hs.

(** No two dict entries of the list have the same [str] as name. *)
Definition distinct_names (l : list json) : Prop :=
  ∀ i j p q s, l !! i = Some p → l !! j = Some q →
               get_name p = JStr s → get_name q = JStr s → i = j.

(** [i] is the first position of the list with a dict named [s]. *)
Definition first_named (l : list json) (s : ustr) (i : nat) : Prop :=
  (∃ p, l !! i = Some p ∧ get_name p = JStr s)
  ∧ ∀ j p, (j < i)%nat → l !! j = Some p → get_name p ≠ JStr s.

(** The invariant of the specification on one call: after the call no name
    is held twice, and the profile of a host whose name was in the list
    stands where that name first was. *)
Definition upsert_dedup_claim (P : list json) (H : list SshHost) : Prop :=
  ∀ P', upsert_profiles P H = (P', Returned tt) →
        distinct_names P'
        ∧ ∀ h i, h ∈ H → first_named P (name h) i →
                 ∃ h' p', h' ∈ H ∧ name h' = name h
                          ∧ make_profile h' = Returned p'
                          ∧ P' !! i = Some p'.

(** A list that holds the name [A] twice. *)
Definition two_entries_named_A : list json :=
  [JObj [(u "name", JStr (u "A")); (u "tag", JInt 1)];
   JObj [(u "name", JStr (u "A")); (u "tag", JInt 2)]].

(** [p.get("guid")] for an entry of the profile list that is a dict. *)
Definition get_guid (p : json) : json :=
  match p with JObj d => py_get d (u "guid") | _ => JNull end.

(** The entry looks like a profile of this tool: its [guid] is the braced
    identifier of its own [name]. *)
Definition tool_owned (p : json) : bool :=
  looks_like_ours (get_name p) (get_guid p).

(** The name of the entry is one of [names]. *)
Definition named_in (names : gset ustr) (p : json) : bool :=
  match get_name p with JStr s => bool_decide (s ∈ names) | _ => false end.

(** The entries that [remove_profiles] keeps. *)
Definition kept (names : gset ustr) (p : json) : bool :=
  negb (named_in names p) && negb (bool_decide (names = ∅) && tool_owned p).

(** Every name of the list can be hashed. *)
Definition names_hashable (l : list json) : Prop :=
  Forall (λ p, hashable (get_name p) = true) l.

#[global] Instance names_hashable_dec (l : list json) :
  Decision (names_hashable l).
Proof. unfold names_hashable. apply _. Defined.

(** The names of the hosts, as [remove_profiles] collects them. *)
Definition host_names (H : list SshHost) : gset ustr :=
  list_to_set (name <$> H).

(** The round trip of the specification on one list and one host list:
    removing the hosts just upserted leaves no entry named like a host and
    every entry of the list that is not named like a host, in order. *)
Definition upsert_remove_claim (P : list json) (H : list SshHost) : Prop :=
  ∀ P' P'', upsert_profiles P H = (P', Returned tt) →
            remove_profiles P' H = (P'', Returned tt) →
            (∀ p, p ∈ P'' → named_in (host_names H) p = false)
            ∧ filter (λ p, named_in (host_names H) p = false) P
              `sublist_of` P''.

(** Upserting twice is upserting once. *)
Definition upsert_idempotent_claim (P : list json) (H : list SshHost) : Prop :=
  fst (upsert_profiles (fst (upsert_profiles P H)) H)
  = fst (upsert_profiles P H).

(** A surrogate, which no UTF-8 text encodes; a code point of a [str]; a
    lowercase hexadecimal digit. *)
Definition is_surrogate (c : Z) : Prop := 0xD800 ≤ c ≤ 0xDFFF.
Definition is_code_point (c : Z) : Prop := 0 ≤ c ≤ 0x10FFFF.
Definition is_hex_digit (c : Z) : Prop := 48 ≤ c ≤ 57 ∨ 97 ≤ c ≤ 102.

#[global] Instance is_surrogate_dec (c : Z) : Decision (is_surrogate c).
Proof. unfold is_surrogate. apply _. Defined.

#[global] Instance is_code_point_dec (c : Z) : Decision (is_code_point c).
Proof. unfold is_code_point. apply _. Defined.

#[global] Instance is_hex_digit_dec (c : Z) : Decision (is_hex_digit c).
Proof. unfold is_hex_digit. apply _. Defined.

(** The value a document holds under a key: [v[k]] when [v] is a dict with
    that key, [None] otherwise. *)
Definition json_field (v : json) (k : ustr) : json :=
  match v with JObj d => py_get d k | _ => JNull end.

(** The path of the settings file that [main] loads and saves, or the
    error of looking for the default one. *)
Definition settings_path_of `{System} (args : Args) (f : FS) : outcome ustr :=
  if opt_truthy (terminal args) then Returned (default [] (terminal args))
  else find_default_settings_path f.

(** What one file gives to the loop of [main]: its hosts and the records
    logged, a warning and no host when it cannot be read. *)
Definition file_hosts `{UnicodeData} `{System} (f : FS) (p : ustr)
  : list SshHost :=
  match fs_read f p with
  | Returned text => parse_ssh_config text
  | Raised _ => []
  end.

Definition file_records `{UnicodeData} `{System} (args : Args) (f : FS)
    (p : ustr) : list log_record :=
  match fs_read f p with
  | Returned text =>
      if debug args then [DbgParsed p (length (parse_ssh_config text))] else []
  | Raised e => [WarnParseFailed p e]
  end.

(** The hosts that a run collects: those of the files discovered, in the
    order of the files. *)
Definition discovered_hosts `{UnicodeData} `{System} (args : Args) (f : FS)
  : list SshHost :=
  discover_ssh_config_files f (expanduser (ssh_dir args))
    (negb (nosubdir args)) (exclude args)
  ≫= file_hosts f.

(** The minimal document of [load_settings] with a list of profiles. *)
Definition fresh_settings (profiles : list json) : json :=
  JObj [(u "$schema", JStr (u "https://aka.ms/terminal-profiles-schema"));
        (u "profiles",
         JObj [(u "defaults", JObj []); (u "list", JArr profiles)]);
        (u "actions", JArr []);
        (u "schemes", JArr []);
        (u "themes", JArr [])].

(** The names that a line gives to the block it starts: the tokens of a
    line that [HOST_LINE_RE] matches, none for another line. *)
Definition host_patterns (raw : ustr) : list ustr :=
  match host_line_match (py_strip_nl raw) with
  | Some patterns => py_split patterns
  | None => []
  end.

(** A value as [strip] leaves it, and not empty. *)
Definition stripped (v : ustr) : Prop := v ≠ [] ∧ py_strip v = v.

(** The fields of a host that are present are stripped values. *)
Definition fields_stripped (h : SshHost) : Prop :=
  Forall (λ o, ∀ v, o = Some v → stripped v)
    [hostname h; user h; port h; identity_file h].

(** The spellings of the keyword that [HOST_LINE_RE] accepts. *)
Definition is_host_keyword (kw : ustr) : Prop :=
  re_chars host_keyword kw = Some [].

(** A word of a command line: not empty, and without whitespace. *)
Definition is_token (t : ustr) : Prop :=
  t ≠ [] ∧ Forall (λ c, py_isspace c = false) t.

#[global] Instance is_token_dec (t : ustr) : Decision (is_token t).
Proof. unfold is_token. apply _. Defined.

(** The target of the command line when every field that is present
    counts: the host name or else the name, after the user and [@]. *)
Definition target_of (h : SshHost) : ustr :=
  let target := match hostname h with Some hn => hn | None => name h end in
  match user h with Some us => us ++ u "@" ++ target | None => target end.

(** The names that [by_name] knows: the non-empty [str] names of the
    dicts of the list. *)
Definition known_names (l : list json) : list ustr := omap str_name l.


(** One reconciler of [main], run when its flag is set: the list it leaves,
    or its error. *)
Definition reconcile_step (on : bool)
    (r : list json → list json * outcome unit) (l : list json)
  : outcome (list json) :=
  if on
  then match r l with
       | (l', Returned _) => Returned l'
       | (_, Raised e) => Raised e
       end
  else Returned l.

(** The list that a run leaves under [profiles.list]: the list loaded after
    [remove_profiles], with [--remove], and then [upsert_profiles], with
    [--add]. *)
Definition reconciled (args : Args) (hosts : list SshHost)
    (profiles : list json) : outcome (list json) :=
  match reconcile_step (remove args) (λ l, remove_profiles l hosts) profiles with
  | Returned l => reconcile_step (add args) (λ l, upsert_profiles l hosts) l
  | Raised e => Raised e
  end.

(** What a run with an action holds when it reaches [save_settings]: the
    settings path and the document to write; or the error of the step that
    raised before: the search of the default path, the walk of the
    directory, the load of the settings, the look at the document, a
    reconciler or the look for the fallback of the schema. *)
Definition to_save `{UnicodeData} `{System} (args : Args) (w : world)
  : outcome (ustr * json) :=
  match settings_path_of args (fs w) with
  | Raised e => Raised e
  | Returned p =>
      match fs_files_error (fs w) (expanduser (ssh_dir args))
              (negb (nosubdir args)) with
      | Some e => Raised e
      | None =>
          match snd (load_settings p w) with
          | Raised e => Raised e
          | Returned doc =>
              match ensure_profiles_container doc with
              | Raised e => Raised e
              | Returned profiles =>
                  match reconciled args (discovered_hosts args (fs w))
                          profiles with
                  | Raised e => Raised e
                  | Returned lst =>
                      match load_schema_fallback_from_example (fs w) with
                      | Raised e => Raised e
                      | Returned _ => Returned (p, store_profiles doc lst)
                      end
                  end
              end
          end
      end
  end.

(** The status of a run that reached [save_settings]: 0 when the save
    returned, its error otherwise. *)
Definition status_after_save (saved : outcome unit) : outcome Z :=
  match saved with Returned _ => Returned 0 | Raised e => Raised e end.








(** * Properties *)

(** ** Lists *)

(** The last element of a list with a decidable property, if any. *)
Lemma list_last_such {A} (T : A → Prop) `{!∀ x, Decision (T x)} (l : list A) :
  Forall (λ x, ¬ T x) l
  ∨ ∃ l1 x l2, l = l1 ++ x :: l2 ∧ T x ∧ Forall (λ y, ¬ T y) l2.
Proof.
  induction l as [|x l [IH | (l1 & y & l2 & -> & Hy & Hl2)]].
  - by left.
  - destruct (decide (T x)) as [Hx | Hx].
    + right. by exists [], x, l.
    + left. by constructor.
  - right. by exists (x :: l1), y, l2.
Qed.

Lemma filter_Forall2 {A} (K : A → Prop) `{!∀ x, Decision (K x)} (l k : list A) :
  Forall2 (λ x y, x = y ∨ (¬ K x ∧ ¬ K y)) l k → filter K l = filter K k.
Proof.
  induction 1 as [|x y l k [-> | [Hx Hy]] _ IH]; [done|..].
  - rewrite !filter_cons. by rewrite IH.
  - by rewrite !filter_cons, !decide_False.
Qed.

Lemma filter_none {A} (K : A → Prop) `{!∀ x, Decision (K x)} (l : list A) :
  Forall (λ x, ¬ K x) l → filter K l = [].
Proof.
  induction 1 as [|x l Hx _ IH]; [done|].
  by rewrite filter_cons, decide_False.
Qed.

Lemma NoDup_fmap_filter {A B} (f : A → B) (T : A → Prop)
    `{!∀ x, Decision (T x)} (l : list A) :
  NoDup (f <$> l) → NoDup (f <$> filter T l).
Proof.
  induction l as [|x l IH]; [done|]. rewrite fmap_cons, NoDup_cons.
  intros [Hx Hl]. rewrite filter_cons. destruct (decide (T x)); [|by apply IH].
  rewrite fmap_cons, NoDup_cons. split; [|by apply IH].
  intros (y & Hy & [_ Hin]%list_elem_of_filter)%list_elem_of_fmap.
  apply Hx, list_elem_of_fmap. by exists y.
Qed.

Lemma NoDup_fmap_eq {A B} (f : A → B) (l : list A) (x y : A) :
  NoDup (f <$> l) → x ∈ l → y ∈ l → f x = f y → x = y.
Proof.
  induction l as [|z l IH]; [by intros _ ?%elem_of_nil|].
  rewrite fmap_cons, NoDup_cons. intros [Hz Hl] Hx Hy Hxy.
  apply elem_of_cons in Hx as [-> | Hx], Hy as [-> | Hy]; [done|..|by apply IH].
  - destruct Hz. rewrite Hxy. by apply list_elem_of_fmap_2.
  - destruct Hz. rewrite <- Hxy. by apply list_elem_of_fmap_2.
Qed.


(** ** The identifier *)

(** The digest of ["abc"], from the definition of SHA-1. *)
Example sha1_abc :
  Uuid.hex_of_bytes (Uuid.sha1 (u "abc"))
  = u "a9993e364706816aba3e25717850c26c9cd0d89d".
Proof. by vm_compute. Qed.

Example guid_Server01 :
  guid (host_named (u "Server01"))
  = Returned (u "4578e256-e1a7-5c27-b5c7-5fa5dac69cb3").
Proof. by vm_compute. Qed.

(** A lone surrogate in the name cannot be encoded. *)
Example guid_surrogate :
  guid (host_named [0xD800]) = Raised UnicodeEncodeError.
Proof. by vm_compute. Qed.

(** ** The command line of a host *)

Example commandline_all_fields :
  commandline
    {| name := u "Server01"; hostname := Some (u "1.2.3.4");
       user := Some (u "alice"); port := Some (u "2222");
       identity_file := Some (u "/home/alice/.ssh/id_rsa") |}
  = u "ssh -p 2222 -i /home/alice/.ssh/id_rsa alice@1.2.3.4".
Proof. reflexivity. Qed.

Example commandline_hostname_only :
  commandline
    {| name := u "Server02"; hostname := Some (u "example.com");
       user := None; port := None; identity_file := None |}
  = u "ssh example.com".
Proof. reflexivity. Qed.

(** C6, as stated, fails: a port that is present but empty is skipped by
    the truth test [if self.port:], where the specification inserts
    [-p] and the empty value. *)
Lemma commandline_empty_port_skipped :
  let h := {| name := u "h"; hostname := None; user := None;
              port := Some []; identity_file := None |} in
  commandline h = u "ssh h" ∧ spec_commandline h = u "ssh -p  h"
  ∧ commandline h ≠ spec_commandline h.
Proof. cbv zeta. split; [reflexivity|]. split; [reflexivity|]. discriminate. Qed.

Lemma commandline_drop_empty (h : SshHost) :
  commandline h = spec_commandline (drop_empty_fields h).
Proof.
  destruct h as [n [[|c1 hn]|] [[|c2 us]|] [[|c3 po]|] [[|c4 idf]|]];
    reflexivity.
Qed.

(** C6, amended: the command line of every host is the one the
    specification words, with "present" read as "present and not empty":
    [ssh], then [-p] and the port, then [-i] and the identity file, then the
    target, which is the host name when there is a non-empty one and the
    name otherwise, prefixed with the user and [@] when there is a non-empty
    user. The two records of the specification give the two command lines
    it lists. *)
Theorem commandline_spec (h : SshHost) :
  commandline h = spec_commandline (drop_empty_fields h)
  ∧ commandline
      {| name := u "Server01"; hostname := Some (u "1.2.3.4");
         user := Some (u "alice"); port := Some (u "2222");
         identity_file := Some (u "/home/alice/.ssh/id_rsa") |}
    = u "ssh -p 2222 -i /home/alice/.ssh/id_rsa alice@1.2.3.4"
  ∧ commandline
      {| name := u "Server02"; hostname := Some (u "example.com");
         user := None; port := None; identity_file := None |}
    = u "ssh example.com".
Proof. split; [apply commandline_drop_empty|split; reflexivity]. Qed.

(** When every present field is non-empty, the command line is the one of
    the specification read literally. *)
Corollary commandline_spec_nonempty (h : SshHost) :
  hostname h ≠ Some [] → user h ≠ Some [] → port h ≠ Some [] →
  identity_file h ≠ Some [] →
  commandline h = spec_commandline h.
Proof.
  intros H1 H2 H3 H4. rewrite commandline_drop_empty.
  destruct h as [n [[|c1 hn]|] [[|c2 us]|] [[|c3 po]|] [[|c4 idf]|]];
    simpl in *;
    try (by destruct H1); try (by destruct H2); try (by destruct H3);
    try (by destruct H4); reflexivity.
Qed.

(** ** Stripping *)

Lemma lstrip_by_app_all p (ws s : ustr) :
  Forall (λ c, p c = true) ws → lstrip_by p (ws ++ s) = lstrip_by p s.
Proof. induction 1 as [|c ws Hc _ IH]; simpl; [done|]. by rewrite Hc. Qed.

Lemma lstrip_by_app_keep p (x y : ustr) c :
  p c = false → lstrip_by p (x ++ c :: y) = lstrip_by p x ++ c :: y.
Proof.
  intros Hc. induction x as [|a x IH]; simpl; [by rewrite Hc|].
  destruct (p a); [done|]. done.
Qed.

Lemma lstrip_by_suffix p (s : ustr) : lstrip_by p s `suffix_of` s.
Proof.
  induction s as [|c s IH]; simpl; [done|].
  destruct (p c); [by apply suffix_cons_r|done].
Qed.

Lemma rstrip_by_app_keep p (x y : ustr) c :
  p c = false → rstrip_by p (x ++ c :: y) = x ++ c :: rstrip_by p y.
Proof.
  intros Hc. unfold rstrip_by.
  rewrite reverse_app, reverse_cons, <- app_assoc. simpl.
  rewrite lstrip_by_app_keep by done.
  by rewrite reverse_app, reverse_cons, reverse_involutive, <- app_assoc.
Qed.

Lemma rstrip_by_prefix p (s : ustr) : rstrip_by p s `prefix_of` s.
Proof.
  unfold rstrip_by. destruct (lstrip_by_suffix p (reverse s)) as [k Hk].
  exists (reverse k).
  rewrite <- reverse_app, <- Hk. by rewrite reverse_involutive.
Qed.

Lemma strip_by_Forall (P : Z → Prop) p (s : ustr) :
  Forall P s → Forall P (strip_by p s).
Proof.
  intros Hs. unfold strip_by.
  destruct (rstrip_by_prefix p (lstrip_by p s)) as [k1 Hk1].
  destruct (lstrip_by_suffix p s) as [k2 Hk2].
  rewrite Hk2, Hk1 in Hs. rewrite !Forall_app in Hs. tauto.
Qed.

(** A line without line feed, followed or not by its terminator, is what
    [strip("\n")] gives back. *)
Lemma py_strip_nl_line (body eol : ustr) :
  LF ∉ body → eol = [] ∨ eol = [LF] → py_strip_nl (body ++ eol) = body.
Proof.
  intros Hbody Heol. unfold py_strip_nl, strip_by.
  assert (Hnl : ∀ c, c ∈ body → (c =? LF) = false).
  { intros c Hc. apply Z.eqb_neq. intros ->. done. }
  destruct body as [|c body].
  - by destruct Heol as [Heol | Heol]; rewrite Heol.
  - simpl. rewrite (Hnl c) by (by left).
    change (c :: body ++ eol) with ((c :: body) ++ eol).
    destruct (exists_last (l := c :: body)) as (b & x & Hbx); [done|].
    rewrite Hbx in Hnl |- *. rewrite <- app_assoc. simpl.
    rewrite rstrip_by_app_keep by (apply Hnl, elem_of_app; right; by left).
    f_equal. f_equal. by destruct Heol as [Heol | Heol]; rewrite Heol.
Qed.

(** ** Matching *)

(** What a successful [X+] consumed: a non-empty run of [X], and the
    continuation succeeded on it. *)
Lemma re_plus_from_Some {A} p (acc s : ustr) (k : ustr → ustr → option A) r :
  re_plus_from p acc s k = Some r →
  ∃ m rest, s = m ++ rest ∧ m ≠ [] ∧ Forall (λ c, p c = true) m
            ∧ k (reverse acc ++ m) rest = Some r.
Proof.
  revert acc. induction s as [|c s IH]; intros acc Hr; simpl in Hr; [done|].
  destruct (p c) eqn:Hc; [|done].
  destruct (re_plus_from p (c :: acc) s k) as [r'|] eqn:Hrec.
  - injection Hr as ->. apply IH in Hrec as (m & rest & -> & _ & Hm & Hk).
    exists (c :: m), rest. split_and!; [done|done|by constructor|].
    by rewrite reverse_cons, <- app_assoc in Hk.
  - exists [c], s. split_and!; [done|done|by repeat constructor|].
    by rewrite reverse_cons in Hr.
Qed.

Lemma re_plus_Some {A} p (s : ustr) (k : ustr → ustr → option A) r :
  re_plus p s k = Some r →
  ∃ m rest, s = m ++ rest ∧ m ≠ [] ∧ Forall (λ c, p c = true) m
            ∧ k m rest = Some r.
Proof. apply re_plus_from_Some. Qed.


(** A string that [HOST_LINE_RE] matches: the four letters of the keyword,
    then whitespace. *)
Lemma host_line_match_Some (line patterns : ustr) :
  host_line_match line = Some patterns →
  ∃ c1 c2 c3 c4 w rest,
    line = c1 :: c2 :: c3 :: c4 :: w :: rest
    ∧ (c1 = 104 ∨ c1 = 72) ∧ (c2 = 111 ∨ c2 = 79)
    ∧ (c3 = 115 ∨ c3 = 83 ∨ c3 = 0x17F) ∧ (c4 = 116 ∨ c4 = 84)
    ∧ py_isspace w = true.
Proof.
  unfold host_line_match. destruct (re_chars host_keyword line) as [r|] eqn:Hkw; [|done].
  intros Hm. apply re_plus_Some in Hm as (m & rest & -> & Hne & Hsp & _).
  destruct line as [|c1 [|c2 [|c3 [|c4 tl]]]]; simpl in Hkw; try done;
    repeat (match type of Hkw with
            | (if ?b then _ else _) = _ => destruct b eqn:?; [|done]
            end); try done.
  injection Hkw as ->.
  destruct m as [|w m]; [done|]. apply Forall_cons in Hsp as [Hw _].
  exists c1, c2, c3, c4, w, (m ++ rest). split_and!; [done|lia..|done].
Qed.

(** A line that starts with whitespace is no [Host] line. *)
Lemma host_line_match_space (c : Z) (s : ustr) :
  py_isspace c = true → host_line_match (c :: s) = None.
Proof.
  intros Hc. unfold host_line_match. simpl.
  replace ((c =? 104) || (c =? 72)) with false; [done|].
  unfold py_isspace in Hc. lia.
Qed.

(** A string that [KV_RE] matches: the key is a run of word characters
    at its start, followed by whitespace. *)
Lemma kv_match_Some `{UnicodeData} (s key value : ustr) :
  kv_match s = Some (key, value) →
  ∃ w rest, s = key ++ w :: rest ∧ key ≠ []
            ∧ Forall (λ c, re_word c = true) key ∧ py_isspace w = true.
Proof.
  unfold kv_match. intros Hm.
  apply re_plus_Some in Hm as (m & r & -> & Hne & Hword & Hm).
  apply re_plus_Some in Hm as (sp & r2 & -> & Hsp_ne & Hsp & Hm).
  apply re_plus_Some in Hm as (v & r3 & -> & _ & _ & Hm).
  destruct (re_at_end r3); [|done]. injection Hm as -> ->.
  destruct sp as [|w sp]; [done|]. apply Forall_cons in Hsp as [Hw _].
  by exists w, (sp ++ value ++ r3).
Qed.

(** ** The parser on ASCII text

    On a text of the ASCII range the parser reads the tables below 128
    only, where they are fixed: whatever the Unicode tables are, the result
    is the one computed with [ascii_tables]. *)







(** ** [flush] *)

Lemma is_wildcard_false (hn : ustr) :
  is_wildcard hn = false ↔ (42 ∉ hn) ∧ (63 ∉ hn).
Proof.
  assert (Hin : ∀ ch, py_contains hn ch = true ↔ ch ∈ hn).
  { intros ch. unfold py_contains. rewrite existsb_exists. split.
    - intros (x & Hx & Heq). apply Z.eqb_eq in Heq as ->.
      by apply list_elem_of_In.
    - intros Hch. exists ch. split; [by apply list_elem_of_In|lia]. }
  unfold is_wildcard. simpl. rewrite orb_false_r, orb_false_iff.
  rewrite <- !Hin. by rewrite !not_true_iff_false.
Qed.

Lemma flush_loop (block : gmap ustr ustr) (names : list ustr) (hs : list SshHost) :
  fold_left
    (λ hs hn, if is_wildcard hn then hs else hs ++ [host_of_block block hn])
    names hs
  = hs ++ map (host_of_block block)
            (filter (λ hn, is_wildcard hn = false) names).
Proof.
  revert hs. induction names as [|hn names IH]; intros hs; simpl.
  - by rewrite app_nil_r.
  - rewrite IH, filter_cons. destruct (is_wildcard hn) eqn:Hw.
    + by rewrite decide_False by done.
    + rewrite decide_True by done. simpl. by rewrite <- app_assoc.
Qed.

Lemma flush_hosts (st : parser) :
  hosts (flush st)
  = hosts st
    ++ map (host_of_block (current_block st))
         (filter (λ hn, is_wildcard hn = false) (current_names st)).
Proof.
  unfold flush. destruct (current_names st) as [|hn names] eqn:Hnames.
  - by rewrite filter_nil, app_nil_r.
  - cbn [hosts]. by rewrite flush_loop.
Qed.

(** The mapping is reset by a [flush] that has names only: a directive read
    before the first [Host] line is stored, and is emitted with the first
    block. *)
Example directive_before_first_host :
  parse_ssh_config (H := ascii_tables) (u "User zed
Host a")
  = [ {| name := u "a"; hostname := None; user := Some (u "zed");
         port := None; identity_file := None |} ].
Proof. by vm_compute. Qed.

(** ** The names that the parser emits *)

Lemma split_from_nonempty (tok s : ustr) :
  Forall (λ t, t ≠ []) (split_from tok s).
Proof.
  assert (Hrev : ∀ c (l : ustr), reverse (c :: l) ≠ []).
  { intros c l Heq. apply (f_equal length) in Heq.
    by rewrite length_reverse in Heq. }
  revert tok. induction s as [|c s IH]; intros tok; cbn [split_from].
  - destruct tok; [constructor|]. constructor; [apply Hrev|constructor].
  - destruct (py_isspace c); [|apply IH].
    destruct tok; [apply IH|]. constructor; [apply Hrev|apply IH].
Qed.

(** The names of the hosts emitted are tokens of the [Host] lines: what
    holds of every token of every line that [HOST_LINE_RE] matches holds of
    every name emitted. *)
Lemma parse_names_from_host_lines `{UnicodeData} (Q : ustr → Prop)
    (lines : list ustr) :
  (∀ raw patterns t,
     raw ∈ lines → host_line_match (py_strip_nl raw) = Some patterns →
     t ∈ py_split patterns → Q t) →
  Forall (λ h, Q (name h)) (parse_lines lines).
Proof.
  intros HQ.
  set (Inv := λ st : parser,
         Forall Q (current_names st) ∧ Forall (λ h, Q (name h)) (hosts st)).
  assert (Hflush : ∀ st, Inv st → Forall (λ h, Q (name h)) (hosts (flush st))).
  { intros st [Hn Hh]. rewrite flush_hosts. apply Forall_app. split; [done|].
    apply Forall_forall. intros h (hn & <- & Hhn)%list_elem_of_In%in_map_iff.
    apply list_elem_of_In, list_elem_of_filter in Hhn as [_ Hhn].
    rewrite Forall_forall in Hn. by apply Hn. }
  assert (Hline : ∀ st raw, raw ∈ lines → Inv st → Inv (parse_line st raw)).
  { intros st raw Hraw Hst. unfold parse_line.
    destruct (negb _ || _); [done|].
    destruct (host_line_match _) as [patterns|] eqn:Hm.
    - split; [|by apply Hflush]. apply Forall_forall. intros t Ht.
      by apply (HQ raw patterns).
    - destruct (kv_match _) as [[key value]|]; [|done].
      by destruct (bool_decide _). }
  unfold parse_lines. apply Hflush.
  assert (Hinit : Inv parser_init) by (by split).
  assert (Hsub : ∀ raw, raw ∈ lines → raw ∈ lines) by done.
  revert Hinit Hsub. generalize parser_init. generalize lines at 1 3.
  intros ls. induction ls as [|raw ls IH]; intros st Hst Hsub; [done|].
  simpl. apply IH; [|intros; apply Hsub; by right].
  apply Hline; [apply Hsub; by left|done].
Qed.

(** Every host that [parse_ssh_config] emits has a non-empty name. *)
Lemma parse_names_nonempty `{UnicodeData} (text : ustr) :
  Forall (λ h, name h ≠ []) (parse_ssh_config text).
Proof.
  unfold parse_ssh_config.
  apply (parse_names_from_host_lines (λ t, t ≠ [])). intros raw patterns t _ _ Ht.
  pose proof (split_from_nonempty [] patterns) as Hne.
  rewrite Forall_forall in Hne. by apply Hne.
Qed.

(** ** Indented [Host] lines *)

(** The lines that the file iterator yields: no line feed but, possibly, a
    final one. *)
Lemma readlines_from_shape (s cur : ustr) :
  LF ∉ cur →
  Forall (λ raw, ∃ body eol,
            raw = body ++ eol ∧ (LF ∉ body) ∧ (eol = [] ∨ eol = [LF]))
    (readlines_from cur s).
Proof.
  remember (length s) as n eqn:Hn. revert s cur Hn.
  induction n as [n IH] using lt_wf_ind. intros s cur -> Hcur.
  assert (Hrev : ∀ l : ustr, LF ∉ l → LF ∉ reverse l).
  { intros l Hl. by rewrite elem_of_reverse. }
  destruct s as [|c s]; simpl.
  - destruct cur; repeat constructor.
    eexists (reverse (_ :: _)), []. rewrite app_nil_r. eauto.
  - destruct (c =? LF) eqn:Hc; [|destruct (c =? CR) eqn:Hcr].
    + constructor; [|by eapply IH; [|done|]; simpl; [lia|apply not_elem_of_nil]].
      exists (reverse cur), [LF]. rewrite reverse_cons. eauto.
    + constructor.
      * exists (reverse cur), [LF]. rewrite reverse_cons. eauto.
      * destruct s as [|c2 s]; [constructor|].
        destruct (c2 =? LF);
          (eapply IH; [|done|]; simpl; [lia|apply not_elem_of_nil]).
    + eapply IH; [|done|]; simpl; [lia|].
      apply Z.eqb_neq in Hc. rewrite elem_of_cons. by intros [? | ?].
Qed.

Lemma readlines_shape (text : ustr) :
  Forall (λ raw, ∃ body eol,
            raw = body ++ eol ∧ (LF ∉ body) ∧ (eol = [] ∨ eol = [LF]))
    (readlines text).
Proof. apply readlines_from_shape, not_elem_of_nil. Qed.

(** The letters that [Host] matches lower to no supported key. *)
Lemma host_keyword_not_supported `{UnicodeData} (c1 c2 c3 c4 : Z) :
  c1 = 104 ∨ c1 = 72 → c2 = 111 ∨ c2 = 79 →
  c3 = 115 ∨ c3 = 83 ∨ c3 = 0x17F → c4 = 116 ∨ c4 = 84 →
  bool_decide (py_lower [c1; c2; c3; c4] ∈ SUPPORTED_KEYS) = false.
Proof.
  intros H1 H2 H3 H4. unfold py_lower.
  destruct H1 as [-> | ->], H2 as [-> | ->], H3 as [-> | [-> | ->]],
    H4 as [-> | ->]; simpl;
    rewrite ?uni_tolower_long_s, ?uni_tolower_ascii by lia;
    by vm_compute.
Qed.

(** What [strip] leaves of an indented [Host] line: the keyword, and
    nothing or the whitespace that follows it. *)
Lemma py_strip_indented_host (ws rest : ustr) (c1 c2 c3 c4 w : Z) :
  Forall (λ c, py_isspace c = true) ws →
  c1 = 104 ∨ c1 = 72 → c4 = 116 ∨ c4 = 84 →
  ∃ tl, py_strip (ws ++ c1 :: c2 :: c3 :: c4 :: w :: rest)
        = c1 :: c2 :: c3 :: c4 :: tl
        ∧ (tl = [] ∨ ∃ tl', tl = w :: tl').
Proof.
  intros Hws H1 H4. unfold py_strip, strip_by.
  rewrite lstrip_by_app_all by done.
  assert (py_isspace c1 = false) as Hc1 by (by destruct H1 as [-> | ->]).
  assert (py_isspace c4 = false) as Hc4 by (by destruct H4 as [-> | ->]).
  simpl. rewrite Hc1.
  change (c1 :: c2 :: c3 :: c4 :: w :: rest)
    with ([c1; c2; c3] ++ c4 :: w :: rest).
  rewrite rstrip_by_app_keep by done. eexists. split; [done|].
  destruct (rstrip_by_prefix py_isspace (w :: rest)) as [k Hk].
  destruct (rstrip_by py_isspace (w :: rest)) as [|w' tl']; [by left|].
  right. exists tl'. by injection Hk as ->.
Qed.

(** One turn of the loop on an indented [Host] line changes nothing. *)
Lemma parse_line_indented_host `{UnicodeData} (st : parser) (ws L eol : ustr) :
  ws ≠ [] → Forall (λ c, py_isspace c = true) ws →
  is_Some (host_line_match L) →
  (LF ∉ ws ++ L) → eol = [] ∨ eol = [LF] →
  host_line_match (py_strip_nl (ws ++ L ++ eol)) = None
  ∧ parse_line st (ws ++ L ++ eol) = st.
Proof.
  intros Hne Hws [patterns HL] Hnl Heol.
  assert (Hline : py_strip_nl (ws ++ L ++ eol) = ws ++ L)
    by (rewrite app_assoc; by apply py_strip_nl_line).
  assert (Hno : host_line_match (ws ++ L) = None).
  { destruct Hws as [|c ws Hc _]; [done|]. by apply host_line_match_space. }
  split; [by rewrite Hline|].
  unfold parse_line. rewrite Hline, Hno.
  destruct (negb _ || _); [done|].
  apply host_line_match_Some in HL
    as (c1 & c2 & c3 & c4 & w & rest & -> & H1 & H2 & H3 & H4 & Hw).
  destruct (py_strip_indented_host ws rest c1 c2 c3 c4 w Hws H1 H4)
    as (tl & -> & Htl).
  destruct (kv_match _) as [[key value]|] eqn:Hkv; [|done].
  apply kv_match_Some in Hkv as (w' & rest' & Hs & Hkne & Hkey & Hw').
  assert (Hnsp : ∀ c, re_word c = true → py_isspace c = true → False).
  { intros c Hc Hsp. unfold re_word in Hc.
    rewrite (uni_isalnum_space c Hsp) in Hc. unfold py_isspace in Hsp. lia. }
  assert (key = [c1; c2; c3; c4]) as ->.
  { destruct key as [|k1 [|k2 [|k3 [|k4 [|k5 key]]]]]; simplify_eq/=.
    - destruct H2 as [-> | ->]; done.
    - destruct H3 as [-> | [-> | ->]]; done.
    - destruct H4 as [-> | ->]; done.
    - done.
    - exfalso.
      assert (k5 = w) as -> by (destruct Htl as [? | [? ?]]; by simplify_eq).
      apply (Hnsp w); [|done].
      by do 4 apply Forall_cons in Hkey as [_ Hkey];
        apply Forall_cons in Hkey as [Hkey _]. }
  by rewrite host_keyword_not_supported.
Qed.

(** C10: a [Host] line after leading whitespace is no start of a block
    ([HOST_LINE_RE] is matched at the start of the unstripped line) and,
    its key [host] being no supported key, it changes nothing of the state
    of the parser: a file parses to the same hosts with and without the
    line, and the name of every host emitted is a token of another line,
    one that [HOST_LINE_RE] matches. So the names that only occur on such
    lines are never emitted. *)
Theorem indented_host_line_ignored `{UnicodeData}
    (pre post : list ustr) (ws L eol : ustr) :
  ws ≠ [] → Forall (λ c, py_isspace c = true) ws →
  is_Some (host_line_match L) →
  (LF ∉ ws ++ L) → eol = [] ∨ eol = [LF] →
  host_line_match (py_strip_nl (ws ++ L ++ eol)) = None
  ∧ (∀ st, parse_line st (ws ++ L ++ eol) = st)
  ∧ parse_lines (pre ++ (ws ++ L ++ eol) :: post) = parse_lines (pre ++ post)
  ∧ Forall (λ h, ∃ raw patterns,
              raw ∈ pre ++ post
              ∧ host_line_match (py_strip_nl raw) = Some patterns
              ∧ name h ∈ py_split patterns)
      (parse_lines (pre ++ (ws ++ L ++ eol) :: post)).
Proof.
  intros Hne Hws HL Hnl Heol.
  assert (Hstep : ∀ st, parse_line st (ws ++ L ++ eol) = st)
    by (intros st; by apply parse_line_indented_host).
  assert (Hsame : parse_lines (pre ++ (ws ++ L ++ eol) :: post)
                  = parse_lines (pre ++ post)).
  { unfold parse_lines. rewrite !fold_left_app. simpl. by rewrite Hstep. }
  split_and!; [by apply (parse_line_indented_host parser_init)|done..|].
  rewrite Hsame.
  apply (parse_names_from_host_lines
           (λ t, ∃ raw patterns,
              raw ∈ pre ++ post
              ∧ host_line_match (py_strip_nl raw) = Some patterns
              ∧ t ∈ py_split patterns)).
  eauto.
Qed.

Lemma indented_host_line_ignored_witness :
  let ws := u "    " in
  let L := u "Host inner" in
  let pre := [u "Host outer" ++ [LF]; u "  User bob" ++ [LF]] in
  let post := [u "  Port 2222"] in
  host_line_match (py_strip_nl (ws ++ L ++ [LF])) = None
  ∧ (∀ st, parse_line (H := ascii_tables) st (ws ++ L ++ [LF]) = st)
  ∧ parse_lines (H := ascii_tables) (pre ++ (ws ++ L ++ [LF]) :: post)
    = parse_lines (H := ascii_tables) (pre ++ post)
  ∧ Forall (λ h, ∃ raw patterns,
              raw ∈ pre ++ post
              ∧ host_line_match (py_strip_nl raw) = Some patterns
              ∧ name h ∈ py_split patterns)
      (parse_lines (H := ascii_tables) (pre ++ (ws ++ L ++ [LF]) :: post)).
Proof.
  intros ws L pre post.
  apply (indented_host_line_ignored (H := ascii_tables) pre post ws L [LF]).
  - done.
  - by repeat constructor.
  - by eexists.
  - apply (bool_decide_eq_true_1 _). by vm_compute.
  - by right.
Defined.

(** The lines of a text that continues after a complete line. *)
Lemma readlines_from_app (t1 rest cur : ustr) :
  (t1 = [] ∧ cur = []) ∨ (∃ x, t1 = x ++ [LF]) →
  readlines_from cur (t1 ++ rest)
  = readlines_from cur t1 ++ readlines_from [] rest.
Proof.
  remember (length t1) as n eqn:Hn. revert t1 cur Hn.
  induction n as [n IH] using lt_wf_ind. intros t1 cur -> Hend.
  assert (Htail : ∀ c (t : ustr),
            (∃ x, c :: t = x ++ [LF]) → t = [] ∨ ∃ x, t = x ++ [LF]).
  { intros c t [[|c' x] Hx]; simplify_eq/=; [by left|right; by exists x]. }
  assert (Hrec : ∀ (t : ustr) cur',
            (length t < length t1)%nat →
            (t = [] ∧ cur' = []) ∨ (∃ x, t = x ++ [LF]) →
            readlines_from cur' (t ++ rest)
            = readlines_from cur' t ++ readlines_from [] rest).
  { intros t cur' Hlt Ht. by apply (IH (length t) Hlt t cur'). }
  clear IH.
  destruct t1 as [|c t1]; [by destruct Hend as [[_ ->] | [[|? ?] ?]]|].
  destruct Hend as [[? _] | Hend]; [done|].
  pose proof (Htail _ _ Hend) as Ht1. simpl in Hrec |- *.
  destruct (c =? LF) eqn:Hc; [|destruct (c =? CR) eqn:Hcr].
  - cbn [app]. f_equal. apply Hrec; [lia|].
    destruct Ht1 as [-> | ?]; [by left|by right].
  - cbn [app]. f_equal. destruct t1 as [|c2 t1].
    + by destruct Hend as [[|? [|? ?]] Hx]; simplify_eq/=.
    + destruct Ht1 as [? | Ht1]; [done|]. simpl.
      destruct (c2 =? LF).
      * apply Hrec; [simpl; lia|].
        destruct (Htail _ _ Ht1) as [-> | ?]; [by left|by right].
      * apply (Hrec (c2 :: t1)); [simpl; lia|by right].
  - apply Hrec; [lia|].
    destruct Ht1 as [-> | ?]; [|by right].
    by destruct Hend as [[|? [|? ?]] Hx]; simplify_eq/=.
Qed.

Lemma readlines_from_line (body cur : ustr) :
  (LF ∉ body) → (CR ∉ body) →
  readlines_from cur (body ++ [LF]) = [reverse cur ++ body ++ [LF]].
Proof.
  revert cur. induction body as [|c body IH]; intros cur Hlf Hcr; simpl.
  - by rewrite reverse_cons.
  - apply not_elem_of_cons in Hlf as [Hc1 Hlf].
    apply not_elem_of_cons in Hcr as [Hc2 Hcr].
    replace (c =? LF) with false by lia. replace (c =? CR) with false by lia.
    rewrite IH by done. by rewrite reverse_cons, <- app_assoc.
Qed.

(** In a file: the text parses to the same hosts with and without an
    indented [Host] line. *)
Corollary indented_host_line_in_file `{UnicodeData} (t1 t2 ws L : ustr) :
  t1 = [] ∨ (∃ x, t1 = x ++ [LF]) →
  ws ≠ [] → Forall (λ c, py_isspace c = true) ws →
  is_Some (host_line_match L) →
  (LF ∉ ws ++ L) → (CR ∉ ws ++ L) →
  parse_ssh_config (t1 ++ (ws ++ L ++ [LF]) ++ t2) = parse_ssh_config (t1 ++ t2).
Proof.
  intros Ht1 Hne Hws HL Hlf Hcr.
  assert (Hend : (t1 = [] ∧ @nil Z = []) ∨ (∃ x, t1 = x ++ [LF]))
    by (destruct Ht1; [by left|by right]).
  unfold parse_ssh_config, readlines.
  rewrite (readlines_from_app t1 ((ws ++ L ++ [LF]) ++ t2) []) by done.
  rewrite (readlines_from_app t1 t2 []) by done.
  replace (ws ++ L ++ [LF]) with ((ws ++ L) ++ [LF]) by (by rewrite <- app_assoc).
  rewrite (readlines_from_app ((ws ++ L) ++ [LF]) t2 [])
    by (right; by eexists).
  rewrite readlines_from_line by done. simpl.
  unfold parse_lines. rewrite !fold_left_app. simpl.
  rewrite <- app_assoc.
  by rewrite (proj2 (parse_line_indented_host _ ws L [LF] Hne Hws HL Hlf
                       (or_intror eq_refl))).
Qed.

(** ** The driver without action *)

(** C8: with neither [--add] nor [--remove], [main] logs the error
    "No action specified. Use --add and/or --remove." and returns 2, which
    is not the status 0 of a completed run; the file system is the one it
    started with, nothing having been loaded, reconciled or saved. *)
Theorem main_no_action `{UnicodeData} `{System} (args : Args) (w : world) :
  add args = false → remove args = false →
  main args w = (mkWorld (fs w) (log w ++ [ErrNoAction]), Returned 2)
  ∧ 2 ≠ 0
  ∧ error_text ErrNoAction
    = Some (u "No action specified. Use --add and/or --remove.").
Proof.
  intros Hadd Hremove. split; [|done].
  unfold main. by rewrite Hadd, Hremove.
Qed.

Lemma main_no_action_witness :
  let args := mkArgs false (u "/home/me/.ssh") false None false false [] in
  let w := @mkWorld memory_system ∅ [] in
  add args = false ∧ remove args = false
  ∧ main (H := ascii_tables) (H0 := memory_system) args w
    = (mkWorld (fs w) (log w ++ [ErrNoAction]), Returned 2).
Proof.
  cbv zeta. split; [reflexivity|]. split; [reflexivity|].
  apply (main_no_action (H := ascii_tables) (H0 := memory_system));
    reflexivity.
Defined.

(** A run that goes past the test of the flags and returns, returns 0. *)
Lemma main_action_status `{UnicodeData} `{System} (args : Args) (w w' : world) c :
  add args = true ∨ remove args = true →
  main args w = (w', Returned c) → c = 0.
Proof.
  intros Hact. unfold main.
  replace (negb (add args) && negb (remove args)) with false
    by (destruct Hact as [-> | ->]; by rewrite ?andb_false_r).
  unfold mbind, M_bind, bind, mret, M_ret, ret.
  repeat (match goal with
          | |- context [match ?m ?x with (_, _) => _ end] =>
              destruct (m x) as [? [?|?]]
          end; try done).
  by intros [= _ <-].
Qed.

(** ** The index [by_name] *)

(** One turn of the comprehension, read through [str_name]. *)
Lemma index_names_cons (i : nat) (p : json) (ps : list json)
    (acc : gmap ustr nat) :
  index_names i (p :: ps) acc
  = if unhashable_name p then Raised TypeError
    else index_names (S i) ps
           match str_name p with Some s => <[s := i]> acc | None => acc end.
Proof.
  unfold unhashable_name, str_name. simpl.
  destruct p as [| | | | |l|d]; try reflexivity. simpl.
  destruct (py_get d (u "name")) as [|[]|z|[]|[|c s]|[|x l]|[|x d']];
    simpl; try reflexivity.
  by destruct (z =? 0).
Qed.

Lemma index_names_spec (ps : list json) :
  ∀ i acc by_name, index_names i ps acc = Returned by_name →
  ∀ s, (∃ j, by_name !! s = Some (i + j)%nat ∧ last_named ps s j)
       ∨ (by_name !! s = acc !! s ∧ unnamed ps s).
Proof.
  induction ps as [|p ps IH]; intros i acc by_name Hidx s.
  - injection Hidx as <-. by right.
  - rewrite index_names_cons in Hidx.
    destruct (unhashable_name p); [done|].
    destruct (IH _ _ _ Hidx s) as [(j & Hj & [(q & Hq & Hqs) Hlast]) | [Hs Hun]].
    + left. exists (S j). split; [by rewrite Hj; f_equal; lia|].
      split; [by exists q|].
      intros [|j'] p' Hlt Hp'; [lia|]. apply (Hlast j'); [lia|done].
    + destruct (decide (str_name p = Some s)) as [Hp | Hp].
      * left. exists 0%nat. rewrite Hs, Hp, lookup_insert_eq.
        split; [f_equal; lia|]. split; [by exists p|].
        intros [|j'] p' Hlt Hp'; [lia|]. by apply (Hun j').
      * right. split.
        -- rewrite Hs. destruct (str_name p) as [s'|]; [|done].
           rewrite lookup_insert_ne; [done|congruence].
        -- intros [|j'] p' Hp'; [by injection Hp' as <-|]. by apply (Hun j').
Qed.

Lemma index_names_indexes (l : list json) (by_name : gmap ustr nat) :
  index_names 0 l ∅ = Returned by_name → indexes by_name l.
Proof.
  intros Hidx s.
  destruct (index_names_spec _ _ _ _ Hidx s) as [(j & -> & Hj) | [-> Hun]];
    [done|by rewrite lookup_empty].
Qed.

(** The comprehension returns when no name is an unhashable truthy value. *)
Lemma index_names_returns (ps : list json) :
  Forall (λ p, unhashable_name p = false) ps →
  ∀ i acc, ∃ by_name, index_names i ps acc = Returned by_name.
Proof.
  induction 1 as [|p ps Hp _ IH]; intros i acc; [by eexists|].
  rewrite index_names_cons, Hp. apply IH.
Qed.

Lemma index_names_raises (ps : list json) :
  ∀ i acc e, index_names i ps acc = Raised e →
  e = TypeError ∧ Exists (λ p, unhashable_name p = true) ps.
Proof.
  induction ps as [|p ps IH]; intros i acc e Hidx; [done|].
  rewrite index_names_cons in Hidx.
  destruct (unhashable_name p) eqn:Hp.
  - injection Hidx as <-. split; [done|by left].
  - apply IH in Hidx as [-> Hex]. split; [done|by right].
Qed.

Lemma indexes_lt (by_name : gmap ustr nat) (l : list json) s i :
  indexes by_name l → by_name !! s = Some i → (i < length l)%nat.
Proof.
  intros Hbn Hs. specialize (Hbn s). rewrite Hs in Hbn.
  destruct Hbn as [(p & Hp & _) _]. by eapply lookup_lt_Some.
Qed.

Lemma indexes_inj (by_name : gmap ustr nat) (l : list json) s s' i :
  indexes by_name l → by_name !! s = Some i → by_name !! s' = Some i → s = s'.
Proof.
  intros Hbn Hs Hs'. pose proof (Hbn s) as H1. pose proof (Hbn s') as H2.
  rewrite Hs in H1. rewrite Hs' in H2.
  destruct H1 as [(p & Hp & Hps) _], H2 as [(p' & Hp' & Hps') _]. congruence.
Qed.

(** An index is determined by the names of the entries. *)
Lemma indexes_unique (bn bn' : gmap ustr nat) (l : list json) :
  indexes bn l → indexes bn' l → bn = bn'.
Proof.
  intros Hbn Hbn'. apply map_eq. intros s.
  specialize (Hbn s). specialize (Hbn' s).
  destruct (bn !! s) as [i|] eqn:Hi, (bn' !! s) as [i'|] eqn:Hi'; [|exfalso..|done].
  - destruct Hbn as [(p & Hp & Hps) Hlast], Hbn' as [(p' & Hp' & Hps') Hlast'].
    f_equal. destruct (lt_eq_lt_dec i i') as [[Hlt | ->] | Hlt]; [|done|].
    + by destruct (Hlast i' p').
    + by destruct (Hlast' i p).
  - destruct Hbn as [(p & Hp & Hps) _]. by destruct (Hbn' i p).
  - destruct Hbn' as [(p & Hp & Hps) _]. by destruct (Hbn i' p).
Qed.

Local Open Scope nat_scope.

Lemma str_key_Some (n : json) (s : ustr) :
  str_key n = Some s ↔ n = JStr s ∧ s ≠ [].
Proof.
  destruct n as [| | | |[|c s']| |]; simpl; split;
    try (intros [? ?]); try intros ?; simplify_eq; done.
Qed.

Lemma str_name_Some (p : json) (s : ustr) :
  str_name p = Some s ↔ get_name p = JStr s ∧ s ≠ [].
Proof. apply str_key_Some. Qed.

(** The index reads the names of the entries only. *)
Lemma indexes_names (bn : gmap ustr nat) (l l' : list json) :
  get_name <$> l = get_name <$> l' → indexes bn l → indexes bn l'.
Proof.
  intros Hnames Hbn s.
  assert (Hlk : ∀ j p', l' !! j = Some p' →
                 ∃ p, l !! j = Some p ∧ str_name p = str_name p').
  { intros j p' Hp'.
    assert (Hn : (get_name <$> l) !! j = Some (get_name p'))
      by (by rewrite Hnames, list_lookup_fmap, Hp').
    rewrite list_lookup_fmap in Hn.
    destruct (l !! j) as [p|]; [|done]. injection Hn as Hn.
    exists p. split; [done|]. unfold str_name. by rewrite Hn. }
  specialize (Hbn s). destruct (bn !! s) as [i|].
  - destruct Hbn as [(p & Hp & Hps) Hlast]. split.
    + assert (Hn : (get_name <$> l') !! i = Some (get_name p))
        by (by rewrite <- Hnames, list_lookup_fmap, Hp).
      rewrite list_lookup_fmap in Hn.
      destruct (l' !! i) as [p'|]; [|done]. injection Hn as Hn.
      exists p'. split; [done|]. unfold str_name in *. by rewrite Hn.
    + intros j p' Hlt Hp'. destruct (Hlk j p' Hp') as (p0 & Hp0 & <-).
      by apply (Hlast j).
  - intros j p' Hp'. destruct (Hlk j p' Hp') as (p0 & Hp0 & <-).
    by apply (Hbn j).
Qed.

(** ** The loop of [upsert_profiles] *)

Lemma host_ok_iff (h : SshHost) :
  host_ok h ↔ ∃ p, make_profile h = Returned p.
Proof.
  unfold host_ok, the_profile. split; [by eexists|].
  intros [p Hp]. by rewrite Hp.
Qed.

Lemma the_profile_fields (h : SshHost) :
  host_ok h →
  ∃ g, guid h = Returned g
       ∧ the_profile h
         = JObj [(u "name", JStr (name h));
                 (u "commandline", JStr (commandline h));
                 (u "guid", JStr (u "{" ++ g ++ u "}"));
                 (u "hidden", JBool false)].
Proof.
  unfold host_ok, the_profile, make_profile.
  destruct (guid h) as [g|e]; [|done]. intros _. by exists g.
Qed.

Lemma get_name_the_profile (h : SshHost) :
  host_ok h → get_name (the_profile h) = JStr (name h).
Proof. intros (g & _ & ->)%the_profile_fields. reflexivity. Qed.

Lemma overwrite_length bn hs (l : list json) :
  length (overwrite bn hs l) = length l.
Proof.
  revert l. induction hs as [|h hs IH]; intros l; [done|].
  unfold overwrite in *. simpl. rewrite IH.
  destruct (bn !! name h); [apply length_insert|done].
Qed.

Lemma overwrite_app_r bn hs (l k : list json) :
  (∀ s i, bn !! s = Some i → i < length l) →
  overwrite bn hs (l ++ k) = overwrite bn hs l ++ k.
Proof.
  revert l. induction hs as [|h hs IH]; intros l Hlt; [done|].
  unfold overwrite in *. simpl.
  destruct (bn !! name h) as [i|] eqn:Hi; [|by apply IH].
  rewrite insert_app_l by eauto. apply IH.
  intros s j Hj. rewrite length_insert. eauto.
Qed.

Lemma overwrite_cons bn hs h (l : list json) :
  overwrite bn (h :: hs) l
  = overwrite bn hs
      match bn !! name h with
      | Some i => <[i := the_profile h]> l
      | None => l
      end.
Proof. reflexivity. Qed.

(** The loop returns when every identifier can be computed; it then has
    written over the indexed entries and appended the other hosts. *)
Lemma upsert_loop_ok bn hs (l : list json) :
  (∀ s i, bn !! s = Some i → i < length l) →
  Forall host_ok hs →
  upsert_loop bn hs l
  = (overwrite bn hs l ++ (the_profile <$> appended bn hs), Returned tt).
Proof.
  intros Hlt Hok. revert l Hlt.
  induction Hok as [|h hs Hh _ IH]; intros l Hlt.
  - simpl. by rewrite app_nil_r.
  - cbn [upsert_loop]. rewrite Hh, overwrite_cons.
    unfold appended. rewrite filter_cons.
    destruct (bn !! name h) as [i|] eqn:Hi.
    + rewrite decide_False by done.
      rewrite bool_decide_eq_true_2 by eauto. rewrite IH; [done|].
      intros s j Hj. rewrite length_insert. eauto.
    + rewrite decide_True by done. rewrite IH.
      * rewrite overwrite_app_r by done. by rewrite <- app_assoc.
      * intros s j Hj. rewrite length_app. apply Hlt in Hj. lia.
Qed.

Lemma upsert_loop_returned bn hs (l l' : list json) :
  upsert_loop bn hs l = (l', Returned tt) → Forall host_ok hs.
Proof.
  revert l. induction hs as [|h hs IH]; intros l Hloop; [done|].
  simpl in Hloop. destruct (make_profile h) as [p|e] eqn:Hp; [|done].
  constructor; [by apply host_ok_iff; exists p|].
  destruct (bn !! name h); [|by eapply IH].
  destruct (bool_decide _); [by eapply IH|done].
Qed.

(** With an index within the list, the loop raises at the first host whose
    identifier cannot be computed, having run on the hosts before it. *)
Lemma upsert_loop_raised bn hs (l l' : list json) e :
  (∀ s i, bn !! s = Some i → i < length l) →
  upsert_loop bn hs l = (l', Raised e) →
  ∃ hs1 h hs2, hs = hs1 ++ h :: hs2 ∧ make_profile h = Raised e
               ∧ upsert_loop bn hs1 l = (l', Returned tt).
Proof.
  revert l. induction hs as [|h hs IH]; intros l Hlt Hloop; [done|].
  simpl in Hloop. destruct (make_profile h) as [p|e'] eqn:Hp.
  - assert (∃ hs1 h' hs2, hs = hs1 ++ h' :: hs2 ∧ make_profile h' = Raised e
              ∧ upsert_loop bn hs1
                  match bn !! name h with
                  | Some i => <[i := p]> l
                  | None => l ++ [p]
                  end = (l', Returned tt))
      as (hs1 & h' & hs2 & -> & Hh' & Hloop').
    { destruct (bn !! name h) as [i|] eqn:Hi.
      - rewrite bool_decide_eq_true_2 in Hloop by eauto.
        apply IH in Hloop; [done|].
        intros s j Hj. rewrite length_insert. eauto.
      - apply IH in Hloop; [done|].
        intros s j Hj. rewrite length_app. apply Hlt in Hj. lia. }
    exists (h :: hs1), h', hs2. split_and!; [done..|].
    simpl. rewrite Hp. destruct (bn !! name h) as [i|] eqn:Hi; [|done].
    by rewrite bool_decide_eq_true_2 by eauto.
  - injection Hloop as <- <-. by exists [], h, hs.
Qed.

Lemma upsert_loop_app_raise bn hs1 h hs2 (l l' : list json) e :
  upsert_loop bn hs1 l = (l', Returned tt) → make_profile h = Raised e →
  upsert_loop bn (hs1 ++ h :: hs2) l = (l', Raised e).
Proof.
  revert l. induction hs1 as [|h1 hs1 IH]; intros l Hloop Hh; simpl in *.
  - injection Hloop as <-. by rewrite Hh.
  - destruct (make_profile h1); [|done].
    destruct (bn !! name h1); [|by apply IH].
    destruct (bool_decide _); [by apply IH|done].
Qed.

(** What [upsert_profiles] leaves when it returns. *)
Lemma upsert_profiles_returned (P P' : list json) (H : list SshHost) :
  upsert_profiles P H = (P', Returned tt) →
  ∃ bn, index_names 0 P ∅ = Returned bn ∧ indexes bn P ∧ Forall host_ok H
        ∧ P' = overwrite bn H P ++ (the_profile <$> appended bn H).
Proof.
  unfold upsert_profiles. destruct (index_names 0 P ∅) as [bn|e] eqn:Hidx; [|done].
  intros Hloop. exists bn. pose proof (index_names_indexes _ _ Hidx) as Hbn.
  pose proof (upsert_loop_returned _ _ _ _ Hloop) as Hok.
  rewrite upsert_loop_ok in Hloop; [|by intros; eapply indexes_lt|done].
  by injection Hloop as <-.
Qed.

(** It returns when no name is an unhashable truthy value and every
    identifier can be computed. *)
Lemma upsert_profiles_ok (P : list json) (H : list SshHost) :
  Forall (λ p, unhashable_name p = false) P → Forall host_ok H →
  ∃ bn, indexes bn P
        ∧ upsert_profiles P H
          = (overwrite bn H P ++ (the_profile <$> appended bn H), Returned tt).
Proof.
  intros HP Hok. destruct (index_names_returns P HP 0 ∅) as [bn Hidx].
  exists bn. pose proof (index_names_indexes _ _ Hidx) as Hbn.
  split; [done|]. unfold upsert_profiles. rewrite Hidx.
  apply upsert_loop_ok; [|done]. intros. by eapply indexes_lt.
Qed.

Lemma make_profile_raises (h : SshHost) e :
  make_profile h = Raised e → e = UnicodeEncodeError.
Proof.
  unfold make_profile, guid, guid_of_name, Uuid.uuid5_str.
  destruct (Uuid.utf8_encode _); [done|]. by intros [= <-].
Qed.

(** The two ways [upsert_profiles] raises: on a name that cannot be hashed,
    before any change to the list, or on a host whose name cannot be
    encoded. The assignments are always within the list. *)
Lemma upsert_profiles_raises (P P' : list json) (H : list SshHost) e :
  upsert_profiles P H = (P', Raised e) →
  (e = TypeError ∧ P' = P ∧ Exists (λ p, unhashable_name p = true) P)
  ∨ (e = UnicodeEncodeError ∧ Exists (λ h, ¬ host_ok h) H).
Proof.
  unfold upsert_profiles.
  destruct (index_names 0 P ∅) as [bn|e'] eqn:Hidx.
  - intros (hs1 & h & hs2 & -> & Hh & _)%upsert_loop_raised;
      [|intros s i Hs; by eapply indexes_lt; [apply index_names_indexes|]].
    right. split; [by eapply make_profile_raises|].
    apply Exists_app. right. left. unfold host_ok. by rewrite Hh.
  - intros [= <- <-]. left.
    by apply index_names_raises in Hidx as [-> ?].
Qed.

Lemma overwrite_untouched bn hs (l : list json) i :
  (∀ h, h ∈ hs → bn !! name h ≠ Some i) →
  overwrite bn hs l !! i = l !! i.
Proof.
  revert l. induction hs as [|h hs IH]; intros l Hhs; [done|].
  rewrite overwrite_cons, IH by (intros; apply Hhs; by right).
  destruct (bn !! name h) as [j|] eqn:Hj; [|done].
  apply list_lookup_insert_ne. intros ->. by apply (Hhs h); [left|].
Qed.

Lemma overwrite_last bn l1 h l2 (l : list json) i :
  bn !! name h = Some i → i < length l →
  (∀ h', h' ∈ l2 → bn !! name h' ≠ Some i) →
  overwrite bn (l1 ++ h :: l2) l !! i = Some (the_profile h).
Proof.
  intros Hi Hlt Hl2. unfold overwrite. rewrite fold_left_app. simpl.
  rewrite Hi. fold (overwrite bn l1 l).
  set (q := <[i := the_profile h]> (overwrite bn l1 l)).
  fold (overwrite bn l2 q). rewrite overwrite_untouched by done.
  apply list_lookup_insert_eq. by rewrite overwrite_length.
Qed.

(** Every position of the overwritten list holds what it held, or the
    profile of the last host indexed there. *)
Lemma overwrite_lookup bn hs (l : list json) i :
  (overwrite bn hs l !! i = l !! i ∧ ∀ h, h ∈ hs → bn !! name h ≠ Some i)
  ∨ ∃ l1 h l2, hs = l1 ++ h :: l2 ∧ bn !! name h = Some i
               ∧ (∀ h', h' ∈ l2 → bn !! name h' ≠ Some i)
               ∧ (i < length l → overwrite bn hs l !! i = Some (the_profile h)).
Proof.
  destruct (list_last_such (λ h, bn !! name h = Some i) hs)
    as [Hno | (l1 & h & l2 & -> & Hh & Hl2)].
  - rewrite Forall_forall in Hno. left. split; [|done].
    by apply overwrite_untouched.
  - rewrite Forall_forall in Hl2. right. exists l1, h, l2.
    split_and!; [done..|]. intros Hlt. by apply overwrite_last.
Qed.

(** Writing over indexed entries keeps the names of the entries. *)
Lemma overwrite_names bn hs (P l : list json) :
  indexes bn P → Forall host_ok hs →
  get_name <$> l = get_name <$> P →
  get_name <$> overwrite bn hs l = get_name <$> P.
Proof.
  intros Hbn Hok. revert l. induction Hok as [|h hs Hh _ IH]; intros l Hl; [done|].
  rewrite overwrite_cons. apply IH.
  destruct (bn !! name h) as [i|] eqn:Hi; [|done].
  rewrite list_fmap_insert, Hl, get_name_the_profile by done.
  apply list_insert_id. specialize (Hbn (name h)). rewrite Hi in Hbn.
  destruct Hbn as [(p & Hp & [Hps _]%str_name_Some) _].
  by rewrite list_lookup_fmap, Hp, <- Hps.
Qed.

(** ** A matched profile is replaced wholesale *)

(** The entry a host is matched with holds, after the call, the profile of
    a host of that name. *)
Lemma upsert_matched (P P' : list json) (H : list SshHost)
    (h : SshHost) (i : nat) (p : json) :
  upsert_profiles P H = (P', Returned tt) →
  h ∈ H → name h ≠ [] →
  P !! i = Some p → get_name p = JStr (name h) →
  (∀ j q, i < j → P !! j = Some q → get_name q ≠ JStr (name h)) →
  ∃ l1 h' l2, H = l1 ++ h' :: l2 ∧ name h' = name h ∧ host_ok h'
              ∧ (∀ h2, h2 ∈ l2 → name h2 ≠ name h)
              ∧ P' !! i = Some (the_profile h').
Proof.
  intros (bn & _ & Hbn & Hok & ->)%upsert_profiles_returned Hh Hne Hi Hd Hlast.
  assert (Hlt : i < length P) by (by eapply lookup_lt_Some).
  assert (Hbi : bn !! name h = Some i).
  { pose proof (Hbn (name h)) as Hs. destruct (bn !! name h) as [i'|].
    - destruct Hs as [(p' & Hp & [Hps _]%str_name_Some) Hlast']. f_equal.
      destruct (lt_eq_lt_dec i i') as [[Hlt' | ->] | Hlt']; [|done|].
      + by destruct (Hlast i' p').
      + destruct (Hlast' i p); [done..|]. by apply str_name_Some.
    - destruct (Hs i p); [done|]. by apply str_name_Some. }
  rewrite lookup_app_l by (by rewrite overwrite_length).
  destruct (overwrite_lookup bn H P i)
    as [[_ Hno] | (l1 & h' & l2 & -> & Hh' & Hl2 & Hlk)]; [by destruct (Hno h)|].
  exists l1, h', l2. split_and!; [done| |..].
  - by eapply indexes_inj.
  - rewrite Forall_forall in Hok. apply Hok, elem_of_app. right. by left.
  - intros h2 Hh2 Heq. apply (Hl2 h2 Hh2). by rewrite Heq.
  - by apply Hlk.
Qed.

(** C9: when [upsert_profiles] returns, the entry that a host was matched
    with (the last dict of the list whose name is the one of the host) has
    been replaced by a dict of exactly four items, [name], [commandline],
    [guid] and [hidden], built from a host of that name: whatever other key
    the entry had is gone. *)
Theorem upsert_replaces_wholesale (P P' : list json) (H : list SshHost)
    (h : SshHost) (i : nat) (d : list (ustr * json)) :
  upsert_profiles P H = (P', Returned tt) →
  h ∈ H → name h ≠ [] →
  P !! i = Some (JObj d) → py_get d (u "name") = JStr (name h) →
  (∀ j p, i < j → P !! j = Some p → get_name p ≠ JStr (name h)) →
  ∃ h' g, h' ∈ H ∧ name h' = name h ∧ guid h' = Returned g
          ∧ P' !! i = Some (JObj [(u "name", JStr (name h'));
                                  (u "commandline", JStr (commandline h'));
                                  (u "guid", JStr (u "{" ++ g ++ u "}"));
                                  (u "hidden", JBool false)]).
Proof.
  intros Hup Hh Hne Hi Hd Hlast.
  destruct (upsert_matched P P' H h i (JObj d) Hup Hh Hne Hi Hd Hlast)
    as (l1 & h' & l2 & -> & Hname & Hok' & _ & Hlk).
  destruct (the_profile_fields h' Hok') as (g & Hg & Hprof).
  exists h', g. split_and!; [|done..|by rewrite Hlk, Hprof].
  apply elem_of_app. right. by left.
Qed.

Lemma upsert_replaces_wholesale_witness :
  let old := [(u "name", JStr (u "A")); (u "colorScheme", JStr (u "Dark"));
              (u "source", JStr (u "mine"))] in
  let h := {| name := u "A"; hostname := Some (u "a.example");
              user := None; port := None; identity_file := None |} in
  ∃ h' g, h' ∈ [h] ∧ name h' = name h ∧ guid h' = Returned g
          ∧ fst (upsert_profiles [JObj old] [h]) !! 0
            = Some (JObj [(u "name", JStr (name h'));
                          (u "commandline", JStr (commandline h'));
                          (u "guid", JStr (u "{" ++ g ++ u "}"));
                          (u "hidden", JBool false)]).
Proof.
  intros old h.
  apply (upsert_replaces_wholesale [JObj old] _ [h] h 0 old).
  - by vm_compute.
  - by left.
  - done.
  - done.
  - done.
  - intros [|j] p Hlt Hp; [lia|done].
Defined.

(** ** One profile per name *)

(** The names of the list that [upsert_profiles] leaves: those it had, then
    the names of the hosts appended. *)
Lemma upsert_names bn (P : list json) (H : list SshHost) :
  indexes bn P → Forall host_ok H →
  get_name <$> (overwrite bn H P ++ (the_profile <$> appended bn H))
  = (get_name <$> P) ++ ((λ h, JStr (name h)) <$> appended bn H).
Proof.
  intros Hbn Hok. rewrite fmap_app, (overwrite_names bn H P P) by done.
  f_equal. rewrite <- list_fmap_compose. apply Forall_fmap_ext.
  unfold appended. rewrite Forall_forall in Hok. apply Forall_forall.
  intros h [_ Hh]%list_elem_of_filter. by apply get_name_the_profile, Hok.
Qed.

(** C1, as stated, fails: with two entries named [A] in the list, the
    profile of host [A] is written over the second one, the first is left
    as it was, and the list still holds the name twice. *)
Lemma upsert_keeps_duplicates :
  upsert_profiles two_entries_named_A [host_named (u "A")]
  = ([JObj [(u "name", JStr (u "A")); (u "tag", JInt 1)];
      the_profile (host_named (u "A"))], Returned tt)
  ∧ ¬ upsert_dedup_claim two_entries_named_A [host_named (u "A")].
Proof.
  split; [by vm_compute|]. intros Hclaim.
  destruct (Hclaim (fst (upsert_profiles two_entries_named_A
                           [host_named (u "A")]))) as [Hdistinct _];
    [by vm_compute|].
  by specialize (Hdistinct 0 1 _ _ (u "A") eq_refl eq_refl eq_refl eq_refl).
Qed.

(** The same name twice among the hosts, and not in the list: both
    profiles are appended, [by_name] being built before the loop. *)
Example upsert_appends_twice :
  let h1 := {| name := u "A"; hostname := Some (u "a1"); user := None;
               port := None; identity_file := None |} in
  let h2 := {| name := u "A"; hostname := Some (u "a2"); user := None;
               port := None; identity_file := None |} in
  upsert_profiles [] [h1; h2] = ([the_profile h1; the_profile h2], Returned tt).
Proof. by vm_compute. Qed.

(** After a call on a list without repeated name, for hosts of distinct
    non-empty names, no name is repeated. *)
Lemma upsert_keeps_distinct (P P' : list json) (H : list SshHost) :
  upsert_profiles P H = (P', Returned tt) →
  distinct_names P → NoDup (name <$> H) → Forall (λ h, name h ≠ []) H →
  distinct_names P'.
Proof.
  intros Hup HP HH Hne.
  destruct (upsert_profiles_returned _ _ _ Hup) as (bn & _ & Hbn & Hok & ->).
  pose proof (upsert_names bn P H Hbn Hok) as Hnames.
  assert (Hlk : ∀ (l : list json) i p s,
            l !! i = Some p → get_name p = JStr s →
            (get_name <$> l) !! i = Some (JStr s)).
  { intros l i p s Hi Hp. by rewrite list_lookup_fmap, Hi, <- Hp. }
  assert (Happ : ∀ a s, ((λ h, JStr (name h)) <$> appended bn H) !! a
                        = Some (JStr s) →
                 (name <$> appended bn H) !! a = Some s ∧ unnamed P s).
  { intros a s Ha. rewrite !list_lookup_fmap. rewrite list_lookup_fmap in Ha.
    destruct (appended bn H !! a) as [h|] eqn:Hh; [|done].
    injection Ha as <-. split; [done|].
    apply list_elem_of_lookup_2, list_elem_of_filter in Hh as [Hnone _].
    pose proof (Hbn (name h)) as Hs. by rewrite Hnone in Hs. }
  assert (Hmixed : ∀ i a p s, P !! i = Some p → get_name p = JStr s →
            ((λ h, JStr (name h)) <$> appended bn H) !! a = Some (JStr s) →
            False).
  { intros i a p s Hi Hp [Ha Hun]%Happ. apply (Hun i p Hi).
    apply str_name_Some. split; [done|].
    apply list_elem_of_lookup_2, list_elem_of_fmap in Ha as (h & -> & Hh).
    apply list_elem_of_filter in Hh as [_ Hh].
    rewrite Forall_forall in Hne. by apply Hne. }
  intros i j p q s Hi Hj Hp Hq.
  pose proof (Hlk _ _ _ _ Hi Hp) as Hi'. pose proof (Hlk _ _ _ _ Hj Hq) as Hj'.
  rewrite Hnames in Hi', Hj'.
  apply lookup_app_Some in Hi' as [Hi' | [Hile Hi']],
                            Hj' as [Hj' | [Hjle Hj']].
  - apply list_lookup_fmap_Some in Hi' as (p0 & Hp0 & Hi0).
    apply list_lookup_fmap_Some in Hj' as (q0 & Hq0 & Hj0).
    by eapply (HP i j p0 q0 s).
  - apply list_lookup_fmap_Some in Hi' as (p0 & Hp0 & Hi0).
    by destruct (Hmixed _ _ _ _ Hi0 (eq_sym Hp0) Hj').
  - apply list_lookup_fmap_Some in Hj' as (q0 & Hq0 & Hj0).
    by destruct (Hmixed _ _ _ _ Hj0 (eq_sym Hq0) Hi').
  - apply Happ in Hi' as [Hi' _]. apply Happ in Hj' as [Hj' _].
    assert (Hnd : NoDup (name <$> appended bn H))
      by (by apply NoDup_fmap_filter).
    pose proof (NoDup_lookup _ _ _ _ Hnd Hi' Hj'). lia.
Qed.

(** C1, amended: when no two dicts of the list have the same name and the
    hosts have distinct, non-empty names, the invariant holds: after
    [upsert_profiles] returns no two dicts of the list have the same name,
    and the profile of a host whose name was in the list stands at the
    position that name had. (With several entries of one name, it is the
    last one that is written over, and the others stay.) *)
Theorem upsert_distinct_names (P : list json) (H : list SshHost) :
  distinct_names P → NoDup (name <$> H) → Forall (λ h, name h ≠ []) H →
  upsert_dedup_claim P H
  ∧ ∀ P' h i p,
      upsert_profiles P H = (P', Returned tt) →
      h ∈ H → P !! i = Some p → get_name p = JStr (name h) →
      ∃ p', make_profile h = Returned p' ∧ P' !! i = Some p'.
Proof.
  intros HP HH Hne.
  assert (Hpos : ∀ P' h i p,
            upsert_profiles P H = (P', Returned tt) →
            h ∈ H → P !! i = Some p → get_name p = JStr (name h) →
            ∃ p', make_profile h = Returned p' ∧ P' !! i = Some p').
  { intros P' h i p Hup Hh Hi Hp.
    assert (Hhne : name h ≠ []) by (rewrite Forall_forall in Hne; by apply Hne).
    destruct (upsert_matched P P' H h i p Hup Hh Hhne Hi Hp)
      as (l1 & h' & l2 & HH' & Hname & Hok' & _ & Hlk).
    - intros j q Hlt Hq Hqn. pose proof (HP i j p q _ Hi Hq Hp Hqn). lia.
    - assert (h' = h) as ->; [|by exists (the_profile h)].
      apply (NoDup_fmap_eq name H); [done| |done..].
      rewrite HH'. apply elem_of_app. right. by left. }
  split; [|done]. intros P' Hup. split; [by eapply upsert_keeps_distinct|].
  intros h i Hh [(p & Hi & Hp) _].
  destruct (Hpos P' h i p Hup Hh Hi Hp) as (p' & Hp' & Hlk).
  by exists h, p'.
Qed.

Lemma upsert_distinct_names_witness :
  let P := [JObj [(u "name", JStr (u "A")); (u "tag", JInt 1)];
            JStr (u "foreign");
            JObj [(u "name", JStr (u "B"))]] in
  let H := [host_named (u "B"); host_named (u "C")] in
  distinct_names P ∧ NoDup (name <$> H) ∧ Forall (λ h, name h ≠ []) H
  ∧ upsert_dedup_claim P H
  ∧ upsert_profiles P H
    = ([JObj [(u "name", JStr (u "A")); (u "tag", JInt 1)];
        JStr (u "foreign");
        the_profile (host_named (u "B"));
        the_profile (host_named (u "C"))], Returned tt).
Proof.
  intros P H.
  assert (HP : distinct_names P).
  { intros [|[|[|i]]] [|[|[|j]]] p q s Hi Hj Hp Hq; simplify_eq/=; done. }
  assert (HH : NoDup (name <$> H))
    by (apply (bool_decide_eq_true_1 _); by vm_compute).
  assert (Hne : Forall (λ h, name h ≠ []) H)
    by (apply (bool_decide_eq_true_1 _); by vm_compute).
  split_and!; [done..| |by vm_compute].
  apply (upsert_distinct_names P H HP HH Hne).
Defined.

(** ** The loop of [remove_profiles] *)

(** One turn of the loop, read through [kept]. *)
Lemma remove_loop_cons (names : gset ustr) (p : json) (ps keep : list json) :
  remove_loop names (p :: ps) keep
  = if hashable (get_name p)
    then remove_loop names ps (if kept names p then keep ++ [p] else keep)
    else Raised TypeError.
Proof.
  unfold kept, named_in, tool_owned.
  destruct p as [| | | | |l|d]; simpl; rewrite ?andb_false_r; try reflexivity.
  destruct (py_get d (u "name")) as [| | | |s| |]; simpl;
    rewrite ?andb_false_r; try reflexivity.
  destruct (bool_decide (s ∈ names)); simpl; [done|].
  by destruct (bool_decide (names = ∅) && _).
Qed.

Lemma remove_loop_ok (names : gset ustr) (ps keep : list json) :
  names_hashable ps →
  remove_loop names ps keep
  = Returned (keep ++ filter (λ p, kept names p = true) ps).
Proof.
  intros Hps. revert keep.
  induction Hps as [|p ps Hp _ IH]; intros keep.
  - simpl. by rewrite app_nil_r.
  - rewrite remove_loop_cons, Hp, IH, filter_cons.
    destruct (kept names p).
    + rewrite decide_True by done. by rewrite <- app_assoc.
    + by rewrite decide_False by done.
Qed.

Lemma remove_loop_raises (names : gset ustr) (ps keep : list json) :
  ¬ names_hashable ps → remove_loop names ps keep = Raised TypeError.
Proof.
  revert keep. induction ps as [|p ps IH]; intros keep Hps.
  - destruct Hps. constructor.
  - rewrite remove_loop_cons. destruct (hashable (get_name p)) eqn:Hp; [|done].
    apply IH. intros Hps'. apply Hps. by constructor.
Qed.

Lemma remove_profiles_ok (P : list json) (H : list SshHost) :
  names_hashable P →
  remove_profiles P H
  = (filter (λ p, kept (host_names H) p = true) P, Returned tt).
Proof. intros HP. unfold remove_profiles. by rewrite remove_loop_ok. Qed.

Lemma remove_profiles_raises (P : list json) (H : list SshHost) :
  ¬ names_hashable P → remove_profiles P H = (P, Raised TypeError).
Proof. intros HP. unfold remove_profiles. by rewrite remove_loop_raises. Qed.

Lemma kept_not_dict (names : gset ustr) (p : json) :
  is_dict p = false → kept names p = true.
Proof.
  destruct p; try done. all: unfold kept; by rewrite andb_false_r.
Qed.

(** ** Entries that [remove_profiles] never drops *)

(** C5: whatever the list and the hosts, the entries that are no dict are
    in the list that [remove_profiles] leaves exactly as they were in the
    list it was given, in the same order; and a dict for whose name the
    expected identifier cannot be computed (the computation raises) is
    still in the list after a call with no host. *)
Theorem remove_keeps_foreign (P : list json) (H : list SshHost) :
  filter (λ p, is_dict p = false) (fst (remove_profiles P H))
  = filter (λ p, is_dict p = false) P
  ∧ ∀ d ns gs e,
      JObj d ∈ P → py_get d (u "name") = JStr ns →
      py_get d (u "guid") = JStr gs → guid (host_named ns) = Raised e →
      JObj d ∈ fst (remove_profiles P []).
Proof.
  split.
  - destruct (decide (names_hashable P)) as [HP | HP].
    + rewrite remove_profiles_ok by done. simpl.
      rewrite list_filter_filter. apply list_filter_iff.
      intros p. split; [tauto|]. intros Hp. split; [done|].
      by apply kept_not_dict.
    + by rewrite remove_profiles_raises.
  - intros d ns gs e Hd Hn Hg He.
    destruct (decide (names_hashable P)) as [HP | HP].
    + rewrite remove_profiles_ok by done. simpl.
      apply list_elem_of_filter. split; [|done].
      unfold kept, named_in, tool_owned, looks_like_ours. simpl.
      by rewrite Hn, Hg, He.
    + by rewrite remove_profiles_raises.
Qed.

Lemma remove_keeps_foreign_witness :
  let d := [(u "name", JStr [0xD800%Z]); (u "guid", JStr (u "{x}"))] in
  JObj d ∈ fst (remove_profiles [JInt 7; JObj d] []).
Proof.
  intros d.
  apply (proj2 (remove_keeps_foreign [JInt 7; JObj d] [])
           d [0xD800%Z] (u "{x}") UnicodeEncodeError).
  - right. by left.
  - done.
  - done.
  - by vm_compute.
Defined.

(** ** Removal with no host *)

Lemma tool_owned_iff (p : json) :
  tool_owned p = true
  ↔ ∃ d ns id, p = JObj d ∧ py_get d (u "name") = JStr ns
               ∧ guid_of_name ns = Returned id
               ∧ py_get d (u "guid") = JStr (u "{" ++ id ++ u "}").
Proof.
  unfold tool_owned, looks_like_ours, guid. simpl. split.
  - destruct p as [| | | | | |d]; try done. simpl.
    destruct (py_get d (u "name")) as [| | | |ns| |] eqn:Hn; try done.
    destruct (py_get d (u "guid")) as [| | | |gs| |] eqn:Hg; try done.
    destruct (guid_of_name ns) as [id|] eqn:Hid; [|done].
    intros ->%bool_decide_eq_true. by exists d, ns, id.
  - intros (d & ns & id & -> & Hn & Hid & Hg). simpl.
    rewrite Hn, Hg, Hid. by apply bool_decide_eq_true.
Qed.

Lemma named_in_empty (p : json) : named_in ∅ p = false.
Proof. unfold named_in. by destruct (get_name p). Qed.

(** With no host and names that can all be hashed, [remove_profiles]
    returns and removes exactly the entries that look like profiles of the
    tool: dicts whose [name] and [guid] are strings, the [guid] being the
    braced identifier of the [name]. *)
Lemma remove_profiles_no_hosts (P : list json) :
  names_hashable P →
  remove_profiles P []
  = (filter (λ p, tool_owned p = false) P, Returned tt).
Proof.
  intros HP. rewrite remove_profiles_ok by done. f_equal.
  apply list_filter_iff. intros p. unfold kept, host_names. simpl.
  rewrite named_in_empty. simpl. by destruct (tool_owned p).
Qed.

(** C4 holds on the lists whose names can be hashed
    ([remove_profiles_no_hosts]), and fails on the others: the membership
    test [n in names] comes before the test [isinstance(n, str)] and
    raises [TypeError] on a name that is a list or a dict, so the call
    ends there and the list keeps the profile of the tool that follows. *)
Theorem remove_no_hosts_unhashable_name :
  let foreign := JObj [(u "name", JArr [JStr (u "x")])] in
  let ours := the_profile (host_named (u "A")) in
  tool_owned ours = true ∧ tool_owned foreign = false
  ∧ remove_profiles [foreign; ours] [] = ([foreign; ours], Raised TypeError)
  ∧ remove_profiles [ours] [] = ([], Returned tt).
Proof. by vm_compute. Qed.

(** ** Upsert, then remove *)

Lemma host_names_empty (H : list SshHost) : host_names H = ∅ ↔ H = [].
Proof.
  split; [|by intros ->]. destruct H as [|h H]; [done|].
  unfold host_names. simpl. intros Hempty.
  assert (name h ∈ (∅ : gset ustr)) as Hin by (rewrite <- Hempty; set_solver).
  by apply not_elem_of_empty in Hin.
Qed.

Lemma named_in_the_profile (H : list SshHost) (h : SshHost) :
  h ∈ H → host_ok h → named_in (host_names H) (the_profile h) = true.
Proof.
  intros Hh Hok. unfold named_in. rewrite get_name_the_profile by done.
  apply bool_decide_eq_true. unfold host_names.
  apply elem_of_list_to_set. by apply list_elem_of_fmap_2.
Qed.

Lemma names_hashable_unhashable_name (l : list json) :
  names_hashable l → Forall (λ p, unhashable_name p = false) l.
Proof.
  intros Hl. eapply Forall_impl; [done|]. intros p Hp. unfold unhashable_name.
  by rewrite Hp, andb_false_r.
Qed.

(** C2, as stated, fails: with no host, nothing is upserted and the
    removal drops what looks like a profile of the tool, here the only
    entry of the list, although no host names it. *)
Lemma upsert_remove_no_host_drops :
  let ours := the_profile (host_named (u "A")) in
  upsert_profiles [ours] [] = ([ours], Returned tt)
  ∧ remove_profiles [ours] [] = ([], Returned tt)
  ∧ ¬ upsert_remove_claim [ours] [].
Proof.
  cbv zeta. split; [by vm_compute|]. split; [by vm_compute|]. intros Hclaim.
  destruct (Hclaim [the_profile (host_named (u "A"))] [])
    as [_ Hsub]; [by vm_compute..|].
  apply sublist_nil_r in Hsub. vm_compute in Hsub. done.
Qed.

(** With at least one host, what the removal keeps of the list that the
    upsert left is what is not named like a host in the first list. *)
Lemma upsert_remove_filter bn (P : list json) (H : list SshHost) :
  H ≠ [] → indexes bn P → Forall host_ok H →
  filter (λ p, kept (host_names H) p = true)
    (overwrite bn H P ++ (the_profile <$> appended bn H))
  = filter (λ p, named_in (host_names H) p = false) P.
Proof.
  intros HH Hbn Hok.
  assert (Hkept : ∀ p, kept (host_names H) p = true
                       ↔ named_in (host_names H) p = false).
  { intros p. unfold kept.
    rewrite (bool_decide_eq_false_2 (host_names H = ∅))
      by (by rewrite host_names_empty).
    simpl. rewrite andb_true_r. by destruct (named_in _ p). }
  rewrite (list_filter_iff _ _ _ Hkept), filter_app.
  rewrite (filter_none _ (the_profile <$> appended bn H)), app_nil_r.
  - apply filter_Forall2, Forall2_same_length_lookup.
    split; [by rewrite overwrite_length|].
    intros i q p Hq Hp.
    destruct (overwrite_lookup bn H P i)
      as [[Hsame _] | (l1 & h & l2 & -> & Hh & _ & Hlk)].
    + left. congruence.
    + right. rewrite Hlk in Hq by (by eapply lookup_lt_Some).
      injection Hq as <-.
      assert (Hin : h ∈ l1 ++ h :: l2) by (apply elem_of_app; right; by left).
      assert (Hokh : host_ok h) by (rewrite Forall_forall in Hok; by apply Hok).
      rewrite named_in_the_profile by done.
      specialize (Hbn (name h)). rewrite Hh in Hbn.
      destruct Hbn as [(p' & Hp' & [Hps _]%str_name_Some) _].
      assert (p' = p) as -> by congruence.
      split; [done|]. unfold named_in. rewrite Hps.
      rewrite bool_decide_eq_true_2; [done|].
      apply elem_of_list_to_set. by apply list_elem_of_fmap_2.
  - apply Forall_fmap, Forall_forall.
    intros h [_ Hh]%list_elem_of_filter. simpl.
    rewrite named_in_the_profile; [done..|].
    rewrite Forall_forall in Hok. by apply Hok.
Qed.

(** C2, amended: with at least one host, whenever [upsert_profiles] and
    then [remove_profiles] with the same hosts both return, the list left
    holds no entry named like a host and holds every entry of the first list
    that is not named like a host, unchanged and in order (it is exactly
    these entries). Both calls do return when the names of the list can all
    be hashed and the identifiers of the hosts can all be computed. *)
Theorem upsert_then_remove (P : list json) (H : list SshHost) :
  H ≠ [] →
  upsert_remove_claim P H
  ∧ (∀ P' P'', upsert_profiles P H = (P', Returned tt) →
               remove_profiles P' H = (P'', Returned tt) →
               P'' = filter (λ p, named_in (host_names H) p = false) P)
  ∧ (names_hashable P → Forall host_ok H →
     ∃ P', upsert_profiles P H = (P', Returned tt)
           ∧ remove_profiles P' H
             = (filter (λ p, named_in (host_names H) p = false) P,
                Returned tt)).
Proof.
  intros HH.
  assert (Hret : ∀ P' P'', upsert_profiles P H = (P', Returned tt) →
            remove_profiles P' H = (P'', Returned tt) →
            P'' = filter (λ p, named_in (host_names H) p = false) P).
  { intros P' P'' (bn & _ & Hbn & Hok & ->)%upsert_profiles_returned Hrem.
    destruct (decide (names_hashable
                (overwrite bn H P ++ (the_profile <$> appended bn H))))
      as [Hh | Hh].
    - rewrite remove_profiles_ok in Hrem by done. injection Hrem as <-.
      by apply upsert_remove_filter.
    - by rewrite remove_profiles_raises in Hrem. }
  split_and!; [|done|].
  - intros P' P'' Hup Hrem. rewrite (Hret P' P'' Hup Hrem). split; [|done].
    by intros p [? _]%list_elem_of_filter.
  - intros HP Hok.
    destruct (upsert_profiles_ok P H) as (bn & Hbn & Hup);
      [by apply names_hashable_unhashable_name|done|].
    eexists. split; [done|].
    pose proof (upsert_names bn P H Hbn Hok) as Hnames.
    rewrite remove_profiles_ok; [by rewrite upsert_remove_filter|].
    unfold names_hashable.
    apply (Forall_fmap get_name (λ n, hashable n = true)).
    rewrite Hnames. apply Forall_app. split; [by apply Forall_fmap|].
    apply Forall_fmap, Forall_forall. by intros h _.
Qed.

Lemma upsert_then_remove_witness :
  let P := [JStr (u "foreign");
            JObj [(u "name", JStr (u "A")); (u "colorScheme", JStr (u "Dark"))];
            JObj [(u "name", JStr (u "Z"))]] in
  let H := [host_named (u "A"); host_named (u "B")] in
  H ≠ [] ∧ names_hashable P ∧ Forall host_ok H
  ∧ upsert_remove_claim P H
  ∧ ∃ P', upsert_profiles P H = (P', Returned tt)
          ∧ remove_profiles P' H
            = (filter (λ p, named_in (host_names H) p = false) P,
               Returned tt).
Proof.
  intros P H.
  assert (HP : names_hashable P)
    by (apply (bool_decide_eq_true_1 _); by vm_compute).
  assert (Hok : Forall host_ok H) by (repeat constructor; by vm_compute).
  assert (HH : H ≠ []) by done.
  destruct (upsert_then_remove P H HH) as (Hclaim & _ & Hret).
  split_and!; [done..|]. by apply Hret.
Defined.

(** On that list the round trip leaves the foreign entry and the entry
    named [Z]. *)
Example upsert_then_remove_example :
  let P := [JStr (u "foreign");
            JObj [(u "name", JStr (u "A")); (u "colorScheme", JStr (u "Dark"))];
            JObj [(u "name", JStr (u "Z"))]] in
  let H := [host_named (u "A"); host_named (u "B")] in
  remove_profiles (fst (upsert_profiles P H)) H
  = ([JStr (u "foreign"); JObj [(u "name", JStr (u "Z"))]], Returned tt).
Proof. by vm_compute. Qed.

(** ** Upserting twice *)

Lemma unhashable_name_alt (p : json) :
  unhashable_name p = truthy (get_name p) && negb (hashable (get_name p)).
Proof. unfold unhashable_name. by destruct p. Qed.

Lemma index_names_returned (ps : list json) :
  ∀ i acc bn, index_names i ps acc = Returned bn →
  Forall (λ p, unhashable_name p = false) ps.
Proof.
  induction ps as [|p ps IH]; intros i acc bn Hidx; [done|].
  rewrite index_names_cons in Hidx.
  destruct (unhashable_name p) eqn:Hp; [done|]. constructor; [done|].
  by eapply IH.
Qed.

Lemma last_named_names (l : list json) (s : ustr) (i : nat) :
  last_named l s i
  ↔ s ≠ [] ∧ (get_name <$> l) !! i = Some (JStr s)
    ∧ ∀ j, i < j → (get_name <$> l) !! j ≠ Some (JStr s).
Proof.
  unfold last_named. split.
  - intros [(p & Hp & [Hn Hne]%str_name_Some) Hlast]. split_and!; [done|..].
    + by rewrite list_lookup_fmap, Hp, <- Hn.
    + intros j Hlt (q & Hq & Hj)%list_lookup_fmap_Some.
      apply (Hlast j q Hlt Hj). by apply str_name_Some.
  - intros (Hne & (p & Hp & Hi)%list_lookup_fmap_Some & Hlast). split.
    + exists p. split; [done|]. by apply str_name_Some.
    + intros j q Hlt Hq [Hn _]%str_name_Some. apply (Hlast j Hlt).
      by rewrite list_lookup_fmap, Hq, <- Hn.
Qed.

Lemma last_named_fun (l : list json) (s : ustr) (i j : nat) :
  last_named l s i → last_named l s j → i = j.
Proof.
  intros [(p & Hp & Hps) Hi] [(q & Hq & Hqs) Hj].
  destruct (lt_eq_lt_dec i j) as [[Hlt | ->] | Hlt]; [|done|].
  - by destruct (Hi j q).
  - by destruct (Hj i p).
Qed.

Lemma appended_app bn (l1 l2 : list SshHost) :
  appended bn (l1 ++ l2) = appended bn l1 ++ appended bn l2.
Proof. apply filter_app. Qed.

(** Where the profile of the last host of a name stands after the call:
    at the last position of that name. *)
Lemma upsert_last_named bn (P : list json) (l1 l2 : list SshHost)
    (h : SshHost) :
  let H := l1 ++ h :: l2 in
  let P' := overwrite bn H P ++ (the_profile <$> appended bn H) in
  indexes bn P → Forall host_ok H → name h ≠ [] →
  (∀ h', h' ∈ l2 → name h' ≠ name h) →
  ∃ k, last_named P' (name h) k ∧ P' !! k = Some (the_profile h).
Proof.
  intros H P' Hbn Hok Hne Hl2.
  pose proof (upsert_names bn P H Hbn Hok) as Hnames. fold P' in Hnames.
  assert (Hl2' : ∀ a, ((λ h, JStr (name h)) <$> appended bn l2) !! a
                      ≠ Some (JStr (name h))).
  { intros a (h' & Heq & Hh')%list_lookup_fmap_Some.
    apply list_elem_of_lookup_2, list_elem_of_filter in Hh' as [_ Hh'].
    apply (Hl2 h' Hh'). congruence. }
  pose proof (Hbn (name h)) as Hs.
  destruct (bn !! name h) as [i|] eqn:Hi.
  - exists i. pose proof Hs as (_ & Hi' & Hlast)%last_named_names.
    assert (Hlt : i < length P) by (by eapply indexes_lt).
    split.
    + apply last_named_names. rewrite Hnames. split_and!; [done|..].
      * by rewrite lookup_app_l by (by rewrite length_fmap).
      * intros j Hj [Hj' | [_ Hj']]%lookup_app_Some; [by apply (Hlast j)|].
        apply list_lookup_fmap_Some in Hj' as (h' & Heq & Hh').
        apply list_elem_of_lookup_2, list_elem_of_filter in Hh' as [Hh' _].
        injection Heq as Heq. rewrite <- Heq in Hh'. congruence.
    + unfold P'. rewrite lookup_app_l by (by rewrite overwrite_length).
      apply overwrite_last; [done..|].
      intros h' Hh' Hi''. apply (Hl2 h' Hh'). by eapply indexes_inj.
  - assert (Heq : appended bn H = appended bn l1 ++ h :: appended bn l2).
    { unfold H. rewrite appended_app. f_equal. unfold appended.
      by rewrite filter_cons, decide_True. }
    set (k := length P + length (appended bn l1)).
    exists k. split.
    + apply last_named_names. rewrite Hnames, Heq, fmap_app, fmap_cons.
      split_and!; [done|..].
      * rewrite lookup_app_r by (rewrite length_fmap; unfold k; lia).
        rewrite length_fmap. replace (k - length P) with
          (length ((λ h, JStr (name h)) <$> appended bn l1) + 0)
          by (rewrite length_fmap; unfold k; lia).
        by rewrite lookup_app_r, Nat.add_comm, Nat.add_sub by lia.
      * intros j Hj. rewrite lookup_app_r by (rewrite length_fmap; unfold k in Hj; lia).
        rewrite length_fmap.
        rewrite lookup_app_r by (rewrite length_fmap; unfold k in Hj; lia).
        rewrite length_fmap.
        destruct (j - length P - length (appended bn l1)) as [|a] eqn:Ha;
          [unfold k in Hj; lia|]. simpl. apply Hl2'.
    + unfold P'. rewrite lookup_app_r by (rewrite overwrite_length; unfold k; lia).
      rewrite overwrite_length, Heq, fmap_app, fmap_cons.
      replace (k - length P) with (length (the_profile <$> appended bn l1) + 0)
        by (rewrite length_fmap; unfold k; lia).
      by rewrite lookup_app_r, Nat.add_comm, Nat.add_sub by lia.
Qed.

(** A second call with the same hosts, all of non-empty name, returns and
    leaves the list as the first call left it. *)
Lemma upsert_twice_returned (P P' : list json) (H : list SshHost) :
  Forall (λ h, name h ≠ []) H →
  upsert_profiles P H = (P', Returned tt) →
  upsert_profiles P' H = (P', Returned tt).
Proof.
  intros Hne Hup.
  destruct (upsert_profiles_returned _ _ _ Hup) as (bn & Hidx & Hbn & Hok & HP').
  pose proof (upsert_names bn P H Hbn Hok) as Hnames. rewrite <- HP' in Hnames.
  assert (Hun : Forall (λ p, unhashable_name p = false) P').
  { assert (Hgoal : Forall (λ n, truthy n && negb (hashable n) = false)
                        (get_name <$> P')).
    { rewrite Hnames. apply Forall_app. split.
      - apply Forall_fmap. eapply Forall_impl;
          [by eapply index_names_returned|].
        intros p Hp. simpl. by rewrite <- unhashable_name_alt.
      - apply Forall_fmap, Forall_forall. intros h _. simpl.
        by rewrite andb_false_r. }
    apply Forall_fmap in Hgoal. eapply Forall_impl; [exact Hgoal|].
    intros p Hp. simpl in Hp. by rewrite unhashable_name_alt. }
  destruct (index_names_returns P' Hun 0 ∅) as [bn' Hidx'].
  pose proof (index_names_indexes _ _ Hidx') as Hbn'.
  assert (Hlast : ∀ l1 h l2, H = l1 ++ h :: l2 →
            (∀ h', h' ∈ l2 → name h' ≠ name h) →
            ∃ k, bn' !! name h = Some k ∧ P' !! k = Some (the_profile h)).
  { intros l1 h l2 HH Hl2. subst H.
    destruct (upsert_last_named bn P l1 l2 h) as (k & Hk & Hlk); [done..| |done|].
    { rewrite Forall_forall in Hne. apply Hne, elem_of_app. right. by left. }
    rewrite <- HP' in Hk, Hlk. exists k. split; [|done].
    pose proof (Hbn' (name h)) as Hs. destruct (bn' !! name h) as [k'|].
    - f_equal. by eapply last_named_fun.
    - destruct Hk as [(p & Hp & Hps) _]. by destruct (Hs k p). }
  assert (Hall : ∀ h, h ∈ H → is_Some (bn' !! name h)).
  { intros h Hh.
    destruct (list_last_such (λ h', name h' = name h) H)
      as [Hno | (l1 & h' & l2 & HH & Hh' & Hl2)].
    - rewrite Forall_forall in Hno. by destruct (Hno h).
    - destruct (Hlast l1 h' l2 HH) as (k & Hk & _).
      + rewrite Forall_forall in Hl2. intros h2 Hh2. rewrite Hh'. by apply Hl2.
      + rewrite <- Hh'. by eexists. }
  unfold upsert_profiles. rewrite Hidx'.
  rewrite upsert_loop_ok; [|by intros; eapply indexes_lt|done].
  f_equal. unfold appended. rewrite (filter_none _ H), app_nil_r; cycle 1.
  { apply Forall_forall. intros h Hh Hnone.
    destruct (Hall h Hh) as [k Hk]. congruence. }
  apply list_eq. intros i.
  destruct (overwrite_lookup bn' H P' i)
    as [[Hsame _] | (l1 & h & l2 & HH & Hh & Hl2 & Hlk)]; [done|].
  destruct (Hlast l1 h l2 HH) as (k & Hk & HPk).
  - intros h' Hh' Heq. apply (Hl2 h' Hh'). by rewrite Heq.
  - assert (k = i) as -> by congruence.
    rewrite Hlk by (by eapply lookup_lt_Some). done.
Qed.

(** C3, as stated, fails: a host whose name is the empty string is never
    found in [by_name], which records truthy names only, so each call
    appends its profile again. *)
Lemma upsert_empty_name_appended_again :
  let p := the_profile (host_named []) in
  upsert_profiles [] [host_named []] = ([p], Returned tt)
  ∧ upsert_profiles [p] [host_named []] = ([p; p], Returned tt)
  ∧ ¬ upsert_idempotent_claim [] [host_named []].
Proof.
  cbv zeta. split; [by vm_compute|]. split; [by vm_compute|].
  unfold upsert_idempotent_claim. by vm_compute.
Qed.

(** When the first call raised, the second ends the same way and leaves
    the list as the first left it. *)
Lemma upsert_twice_raised (P P' : list json) (H : list SshHost) e :
  Forall (λ h, name h ≠ []) H →
  upsert_profiles P H = (P', Raised e) →
  upsert_profiles P' H = (P', Raised e).
Proof.
  intros Hne Hup. unfold upsert_profiles in Hup.
  destruct (index_names 0 P ∅) as [bn|e'] eqn:Hidx.
  - apply upsert_loop_raised in Hup as (hs1 & h & hs2 & -> & Hh & Hloop);
      [|intros s i Hs; by eapply indexes_lt; [apply index_names_indexes|]].
    assert (Hup1 : upsert_profiles P hs1 = (P', Returned tt))
      by (unfold upsert_profiles; by rewrite Hidx).
    apply upsert_twice_returned in Hup1;
      [|by apply Forall_app in Hne as [? _]].
    unfold upsert_profiles in Hup1 |- *.
    destruct (index_names 0 P' ∅) as [bn'|]; [|done].
    by apply upsert_loop_app_raise.
  - injection Hup as <- <-. unfold upsert_profiles. by rewrite Hidx.
Qed.

(** C3, amended: for hosts whose names are all non-empty (as the names
    that the parser emits are), a second [upsert_profiles] with the same
    hosts leaves the list, element for element, as the first call left it,
    and ends as the first call did. *)
Theorem upsert_twice (P : list json) (H : list SshHost) :
  Forall (λ h, name h ≠ []) H →
  upsert_idempotent_claim P H
  ∧ upsert_profiles (fst (upsert_profiles P H)) H = upsert_profiles P H.
Proof.
  intros Hne.
  assert (Heq : upsert_profiles (fst (upsert_profiles P H)) H
                = upsert_profiles P H).
  { destruct (upsert_profiles P H) as [P' [[]|e]] eqn:Hup; simpl.
    - by apply (upsert_twice_returned P).
    - by apply (upsert_twice_raised P). }
  split; [|done]. unfold upsert_idempotent_claim. by rewrite Heq.
Qed.

Lemma upsert_twice_witness :
  let P := [JObj [(u "name", JStr (u "A")); (u "tag", JInt 1)];
            JObj [(u "name", JStr (u "A")); (u "tag", JInt 2)]] in
  let H := [{| name := u "B"; hostname := Some (u "b1"); user := None;
               port := None; identity_file := None |};
            host_named (u "A");
            {| name := u "B"; hostname := Some (u "b2"); user := None;
               port := None; identity_file := None |}] in
  Forall (λ h, name h ≠ []) H
  ∧ upsert_idempotent_claim P H
  ∧ upsert_profiles (fst (upsert_profiles P H)) H = upsert_profiles P H.
Proof.
  intros P H.
  assert (Hne : Forall (λ h, name h ≠ []) H) by (repeat constructor; done).
  split; [done|]. apply (upsert_twice P H Hne).
Defined.

(** The hosts of a configuration file can be upserted again and again. *)
Corollary upsert_parsed_twice `{UnicodeData} (P : list json) (text : ustr) :
  let H := parse_ssh_config text in
  upsert_profiles (fst (upsert_profiles P H)) H = upsert_profiles P H.
Proof.
  intros Hs. pose proof (parse_names_nonempty text) as Hne. fold Hs in Hne.
  destruct (upsert_profiles P Hs) as [P' [[]|e]] eqn:Hup; simpl.
  - by apply (upsert_twice_returned P).
  - by apply (upsert_twice_raised P).
Qed.

(** ** The identifier of a host *)

Lemma utf8_char_Some (c : Z) :
  is_code_point c → ¬ is_surrogate c → is_Some (Uuid.utf8_char c).
Proof.
  unfold is_code_point, is_surrogate, Uuid.utf8_char. intros Hc Hs.
  repeat case_match; try done; lia.
Qed.

Lemma utf8_char_surrogate (c : Z) :
  is_surrogate c → Uuid.utf8_char c = None.
Proof.
  unfold is_surrogate, Uuid.utf8_char. intros Hs.
  repeat case_match; try done; lia.
Qed.

Lemma utf8_encode_Some (s : ustr) :
  Forall is_code_point s → Forall (λ c, ¬ is_surrogate c) s →
  is_Some (Uuid.utf8_encode s).
Proof.
  induction 1 as [|c s Hc _ IH]; intros Hs; [by eexists|].
  apply Forall_cons in Hs as [Hcs Hs]. simpl.
  destruct (utf8_char_Some c Hc Hcs) as [b ->].
  destruct (IH Hs) as [bs ->]. by eexists.
Qed.

Lemma utf8_encode_surrogate (s : ustr) :
  Exists is_surrogate s → Uuid.utf8_encode s = None.
Proof.
  induction 1 as [c s Hc | c s _ IH]; simpl.
  - by rewrite utf8_char_surrogate.
  - rewrite IH. by destruct (Uuid.utf8_char c).
Qed.

Lemma guid_of_name_outcome (n : ustr) :
  Forall is_code_point n →
  (Exists is_surrogate n ∧ guid_of_name n = Raised UnicodeEncodeError)
  ∨ (Forall (λ c, ¬ is_surrogate c) n ∧ ∃ g, guid_of_name n = Returned g).
Proof.
  intros Hn. unfold guid_of_name, Uuid.uuid5_str.
  destruct (decide (Exists is_surrogate n)) as [Hs | Hs].
  - left. split; [done|]. rewrite utf8_encode_surrogate; [done|].
    apply Exists_app. by right.
  - right. apply not_Exists_Forall in Hs; [|apply _]. split; [done|].
    destruct (utf8_encode_Some (u "ssh-to-terminal:" ++ n)) as [bs ->];
      [| |by eexists].
    + apply Forall_app. split; [|done].
      apply (bool_decide_eq_true_1 _). by vm_compute.
    + apply Forall_app. split; [|done].
      apply (bool_decide_eq_true_1 _). by vm_compute.
Qed.

Lemma byte_land_range (x : Z) : (0 ≤ Z.land x 0xFF < 256)%Z.
Proof.
  change 255%Z with (Z.ones 8). rewrite Z.land_ones by lia.
  apply Z.mod_pos_bound. lia.
Qed.

Lemma hex_digit_is_hex (d : Z) : (0 ≤ d < 16)%Z → is_hex_digit (Uuid.hex_digit d).
Proof. unfold is_hex_digit, Uuid.hex_digit. intros Hd. case_match; lia. Qed.

Lemma hex_of_byte (b : Z) :
  (0 ≤ b < 256)%Z →
  is_hex_digit (Uuid.hex_digit (Z.shiftr b 4))
  ∧ is_hex_digit (Uuid.hex_digit (Z.land b 0xF)).
Proof.
  intros Hb. split; apply hex_digit_is_hex.
  - rewrite Z.shiftr_div_pow2 by lia. change (2 ^ 4)%Z with 16%Z.
    split; [apply Z.div_pos; lia|apply Z.div_lt_upper_bound; lia].
  - change 15%Z with (Z.ones 4). rewrite Z.land_ones by lia.
    apply Z.mod_pos_bound. lia.
Qed.

(** The version nibble and the variant bits that [set_version5] writes. *)
Lemma set_version5_bits (i0 : Z) :
  let i := Z.lor (Z.land (Z.lor (Z.land i0 (Z.lnot (Z.shiftl 0xC000 48)))
                            (Z.shiftl 0x8000 48))
                    (Z.lnot (Z.shiftl 0xF000 64)))
             (Z.shiftl 5 76) in
  Z.shiftr (Z.land (Z.shiftr i 72) 0xFF) 4 = 5%Z
  ∧ Z.shiftr (Z.land (Z.shiftr i 56) 0xFF) 6 = 2%Z.
Proof.
  intros i. unfold i. clear i. split.
  - rewrite Z.shiftr_land, Z.shiftr_shiftr by lia.
    rewrite Z.shiftr_lor, Z.shiftr_land.
    change (Z.shiftr (Z.shiftl 5 76) (72 + 4)) with 5%Z.
    change (Z.shiftr (Z.lnot (Z.shiftl 61440 64)) (72 + 4)) with (-16)%Z.
    change (Z.shiftr 255 4) with 15%Z.
    rewrite Z.land_lor_distr_l, <- Z.land_assoc.
    change (Z.land (-16) 15) with 0%Z. by rewrite Z.land_0_r.
  - rewrite Z.shiftr_land, Z.shiftr_shiftr by lia.
    rewrite Z.shiftr_lor, Z.shiftr_land, Z.shiftr_lor, Z.shiftr_land.
    change (Z.shiftr (Z.shiftl 5 76) (56 + 6)) with 81920%Z.
    change (Z.shiftr (Z.lnot (Z.shiftl 61440 64)) (56 + 6)) with (-245761)%Z.
    change (Z.shiftr (Z.shiftl 32768 48) (56 + 6)) with 2%Z.
    change (Z.shiftr (Z.lnot (Z.shiftl 49152 48)) (56 + 6)) with (-4)%Z.
    change (Z.shiftr 255 6) with 3%Z.
    rewrite Z.land_lor_distr_l. change (Z.land 81920 3) with 0%Z.
    rewrite Z.lor_0_r, <- Z.land_assoc.
    change (Z.land (-245761) 3) with 3%Z.
    rewrite Z.land_lor_distr_l, <- Z.land_assoc.
    change (Z.land (-4) 3) with 0%Z. by rewrite Z.land_0_r.
Qed.

Lemma uuid_str_16 (b0 b1 b2 b3 b4 b5 b6 b7 b8 b9 b10 b11 b12 b13 b14 b15 : Z) :
  Uuid.uuid_str [b0; b1; b2; b3; b4; b5; b6; b7; b8; b9; b10; b11; b12; b13;
                 b14; b15]
  = Uuid.hex_of_bytes [b0; b1; b2; b3] ++ [45%Z]
    ++ Uuid.hex_of_bytes [b4; b5] ++ [45%Z]
    ++ Uuid.hex_of_bytes [b6; b7] ++ [45%Z]
    ++ Uuid.hex_of_bytes [b8; b9] ++ [45%Z]
    ++ Uuid.hex_of_bytes [b10; b11; b12; b13; b14; b15].
Proof. reflexivity. Qed.

Lemma hex_of_bytes_hex (bs : list Z) :
  Forall (λ b, (0 ≤ b < 256)%Z) bs →
  Forall is_hex_digit (Uuid.hex_of_bytes bs).
Proof.
  induction 1 as [|b bs Hb _ IH]; [done|]. unfold Uuid.hex_of_bytes in *.
  simpl. destruct (hex_of_byte b Hb) as [Hhi Hlo].
  by do 2 (constructor; [done|]).
Qed.

Lemma variant_digit (b : Z) :
  Z.shiftr b 6 = 2%Z →
  Uuid.hex_digit (Z.shiftr b 4) ∈ [56; 57; 97; 98]%Z.
Proof.
  intros Hvar.
  assert (Hb : (128 ≤ b < 192)%Z).
  { rewrite Z.shiftr_div_pow2 in Hvar by lia. change (2 ^ 6)%Z with 64%Z in Hvar.
    pose proof (Z.div_mod b 64). pose proof (Z.mod_pos_bound b 64). lia. }
  rewrite Z.shiftr_div_pow2 by lia. change (2 ^ 4)%Z with 16%Z.
  assert (Hq : (8 ≤ b / 16 < 12)%Z).
  { split; [apply Z.div_le_lower_bound; lia|apply Z.div_lt_upper_bound; lia]. }
  assert (Hcases : (b / 16 = 8 ∨ b / 16 = 9 ∨ b / 16 = 10 ∨ b / 16 = 11)%Z)
    by lia.
  destruct Hcases as [-> | [-> | [-> | ->]]].
  - apply list_elem_of_here.
  - apply list_elem_of_further, list_elem_of_here.
  - do 2 apply list_elem_of_further. apply list_elem_of_here.
  - do 3 apply list_elem_of_further. apply list_elem_of_here.
Qed.

Lemma uuid_str_16_format (b0 b1 b2 b3 b4 b5 b6 b7 b8 b9 b10 b11 b12 b13 b14 b15 : Z) :
  Forall (λ b, (0 ≤ b < 256)%Z)
    [b0; b1; b2; b3; b4; b5; b6; b7; b8; b9; b10; b11; b12; b13; b14; b15] →
  Z.shiftr b6 4 = 5%Z → Z.shiftr b8 6 = 2%Z →
  ∃ a b c d e,
    Uuid.uuid_str [b0; b1; b2; b3; b4; b5; b6; b7; b8; b9; b10; b11; b12; b13;
                   b14; b15]
    = a ++ [45%Z] ++ b ++ [45%Z] ++ c ++ [45%Z] ++ d ++ [45%Z] ++ e
    ∧ length a = 8 ∧ length b = 4 ∧ length c = 4 ∧ length d = 4
    ∧ length e = 12
    ∧ Forall is_hex_digit (a ++ b ++ c ++ d ++ e)
    ∧ head c = Some 53%Z
    ∧ ∃ v, head d = Some v ∧ v ∈ [56; 57; 97; 98]%Z.
Proof.
  intros Hbytes Hver Hvar.
  exists (Uuid.hex_of_bytes [b0; b1; b2; b3]), (Uuid.hex_of_bytes [b4; b5]),
    (Uuid.hex_of_bytes [b6; b7]), (Uuid.hex_of_bytes [b8; b9]),
    (Uuid.hex_of_bytes [b10; b11; b12; b13; b14; b15]).
  split; [apply uuid_str_16|].
  split_and!; [reflexivity..| | |].
  - repeat (apply Forall_cons in Hbytes as [? Hbytes]).
    rewrite !Forall_app. split_and!; apply hex_of_bytes_hex;
      by repeat (constructor; [done|]).
  - simpl. by rewrite Hver.
  - exists (Uuid.hex_digit (Z.shiftr b8 4)). split; [done|].
    by apply variant_digit.
Qed.

Lemma be_bytes_16 (i : Z) :
  Uuid.be_bytes 16 i
  = [Z.land (Z.shiftr i 120) 0xFF; Z.land (Z.shiftr i 112) 0xFF;
     Z.land (Z.shiftr i 104) 0xFF; Z.land (Z.shiftr i 96) 0xFF;
     Z.land (Z.shiftr i 88) 0xFF; Z.land (Z.shiftr i 80) 0xFF;
     Z.land (Z.shiftr i 72) 0xFF; Z.land (Z.shiftr i 64) 0xFF;
     Z.land (Z.shiftr i 56) 0xFF; Z.land (Z.shiftr i 48) 0xFF;
     Z.land (Z.shiftr i 40) 0xFF; Z.land (Z.shiftr i 32) 0xFF;
     Z.land (Z.shiftr i 24) 0xFF; Z.land (Z.shiftr i 16) 0xFF;
     Z.land (Z.shiftr i 8) 0xFF; Z.land (Z.shiftr i 0) 0xFF]%Z.
Proof. reflexivity. Qed.

(** X1: when [guid] returns, its value is the text of a version-5 UUID:
    five groups of 8, 4, 4, 4 and 12 lowercase hexadecimal digits separated
    by hyphens, the third group starting with the version digit [5] and the
    fourth with [8], [9], [a] or [b], the variant. *)
Theorem guid_well_formed (h : SshHost) (g : ustr) :
  guid h = Returned g →
  ∃ a b c d e,
    g = a ++ [45%Z] ++ b ++ [45%Z] ++ c ++ [45%Z] ++ d ++ [45%Z] ++ e
    ∧ length a = 8 ∧ length b = 4 ∧ length c = 4 ∧ length d = 4
    ∧ length e = 12
    ∧ Forall is_hex_digit (a ++ b ++ c ++ d ++ e)
    ∧ head c = Some 53%Z
    ∧ ∃ v, head d = Some v ∧ v ∈ [56; 57; 97; 98]%Z.
Proof.
  unfold guid, guid_of_name, Uuid.uuid5_str.
  destruct (Uuid.utf8_encode _) as [bs|]; [|done]. intros [= <-].
  unfold Uuid.set_version5. cbv zeta.
  match goal with
  | |- context [Uuid.be_int ?x] => generalize (Uuid.be_int x)
  end.
  intros i0. rewrite be_bytes_16.
  destruct (set_version5_bits i0) as [Hver Hvar].
  cbv zeta in Hver, Hvar.
  apply uuid_str_16_format; [|exact Hver|exact Hvar].
  repeat (constructor; [apply byte_land_range|]). constructor.
Qed.

Lemma guid_well_formed_witness :
  ∃ a b c d e,
    u "4578e256-e1a7-5c27-b5c7-5fa5dac69cb3"
    = a ++ [45%Z] ++ b ++ [45%Z] ++ c ++ [45%Z] ++ d ++ [45%Z] ++ e
    ∧ length a = 8 ∧ length b = 4 ∧ length c = 4 ∧ length d = 4
    ∧ length e = 12
    ∧ Forall is_hex_digit (a ++ b ++ c ++ d ++ e)
    ∧ head c = Some 53%Z
    ∧ ∃ v, head d = Some v ∧ v ∈ [56; 57; 97; 98]%Z.
Proof.
  apply (guid_well_formed (host_named (u "Server01"))). by vm_compute.
Defined.

(** X2: on a name made of code points, [guid] raises [UnicodeEncodeError]
    when the name holds a surrogate, and returns otherwise: these are the
    only two ways it ends. *)
Theorem guid_outcome (h : SshHost) :
  Forall is_code_point (name h) →
  (Exists is_surrogate (name h) ∧ guid h = Raised UnicodeEncodeError)
  ∨ (Forall (λ c, ¬ is_surrogate c) (name h) ∧ ∃ g, guid h = Returned g).
Proof. apply guid_of_name_outcome. Qed.

Lemma guid_outcome_witness :
  Forall is_code_point (u "db-1")
  ∧ ((Exists is_surrogate (u "db-1")
      ∧ guid (host_named (u "db-1")) = Raised UnicodeEncodeError)
     ∨ (Forall (λ c, ¬ is_surrogate c) (u "db-1")
        ∧ ∃ g, guid (host_named (u "db-1")) = Returned g)).
Proof.
  assert (Hn : Forall is_code_point (name (host_named (u "db-1"))))
    by (apply (bool_decide_eq_true_1 _); by vm_compute).
  split; [exact Hn|]. apply (guid_outcome (host_named (u "db-1")) Hn).
Defined.

(** ** The container of the profiles *)

Lemma py_get_py_set_eq (d : list (ustr * json)) (k : ustr) (v : json) :
  py_get (py_set d k v) k = v.
Proof.
  induction d as [|[k' v'] d IH]; simpl.
  - unfold ustr_eqb. by rewrite bool_decide_eq_true_2.
  - unfold ustr_eqb in *. destruct (bool_decide (k' = k)) eqn:Hk; simpl.
    + unfold ustr_eqb. by rewrite Hk.
    + unfold ustr_eqb. by rewrite Hk.
Qed.

Lemma py_get_py_set_ne (d : list (ustr * json)) (k k' : ustr) (v : json) :
  k ≠ k' → py_get (py_set d k v) k' = py_get d k'.
Proof.
  intros Hne. induction d as [|[k0 v0] d IH]; simpl.
  - unfold ustr_eqb. by rewrite bool_decide_eq_false_2.
  - unfold ustr_eqb in *. destruct (bool_decide (k0 = k)) eqn:Hk; simpl.
    + apply bool_decide_eq_true in Hk as ->. unfold ustr_eqb.
      by rewrite !bool_decide_eq_false_2.
    + unfold ustr_eqb. by rewrite IH.
Qed.

Lemma py_set_py_get_id (d : list (ustr * json)) (k : ustr) :
  py_get d k ≠ JNull → py_set d k (py_get d k) = d.
Proof.
  induction d as [|[k' v'] d IH]; simpl; [done|]. unfold ustr_eqb.
  destruct (bool_decide (k' = k)); [done|]. intros Hd. by rewrite IH.
Qed.

(** X3: for a document that is a dict, the document left by
    [ensure_profiles_container] and the reconcilers holds the reconciled
    list under [profiles.list] (a second call returns that list), and every
    other key of the document and of its [profiles] dict holds what it
    held. *)
Theorem container_holds_list (d : list (ustr * json)) (lst : list json) :
  ensure_profiles_container (store_profiles (JObj d) lst) = Returned lst
  ∧ (∀ k, k ≠ u "profiles" →
          json_field (store_profiles (JObj d) lst) k = py_get d k)
  ∧ (∀ k, k ≠ u "list" →
          json_field (json_field (store_profiles (JObj d) lst) (u "profiles")) k
          = json_field (py_get d (u "profiles")) k).
Proof.
  unfold store_profiles, ensure_profiles_container, json_field.
  rewrite !py_get_py_set_eq. split_and!; [done| |].
  - intros k Hk. by apply py_get_py_set_ne.
  - intros k Hk. rewrite py_get_py_set_ne by done.
    by destruct (py_get d (u "profiles")).
Qed.

(** X4: a document that already holds a list under [profiles.list] is left
    as it is by [ensure_profiles_container], which returns that list. *)
Theorem container_untouched (d prof : list (ustr * json)) (lst : list json) :
  py_get d (u "profiles") = JObj prof → py_get prof (u "list") = JArr lst →
  ensure_profiles_container (JObj d) = Returned lst
  ∧ store_profiles (JObj d) lst = JObj d.
Proof.
  intros Hprof Hlst. unfold ensure_profiles_container, store_profiles.
  rewrite Hprof, Hlst. split; [done|].
  rewrite <- Hlst, py_set_py_get_id by (by rewrite Hlst).
  rewrite <- Hprof, py_set_py_get_id by (by rewrite Hprof). done.
Qed.

Lemma container_untouched_witness :
  let prof := [(u "defaults", JObj []); (u "list", JArr [JStr (u "p")])] in
  let d := [(u "theme", JStr (u "dark")); (u "profiles", JObj prof)] in
  ensure_profiles_container (JObj d) = Returned [JStr (u "p")]
  ∧ store_profiles (JObj d) [JStr (u "p")] = JObj d.
Proof.
  intros prof d. by apply (container_untouched d prof [JStr (u "p")]).
Defined.

(** ** How the reconcilers end *)

Lemma host_ok_guid (h : SshHost) : host_ok h ↔ ∃ g, guid h = Returned g.
Proof.
  rewrite host_ok_iff. unfold make_profile. split.
  - intros [p Hp]. destruct (guid h) as [g|]; [by exists g|done].
  - intros [g ->]. by eexists.
Qed.

Lemma make_profile_raises_guid (h : SshHost) e :
  make_profile h = Raised e ↔ guid h = Raised e.
Proof.
  unfold make_profile. destruct (guid h); split; intros Heq; by simplify_eq.
Qed.

(** What [upsert_profiles] has done when it ends: nothing, when the index
    could not be built; otherwise it has run on the hosts that come before
    the first one whose identifier cannot be computed. *)
Lemma upsert_profiles_applied (P P' : list json) (H : list SshHost) r :
  upsert_profiles P H = (P', r) →
  (P' = P ∧ r = Raised TypeError
   ∧ Exists (λ p, unhashable_name p = true) P)
  ∨ ∃ bn hs1 hs2,
      H = hs1 ++ hs2 ∧ index_names 0 P ∅ = Returned bn ∧ indexes bn P
      ∧ Forall host_ok hs1
      ∧ P' = overwrite bn hs1 P ++ (the_profile <$> appended bn hs1)
      ∧ upsert_profiles P hs1 = (P', Returned tt)
      ∧ ((hs2 = [] ∧ r = Returned tt)
         ∨ ∃ h hs2', hs2 = h :: hs2'
                     ∧ guid h = Raised UnicodeEncodeError
                     ∧ r = Raised UnicodeEncodeError).
Proof.
  unfold upsert_profiles.
  destruct (index_names 0 P ∅) as [bn|e] eqn:Hidx.
  - intros Hloop. right. pose proof (index_names_indexes _ _ Hidx) as Hbn.
    assert (Hlt : ∀ s i, bn !! s = Some i → i < length P)
      by (intros; by eapply indexes_lt).
    destruct r as [[]|e].
    + exists bn, H, []. rewrite app_nil_r.
      pose proof (upsert_loop_returned _ _ _ _ Hloop) as Hok.
      rewrite upsert_loop_ok in Hloop by done. injection Hloop as <-.
      split_and!; [done..|by apply upsert_loop_ok|by left].
    + apply upsert_loop_raised in Hloop as (hs1 & h & hs2 & -> & Hh & Hloop);
        [|done].
      pose proof (upsert_loop_returned _ _ _ _ Hloop) as Hok.
      exists bn, hs1, (h :: hs2). split_and!; [done..| |done|].
      * rewrite upsert_loop_ok in Hloop by done. by injection Hloop as <-.
      * right. exists h, hs2.
        pose proof (make_profile_raises _ _ Hh) as ->.
        by apply make_profile_raises_guid in Hh.
  - intros [= <- <-]. left.
    by apply index_names_raises in Hidx as [-> ?].
Qed.

(** X5: the ways [upsert_profiles] ends. It returns exactly when no dict
    of the list has a non-empty list or dict as name and every host has an
    identifier. It raises [TypeError], with the list untouched, when a dict
    has such a name. Otherwise it raises [UnicodeEncodeError] at the first
    host without identifier, and leaves the list as the hosts before that
    one made it. It raises nothing else: the indexes of [by_name] are
    within the list. *)
Theorem upsert_outcome (P : list json) (H : list SshHost) :
  match upsert_profiles P H with
  | (P', Returned _) =>
      Forall (λ p, unhashable_name p = false) P
      ∧ Forall (λ h, ∃ g, guid h = Returned g) H
  | (P', Raised TypeError) =>
      P' = P ∧ Exists (λ p, unhashable_name p = true) P
  | (P', Raised UnicodeEncodeError) =>
      Forall (λ p, unhashable_name p = false) P
      ∧ ∃ hs1 h hs2,
          H = hs1 ++ h :: hs2
          ∧ Forall (λ h, ∃ g, guid h = Returned g) hs1
          ∧ guid h = Raised UnicodeEncodeError
          ∧ upsert_profiles P hs1 = (P', Returned tt)
  | (_, Raised _) => False
  end.
Proof.
  destruct (upsert_profiles P H) as [P' r] eqn:Hup.
  apply upsert_profiles_applied in Hup
    as [(-> & -> & Hex)
       | (bn & hs1 & hs2 & -> & Hidx & _ & Hok & _ & Hup1 & Hend)]; [done|].
  assert (HP : Forall (λ p, unhashable_name p = false) P)
    by (by eapply index_names_returned).
  assert (Hg : Forall (λ h, ∃ g, guid h = Returned g) hs1).
  { eapply Forall_impl; [exact Hok|]. intros h. by rewrite host_ok_guid. }
  destruct Hend as [[-> ->] | (h & hs2' & -> & Hh & ->)].
  - by rewrite app_nil_r.
  - split; [done|]. by exists hs1, h, hs2'.
Qed.

(** An entry that is not a dict named like a host is, after the call,
    where it was. *)
Lemma upsert_keeps_others_lookup (P : list json) (H : list SshHost) i p :
  P !! i = Some p → (∀ h, h ∈ H → get_name p ≠ JStr (name h)) →
  fst (upsert_profiles P H) !! i = Some p.
Proof.
  intros Hi Hp. destruct (upsert_profiles P H) as [P' r] eqn:Hup. simpl.
  apply upsert_profiles_applied in Hup
    as [(-> & _ & _)
       | (bn & hs1 & hs2 & -> & _ & Hbn & _ & -> & _ & _)]; [done|].
  rewrite lookup_app_l
    by (rewrite overwrite_length; by eapply lookup_lt_Some).
  rewrite overwrite_untouched; [done|].
  intros h Hh Hbi. specialize (Hbn (name h)). rewrite Hbi in Hbn.
  destruct Hbn as [(p' & Hp' & [Hname _]%str_name_Some) _].
  apply (Hp h); [apply elem_of_app; by left|]. congruence.
Qed.

(** X6: [upsert_profiles] removes and moves nothing, also when it raises:
    the list it leaves is at least as long, and an entry that is not a dict
    named like a host is where it was. *)
Theorem upsert_keeps_others (P : list json) (H : list SshHost) :
  let P' := fst (upsert_profiles P H) in
  length P ≤ length P'
  ∧ ∀ i p, P !! i = Some p →
           (∀ h, h ∈ H → get_name p ≠ JStr (name h)) →
           P' !! i = Some p.
Proof.
  intros P'. split; [|by apply upsert_keeps_others_lookup].
  unfold P'. clear P'.
  destruct (upsert_profiles P H) as [P' r] eqn:Hup. simpl.
  apply upsert_profiles_applied in Hup
    as [(-> & _ & _)
       | (bn & hs1 & hs2 & -> & _ & Hbn & _ & -> & _ & _)]; [done|].
  rewrite length_app, overwrite_length. lia.
Qed.

(** X7: [remove_profiles] either returns, leaving exactly the entries it
    keeps, in order (an entry is dropped when it is a dict named like a host
    or, with no host at all, a dict that looks like a profile of the tool),
    or raises [TypeError] on a dict whose name is a list or a dict, and
    then leaves the list as it was. What it leaves is always a sublist of
    what it was given. *)
Theorem remove_outcome (P : list json) (H : list SshHost) :
  fst (remove_profiles P H) `sublist_of` P
  ∧ ((names_hashable P
      ∧ remove_profiles P H
        = (filter (λ p, kept (host_names H) p = true) P, Returned tt))
     ∨ (¬ names_hashable P ∧ remove_profiles P H = (P, Raised TypeError))).
Proof.
  destruct (decide (names_hashable P)) as [HP | HP].
  - rewrite remove_profiles_ok by done. split; [apply sublist_filter|].
    by left.
  - rewrite remove_profiles_raises by done. split; [done|]. by right.
Qed.

Lemma names_hashable_filter (K : json → Prop) `{!∀ p, Decision (K p)}
    (P : list json) :
  names_hashable P → names_hashable (filter K P).
Proof.
  unfold names_hashable. rewrite !Forall_forall.
  intros HP p [_ Hp]%list_elem_of_filter. by apply HP.
Qed.

Lemma filter_filter_same {A} (K : A → Prop) `{!∀ x, Decision (K x)}
    (l : list A) :
  filter K (filter K l) = filter K l.
Proof. rewrite list_filter_filter. apply list_filter_iff. tauto. Qed.

(** X8: removing twice with the same hosts is removing once: the second
    call ends as the first did and leaves the list the first left. *)
Theorem remove_twice (P : list json) (H : list SshHost) :
  remove_profiles (fst (remove_profiles P H)) H = remove_profiles P H.
Proof.
  destruct (decide (names_hashable P)) as [HP | HP].
  - rewrite (remove_profiles_ok P) by done. simpl.
    rewrite remove_profiles_ok by (by apply names_hashable_filter).
    by rewrite filter_filter_same.
  - rewrite (remove_profiles_raises P) by done. simpl.
    by rewrite remove_profiles_raises.
Qed.

Lemma filter_all {A} (K : A → Prop) `{!∀ x, Decision (K x)} (l : list A) :
  Forall K l → filter K l = l.
Proof.
  induction 1 as [|x l Hx _ IH]; [done|].
  by rewrite filter_cons, decide_True, IH.
Qed.

Lemma overwrite_none bn hs (l : list json) :
  (∀ h, h ∈ hs → bn !! name h = None) → overwrite bn hs l = l.
Proof.
  intros Hhs. apply list_eq. intros i. apply overwrite_untouched.
  intros h Hh. by rewrite Hhs.
Qed.

Lemma kept_not_named (H : list SshHost) (h : SshHost) (p : json) :
  h ∈ H → get_name p = JStr (name h) → kept (host_names H) p = false.
Proof.
  intros Hh Hp. unfold kept, named_in. rewrite Hp.
  rewrite bool_decide_eq_true_2; [done|].
  unfold host_names. apply elem_of_list_to_set. by apply list_elem_of_fmap_2.
Qed.

(** X9: removal, then upsert, with the same hosts (what [main] does with
    both [--remove] and [--add]): when the names of the list can all be
    hashed and every host has an identifier, the list ends as the entries
    that the removal keeps, in order, followed by one profile per host, in
    the order of the hosts. *)
Theorem remove_then_upsert (P : list json) (H : list SshHost) :
  names_hashable P → Forall host_ok H →
  upsert_profiles (fst (remove_profiles P H)) H
  = (filter (λ p, kept (host_names H) p = true) P ++ (the_profile <$> H),
     Returned tt).
Proof.
  intros HP Hok. rewrite remove_profiles_ok by done. simpl.
  set (P1 := filter _ P).
  destruct (upsert_profiles_ok P1 H) as (bn & Hbn & ->); [|done|].
  { apply names_hashable_unhashable_name. by apply names_hashable_filter. }
  assert (Hnone : ∀ h, h ∈ H → bn !! name h = None).
  { intros h Hh. pose proof (Hbn (name h)) as Hs.
    destruct (bn !! name h) as [i|]; [|done].
    destruct Hs as [(p & Hp & [Hname _]%str_name_Some) _].
    apply list_elem_of_lookup_2, list_elem_of_filter in Hp as [Hkept _].
    by rewrite (kept_not_named H h p) in Hkept. }
  rewrite overwrite_none by done. do 3 f_equal.
  unfold appended. apply filter_all, Forall_forall. done.
Qed.

Lemma remove_then_upsert_witness :
  let P := [JObj [(u "name", JStr (u "A")); (u "colorScheme", JStr (u "Dark"))];
            JStr (u "foreign");
            JObj [(u "name", JStr (u "Z"))]] in
  let H := [host_named (u "B"); host_named (u "A")] in
  upsert_profiles (fst (remove_profiles P H)) H
  = ([JStr (u "foreign"); JObj [(u "name", JStr (u "Z"))];
      the_profile (host_named (u "B")); the_profile (host_named (u "A"))],
     Returned tt).
Proof.
  intros P H.
  assert (HP : names_hashable P)
    by (apply (bool_decide_eq_true_1 _); by vm_compute).
  assert (Hok : Forall host_ok H) by (repeat constructor; by vm_compute).
  rewrite (remove_then_upsert P H HP Hok). by vm_compute.
Defined.

(** A profile written by [upsert_profiles] passes the test by which
    [remove_profiles] recognises the profiles of the tool. *)
Lemma tool_owned_the_profile (h : SshHost) :
  host_ok h → tool_owned (the_profile h) = true.
Proof.
  intros (g & Hg & ->)%the_profile_fields. apply tool_owned_iff.
  eexists _, (name h), g. split_and!; done.
Qed.

Lemma filter_replaced_sublist {A} (K : A → Prop) `{!∀ x, Decision (K x)}
    (l k : list A) :
  Forall2 (λ x y, x = y ∨ ¬ K x) l k → filter K l `sublist_of` filter K k.
Proof.
  induction 1 as [|x y l k [-> | Hx] _ IH]; [done|..].
  - rewrite !filter_cons. destruct (decide (K y)); [by apply sublist_skip|done].
  - rewrite !filter_cons, (decide_False (P := K x)) by done.
    destruct (decide (K y)); [by apply sublist_cons|done].
Qed.

(** X10: whatever the hosts were, a removal with no host undoes what an
    upsert wrote: after [upsert_profiles] on a list whose names can be
    hashed, [remove_profiles] with no host returns, and leaves a sublist of
    the first list that holds no profile of the tool and every entry of the
    first list that is neither a profile of the tool nor named like a
    host. *)
Theorem upsert_then_remove_all (P : list json) (H : list SshHost) :
  names_hashable P →
  ∃ P'',
    remove_profiles (fst (upsert_profiles P H)) [] = (P'', Returned tt)
    ∧ P'' `sublist_of` P
    ∧ Forall (λ p, tool_owned p = false) P''
    ∧ ∀ p, p ∈ P → tool_owned p = false →
           (∀ h, h ∈ H → get_name p ≠ JStr (name h)) → p ∈ P''.
Proof.
  intros HP.
  destruct (upsert_profiles P H) as [P' r] eqn:Hup. simpl.
  pose proof Hup as
    [(-> & _ & Hex)
    | (bn & hs1 & hs2 & -> & _ & Hbn & Hok & HP' & _ & _)]%upsert_profiles_applied.
  { apply names_hashable_unhashable_name in HP.
    apply Exists_exists in Hex as (p & Hp & Hun).
    rewrite Forall_forall in HP. by rewrite (HP p Hp) in Hun. }
  assert (Hh' : names_hashable P').
  { unfold names_hashable.
    apply (Forall_fmap get_name (λ n, hashable n = true)).
    rewrite HP', upsert_names by done. apply Forall_app.
    split; [by apply Forall_fmap|].
    apply Forall_fmap, Forall_forall. by intros h _. }
  rewrite remove_profiles_no_hosts by done. eexists. split; [done|].
  assert (Hnew : filter (λ p, tool_owned p = false)
                   (the_profile <$> appended bn hs1) = []).
  { apply filter_none, Forall_fmap, Forall_forall.
    intros h [_ Hh]%list_elem_of_filter. simpl.
    rewrite tool_owned_the_profile; [done|].
    rewrite Forall_forall in Hok. by apply Hok. }
  split_and!.
  - rewrite HP', filter_app, Hnew, app_nil_r.
    etrans; [|apply (sublist_filter (λ p, tool_owned p = false))].
    apply filter_replaced_sublist, Forall2_same_length_lookup.
    split; [by rewrite overwrite_length|]. intros i q p Hq Hp.
    destruct (overwrite_lookup bn hs1 P i)
      as [[Hsame _] | (l1 & h & l2 & -> & _ & _ & Hlk)].
    + left. congruence.
    + right. rewrite Hlk in Hq by (by eapply lookup_lt_Some).
      injection Hq as <-. rewrite tool_owned_the_profile; [done|].
      rewrite Forall_forall in Hok. apply Hok, elem_of_app. right. by left.
  - apply Forall_forall. by intros p [? _]%list_elem_of_filter.
  - intros p Hp Hown Hname. apply list_elem_of_filter. split; [done|].
    apply list_elem_of_lookup_1 in Hp as [i Hi].
    apply (list_elem_of_lookup_2 _ i).
    replace P' with (fst (upsert_profiles P (hs1 ++ hs2))) by (by rewrite Hup).
    by apply upsert_keeps_others_lookup.
Qed.

Lemma upsert_then_remove_all_witness :
  let P := [JStr (u "foreign");
            JObj [(u "name", JStr (u "A")); (u "colorScheme", JStr (u "Dark"))];
            the_profile (host_named (u "old"))] in
  let H := [host_named (u "A"); host_named (u "B")] in
  ∃ P'',
    remove_profiles (fst (upsert_profiles P H)) [] = (P'', Returned tt)
    ∧ P'' `sublist_of` P
    ∧ Forall (λ p, tool_owned p = false) P''
    ∧ ∀ p, p ∈ P → tool_owned p = false →
           (∀ h, h ∈ H → get_name p ≠ JStr (name h)) → p ∈ P''.
Proof.
  intros P H. apply (upsert_then_remove_all P H).
  apply (bool_decide_eq_true_1 _). by vm_compute.
Defined.

(** ** The run of [main] *)

(** The loop of [main] over the files, in closed form. *)
Lemma parse_all_run `{UnicodeData} `{System} (args : Args)
    (files : list ustr) (all_hosts : list SshHost) (w : world) :
  parse_all args files all_hosts w
  = (mkWorld (fs w) (log w ++ (files ≫= file_records args (fs w))),
     Returned (all_hosts ++ (files ≫= file_hosts (fs w)))).
Proof.
  revert all_hosts w. induction files as [|f files IH]; intros all_hosts w.
  - simpl. rewrite !app_nil_r. by destruct w.
  - cbn [parse_all]. unfold mbind, M_bind, bind, with_fs at 1.
    rewrite !bind_cons. unfold file_hosts at 1, file_records at 1.
    destruct (fs_read (fs w) f) as [text|e]; unfold emit.
    + destruct (debug args); simpl; rewrite IH; simpl.
      * by rewrite <- !app_assoc.
      * by rewrite <- app_assoc.
    + simpl. rewrite IH. simpl. by rewrite <- app_assoc.
Qed.

(** X11: the loop of [main] over the files never raises and leaves the
    file system as it is: it returns the hosts it was given followed by the
    hosts of each file, in the order of the files, a file that cannot be
    read giving no host and a warning in the log. *)
Theorem parse_all_collects `{UnicodeData} `{System} (args : Args)
    (files : list ustr) (all_hosts : list SshHost) (w : world) :
  parse_all args files all_hosts w
  = (mkWorld (fs w) (log w ++ (files ≫= file_records args (fs w))),
     Returned (all_hosts ++ (files ≫= file_hosts (fs w)))).
Proof. apply parse_all_run. Qed.

(** X12: a run of [main] changes the file system in [save_settings] only,
    its last step. Without an action it returns 2 and the file system is as
    it was. With an action, when a step before [save_settings] raises, the
    run raises that error and the file system is as it was; otherwise the
    file system is the one that saving left: the parent directories created
    and, at the settings path, the document loaded with the reconciled list
    under [profiles.list], followed by a line feed, as far as the save
    went. The run returns 0 when the save returned and raises the error of
    the save otherwise. *)
Theorem main_writes_settings_only `{UnicodeData} `{System}
    (args : Args) (w : world) :
  if negb (add args) && negb (remove args)
  then snd (main args w) = Returned 2%Z ∧ fs (fst (main args w)) = fs w
  else
    match to_save args w with
    | Raised e =>
        snd (main args w) = Raised e ∧ fs (fst (main args w)) = fs w
    | Returned (p, doc) =>
        let saved := fs_save (fs w) p (json_dumps doc ++ [LF]) in
        fs (fst (main args w)) = fst saved
        ∧ snd (main args w) = status_after_save (snd saved)
    end.
Proof.
  unfold main.
  destruct (negb (add args) && negb (remove args)).
  { unfold mbind, M_bind, bind, emit. simpl. done. }
  assert (Hh : discover_ssh_config_files (fs w) (expanduser (ssh_dir args))
                 (negb (nosubdir args)) (exclude args) ≫= file_hosts (fs w)
               = discovered_hosts args (fs w)) by done.
  unfold to_save, settings_path_of, reconciled, reconcile_step,
    status_after_save.
  unfold mbind, M_bind, bind, mret, M_ret, ret, settings_path_for,
    discover_call, read_fs, emit, lift, run, load_settings, save_settings.
  destruct (opt_truthy (terminal args)); simpl;
    [|destruct (find_default_settings_path (fs w)) as [p|e]; [|done]].
  all: destruct (debug args); simpl.
  all: destruct (fs_files_error (fs w) _ _); simpl; try done.
  all: rewrite parse_all_run; simpl; rewrite Hh.
  all: generalize (discovered_hosts args (fs w)); intros hosts.
  all: destruct (fs_exists (fs w) _); simpl;
    [destruct (fs_read (fs w) _) as [text|e]; simpl;
       [destruct (json_loads text) as [doc|e]; simpl|]
    |]; try done.
  all: repeat (case_match; simplify_eq/=; try done).
Qed.

Lemma upsert_profiles_nil (H : list SshHost) :
  Forall host_ok H → upsert_profiles [] H = (the_profile <$> H, Returned tt).
Proof.
  intros Hok. unfold upsert_profiles. simpl.
  rewrite upsert_loop_ok; [|by intros s i; rewrite lookup_empty|done].
  rewrite overwrite_none by (by intros; apply lookup_empty). simpl.
  do 2 f_equal. apply filter_all, Forall_forall. intros h _.
  apply lookup_empty.
Qed.

(** X13: the first run with [--add], when the settings path is found, the
    directory can be walked, there is no settings file yet and the look
    for the fallback of the schema returns: if every host found has an
    identifier, [main] saves, at the settings path, the
    minimal document of [load_settings] with one profile per host under
    [profiles.list], in the order in which the hosts were found, followed
    by a line feed. The file system is the one that this save leaves; the
    run returns 0 when the save returns, and raises its error otherwise. *)
Theorem main_first_run `{UnicodeData} `{System} (args : Args) (w : world)
    (p : ustr) (fallback : option ustr) :
  add args = true →
  settings_path_of args (fs w) = Returned p →
  fs_files_error (fs w) (expanduser (ssh_dir args)) (negb (nosubdir args))
  = None →
  fs_exists (fs w) p = false →
  Forall host_ok (discovered_hosts args (fs w)) →
  load_schema_fallback_from_example (fs w) = Returned fallback →
  let saved :=
    fs_save (fs w) p
      (json_dumps
         (fresh_settings (the_profile <$> discovered_hosts args (fs w)))
       ++ [LF]) in
  fs (fst (main args w)) = fst saved
  ∧ snd (main args w) = status_after_save (snd saved).
Proof.
  unfold settings_path_of, status_after_save.
  intros Hadd Hpath Hwalk Hnew Hok Hfallback.
  assert (Hh : discover_ssh_config_files (fs w) (expanduser (ssh_dir args))
                 (negb (nosubdir args)) (exclude args) ≫= file_hosts (fs w)
               = discovered_hosts args (fs w)) by done.
  unfold main. rewrite Hadd. cbn [negb andb].
  unfold mbind, M_bind, bind, mret, M_ret, ret, settings_path_for,
    discover_call, read_fs, emit, lift, run, load_settings, save_settings.
  destruct (opt_truthy (terminal args)); simpl;
    [injection Hpath as Hpath|]; rewrite Hpath; simpl.
  all: destruct (debug args); simpl; rewrite Hwalk; simpl;
    rewrite parse_all_run; simpl; rewrite Hh, Hnew; simpl.
  all: destruct (remove args); simpl; rewrite upsert_profiles_nil by done;
    simpl; rewrite Hfallback; simpl.
  all: by destruct (snd (fs_save _ _ _)).
Qed.

(** The text of a small document, as [json.dumps(data, indent=4)] gives
    it. *)
Example dumps_indented :
  JsonText.dumps (JArr [JInt 1; JArr []; JInt (-120); JNull; JBool true])
  = u "[
    1,
    [],
    -120,
    null,
    true
]".
Proof. reflexivity. Qed.

Lemma main_first_run_witness :
  let args := mkArgs false (u "/home/me/.ssh") false
                (Some (u "/mnt/c/settings.json")) true false [] in
  let w := @mkWorld memory_system
             ({[ u "/home/me/.ssh/config" := u "Host web
  User bob
" ]} : gmap ustr ustr) [] in
  let doc :=
    fresh_settings
      [the_profile {| name := u "web"; hostname := None;
                      user := Some (u "bob"); port := None;
                      identity_file := None |}] in
  snd (main (H := ascii_tables) (H0 := memory_system) args w) = Returned 0%Z
  ∧ fs (fst (main (H := ascii_tables) (H0 := memory_system) args w))
    = <[u "/mnt/c/settings.json" := JsonText.dumps doc ++ [LF]]> (fs w)
  ∧ length (JsonText.dumps doc) = 396%nat.
Proof.
  intros args w doc.
  assert (Hhosts : discovered_hosts (H := ascii_tables) (H0 := memory_system)
                     args (fs w)
                   = [ {| name := u "web"; hostname := None;
                          user := Some (u "bob"); port := None;
                          identity_file := None |} ]) by (by vm_compute).
  destruct (main_first_run (H := ascii_tables) (H0 := memory_system) args w
              (u "/mnt/c/settings.json") None)
    as [Hfs Hret].
  - reflexivity.
  - reflexivity.
  - reflexivity.
  - by vm_compute.
  - rewrite Hhosts. constructor; [by vm_compute|constructor].
  - reflexivity.
  - split; [exact Hret|]. split; [|vm_compute; reflexivity].
    rewrite Hfs, Hhosts. reflexivity.
Defined.

(** ** The names and the fields of the hosts parsed *)

(** Tokens of [split] are not empty and hold no whitespace. *)
Lemma split_from_tokens (tok s : ustr) :
  Forall (λ c, py_isspace c = false) tok →
  Forall (λ t, t ≠ [] ∧ Forall (λ c, py_isspace c = false) t)
    (split_from tok s).
Proof.
  assert (Hrev : ∀ c (l : ustr),
            Forall (λ c, py_isspace c = false) (c :: l) →
            reverse (c :: l) ≠ []
            ∧ Forall (λ c, py_isspace c = false) (reverse (c :: l))).
  { intros c l Hl. split.
    - intros Heq. apply (f_equal length) in Heq.
      by rewrite length_reverse in Heq.
    - by apply Forall_reverse. }
  revert tok. induction s as [|c s IH]; intros tok Htok; cbn [split_from].
  - destruct tok; [constructor|]. constructor; [by apply Hrev|constructor].
  - destruct (py_isspace c) eqn:Hc; [|apply IH; by constructor].
    destruct tok; [by apply IH|].
    constructor; [by apply Hrev|by apply IH].
Qed.

Lemma strip_by_head p (c : Z) (s : ustr) :
  p c = false → strip_by p (c :: s) = c :: rstrip_by p s.
Proof.
  intros Hc. unfold strip_by. cbn [lstrip_by]. rewrite Hc.
  apply (rstrip_by_app_keep p [] s c Hc).
Qed.

(** A line that [HOST_LINE_RE] matches is neither blank nor a comment. *)
Lemma host_line_not_skipped (line patterns : ustr) :
  host_line_match line = Some patterns →
  negb (str_truthy (py_strip line)) || py_startswith (py_strip line) (u "#")
  = false.
Proof.
  intros (c1 & c2 & c3 & c4 & w & rest & -> & H1 & _)%host_line_match_Some.
  assert (Hc1 : py_isspace c1 = false) by (by destruct H1 as [-> | ->]).
  unfold py_strip. rewrite strip_by_head by done. simpl.
  by destruct H1 as [-> | ->].
Qed.

Lemma name_host_of_block (b : gmap ustr ustr) (l : list ustr) :
  name <$> map (host_of_block b) l = l.
Proof. induction l as [|x l IH]; [done|]. cbn. f_equal. exact IH. Qed.

(** One turn of the loop, on the names: the names emitted and pending
    grow by the names of the line that are no wildcard. *)
Lemma parse_line_names `{UnicodeData} (st : parser) (raw : ustr) :
  (name <$> hosts (parse_line st raw))
  ++ filter (λ n, is_wildcard n = false) (current_names (parse_line st raw))
  = ((name <$> hosts st)
     ++ filter (λ n, is_wildcard n = false) (current_names st))
    ++ filter (λ n, is_wildcard n = false) (host_patterns raw).
Proof.
  unfold parse_line, host_patterns.
  destruct (host_line_match (py_strip_nl raw)) as [patterns|] eqn:Hm.
  - rewrite (host_line_not_skipped _ _ Hm). cbn [hosts current_names].
    by rewrite flush_hosts, fmap_app, name_host_of_block.
  - rewrite filter_nil, app_nil_r. destruct (negb _ || _); [done|].
    destruct (kv_match _) as [[key value]|]; [|done].
    by destruct (bool_decide _).
Qed.

Lemma parse_lines_names `{UnicodeData} (lines : list ustr) :
  name <$> parse_lines lines
  = filter (λ n, is_wildcard n = false) (lines ≫= host_patterns).
Proof.
  unfold parse_lines. rewrite flush_hosts, fmap_app, name_host_of_block.
  assert (Hfold : ∀ st,
            (name <$> hosts (fold_left parse_line lines st))
            ++ filter (λ n, is_wildcard n = false)
                 (current_names (fold_left parse_line lines st))
            = ((name <$> hosts st)
               ++ filter (λ n, is_wildcard n = false) (current_names st))
              ++ filter (λ n, is_wildcard n = false) (lines ≫= host_patterns)).
  { induction lines as [|raw lines IH]; intros st.
    - cbn. by rewrite app_nil_r.
    - cbn [fold_left]. rewrite IH, parse_line_names, bind_cons, filter_app.
      by rewrite <- !app_assoc. }
  by rewrite Hfold.
Qed.

(** X14: the names of the hosts that [parse_ssh_config] emits are, in the
    order of the file, the whitespace-separated tokens of the lines that
    [HOST_LINE_RE] matches, those with [*] or [?] left out. So a name is
    never empty and holds no whitespace, no [*] and no [?]. *)
Theorem parsed_names `{UnicodeData} (text : ustr) :
  name <$> parse_ssh_config text
  = filter (λ n, is_wildcard n = false) (readlines text ≫= host_patterns)
  ∧ Forall (λ h, name h ≠ []
                 ∧ Forall (λ c, py_isspace c = false) (name h)
                 ∧ (42%Z ∉ name h) ∧ (63%Z ∉ name h))
      (parse_ssh_config text).
Proof.
  unfold parse_ssh_config. split; [apply parse_lines_names|].
  apply (Forall_fmap name (λ n, n ≠ [] ∧ Forall (λ c, py_isspace c = false) n
                                ∧ (42%Z ∉ n) ∧ (63%Z ∉ n))).
  rewrite parse_lines_names. apply Forall_forall.
  intros n [Hw Hn]%list_elem_of_filter. apply is_wildcard_false in Hw.
  apply list_elem_of_bind in Hn as (raw & Hn & _). unfold host_patterns in Hn.
  destruct (host_line_match _) as [patterns|]; [|by apply elem_of_nil in Hn].
  pose proof (split_from_tokens [] patterns (Forall_nil_2 _)) as Htok.
  rewrite Forall_forall in Htok. destruct (Htok n Hn). tauto.
Qed.

Lemma lstrip_by_head p (s r : ustr) (c : Z) :
  lstrip_by p s = c :: r → p c = false.
Proof.
  induction s as [|a s IH]; simpl; [done|].
  destruct (p a) eqn:Ha; [done|]. by intros [= <- _].
Qed.

Lemma lstrip_by_idem p (s : ustr) :
  lstrip_by p (lstrip_by p s) = lstrip_by p s.
Proof.
  destruct (lstrip_by p s) as [|c r] eqn:Hs; [done|].
  simpl. by rewrite (lstrip_by_head p s r c Hs).
Qed.

Lemma rstrip_by_idem p (s : ustr) :
  rstrip_by p (rstrip_by p s) = rstrip_by p s.
Proof. unfold rstrip_by. by rewrite reverse_involutive, lstrip_by_idem. Qed.

Lemma rstrip_by_head p (c : Z) (r : ustr) :
  p c = false → rstrip_by p (c :: r) = c :: rstrip_by p r.
Proof. intros Hc. apply (rstrip_by_app_keep p [] r c Hc). Qed.

Lemma strip_by_idem p (s : ustr) : strip_by p (strip_by p s) = strip_by p s.
Proof.
  unfold strip_by at 2 3. destruct (lstrip_by p s) as [|c r] eqn:Hs; [done|].
  pose proof (lstrip_by_head p s r c Hs) as Hc.
  rewrite rstrip_by_head by done.
  rewrite strip_by_head by done. by rewrite rstrip_by_idem.
Qed.

(** The last character of a stripped string is none of those stripped. *)
Lemma strip_by_last p (s y : ustr) (c : Z) :
  strip_by p s = y ++ [c] → p c = false.
Proof.
  unfold strip_by, rstrip_by. intros Hs.
  apply (f_equal reverse) in Hs.
  rewrite reverse_involutive, reverse_app in Hs. simpl in Hs.
  by eapply lstrip_by_head.
Qed.

Lemma strip_by_keeps_last p (v : ustr) (z : Z) :
  p z = false → strip_by p (v ++ [z]) ≠ [].
Proof.
  intros Hz. unfold strip_by. rewrite lstrip_by_app_keep by done.
  rewrite rstrip_by_app_keep by done. by destruct (lstrip_by p v).
Qed.

(** What [KV_RE] matched: the key, whitespace, the value, and nothing or
    a final line feed. *)
Lemma kv_match_shape `{UnicodeData} (s key value : ustr) :
  kv_match s = Some (key, value) →
  ∃ sp r3, s = key ++ sp ++ value ++ r3
           ∧ key ≠ [] ∧ Forall (λ c, re_word c = true) key
           ∧ sp ≠ [] ∧ Forall (λ c, py_isspace c = true) sp
           ∧ value ≠ [] ∧ Forall (λ c, re_dot c = true) value
           ∧ (r3 = [] ∨ r3 = [LF]).
Proof.
  unfold kv_match. intros Hm.
  apply re_plus_Some in Hm as (m & r & -> & Hne & Hword & Hm).
  apply re_plus_Some in Hm as (sp & r2 & -> & Hsp_ne & Hsp & Hm).
  apply re_plus_Some in Hm as (v & r3 & -> & Hv_ne & Hv & Hm).
  destruct (re_at_end r3) eqn:Hend; [|done]. injection Hm as -> ->.
  exists sp, r3. split_and!; [done..|].
  destruct r3 as [|c [|c' r3]]; [by left| |done].
  right. simpl in Hend. apply Z.eqb_eq in Hend. by subst.
Qed.

(** The value that the parser stores for a directive is stripped. *)
Lemma kv_value_stripped `{UnicodeData} (line key value : ustr) :
  kv_match (py_strip line) = Some (key, value) → stripped (py_strip value).
Proof.
  intros Hm. split; [|apply strip_by_idem].
  pose proof (kv_match_shape _ _ _ Hm)
    as (sp & r3 & Hs & _ & _ & _ & _ & Hv & _ & Hr3).
  destruct (exists_last Hv) as (v & z & ->).
  apply strip_by_keeps_last.
  destruct Hr3 as [-> | ->].
  - rewrite app_nil_r, !app_assoc in Hs. by apply strip_by_last in Hs.
  - rewrite !app_assoc in Hs. by apply strip_by_last in Hs.
Qed.

(** One turn of the loop keeps the values stored and emitted stripped. *)
Lemma parse_line_stripped `{UnicodeData} (st : parser) (raw : ustr) :
  map_Forall (λ _ v, stripped v) (current_block st) →
  Forall fields_stripped (hosts st) →
  map_Forall (λ _ v, stripped v) (current_block (parse_line st raw))
  ∧ Forall fields_stripped (hosts (parse_line st raw)).
Proof.
  intros Hb Hh.
  assert (Hflush : map_Forall (λ _ v, stripped v) (current_block (flush st))
                   ∧ Forall fields_stripped (hosts (flush st))).
  { split.
    - unfold flush. destruct (current_names st); [done|]. apply map_Forall_empty.
    - rewrite flush_hosts. apply Forall_app. split; [done|].
      apply Forall_forall. intros h (hn & <- & _)%list_elem_of_In%in_map_iff.
      unfold fields_stripped, host_of_block. cbn [hostname user port identity_file].
      repeat (constructor; [intros v Hv; by apply (Hb _ _ Hv)|]). constructor. }
  unfold parse_line. destruct (negb _ || _); [done|].
  destruct (host_line_match _); [done|].
  destruct (kv_match _) as [[key value]|] eqn:Hkv; [|done].
  destruct (bool_decide _); [|done]. split; [|done]. cbn [current_block].
  apply map_Forall_insert_2; [|done]. by eapply kv_value_stripped.
Qed.

Lemma parse_lines_stripped `{UnicodeData} (lines : list ustr) :
  Forall fields_stripped (parse_lines lines).
Proof.
  unfold parse_lines.
  assert (Hfold : ∀ st,
            map_Forall (λ _ v, stripped v) (current_block st) →
            Forall fields_stripped (hosts st) →
            map_Forall (λ _ v, stripped v)
              (current_block (fold_left parse_line lines st))
            ∧ Forall fields_stripped (hosts (fold_left parse_line lines st))).
  { induction lines as [|raw lines IH]; intros st Hb Hh; [done|].
    cbn [fold_left]. destruct (parse_line_stripped st raw Hb Hh).
    by apply IH. }
  destruct (Hfold parser_init) as [Hb Hh]; [apply map_Forall_empty|constructor|].
  rewrite flush_hosts. apply Forall_app. split; [done|].
  apply Forall_forall. intros h (hn & <- & _)%list_elem_of_In%in_map_iff.
  unfold fields_stripped, host_of_block. cbn [hostname user port identity_file].
  repeat (constructor; [intros v Hv; by apply (Hb _ _ Hv)|]). constructor.
Qed.

(** X15: every field of a host that [parse_ssh_config] emits is absent
    or a stripped value: it is not empty and has no whitespace at either
    end. *)
Theorem parsed_fields_stripped `{UnicodeData} (text : ustr) :
  Forall (λ h, ∀ v, v ∈ [hostname h; user h; port h; identity_file h]
                    → v = None ∨ ∃ s, v = Some s ∧ s ≠ [] ∧ py_strip s = s)
    (parse_ssh_config text).
Proof.
  unfold parse_ssh_config.
  eapply Forall_impl; [apply parse_lines_stripped|].
  intros h Hh v Hv. unfold fields_stripped in Hh. rewrite Forall_forall in Hh.
  destruct v as [s|]; [right|by left]. exists s. split; [done|].
  by apply (Hh (Some s)).
Qed.

(** X16: the command line of a host that [parse_ssh_config] emits is the
    one of the specification read literally: [ssh], then [-p] and the port
    when a port was stored, then [-i] and the identity file when one was
    stored, then the target, which is the host name when one was stored and
    the name otherwise, after the user and [@] when a user was stored. *)
Theorem parsed_commandline `{UnicodeData} (text : ustr) :
  Forall (λ h, commandline h = spec_commandline h) (parse_ssh_config text).
Proof.
  unfold parse_ssh_config.
  eapply Forall_impl; [apply parse_lines_stripped|].
  intros h Hh. unfold fields_stripped in Hh.
  apply Forall_cons in Hh as [H1 Hh]. apply Forall_cons in Hh as [H2 Hh].
  apply Forall_cons in Hh as [H3 Hh]. apply Forall_cons in Hh as [H4 _].
  apply commandline_spec_nonempty.
  - intros Heq. by destruct (H1 _ Heq).
  - intros Heq. by destruct (H2 _ Heq).
  - intros Heq. by destruct (H3 _ Heq).
  - intros Heq. by destruct (H4 _ Heq).
Qed.

(** ** Lines that the parser reads *)

(** [X+] is greedy: when the whole run of [X] can be taken, it is. *)
Lemma re_plus_from_greedy {A} p (acc m rest : ustr)
    (k : ustr → ustr → option A) r :
  m ≠ [] → Forall (λ c, p c = true) m →
  match rest with [] => True | c :: _ => p c = false end →
  k (reverse acc ++ m) rest = Some r →
  re_plus_from p acc (m ++ rest) k = Some r.
Proof.
  intros Hne Hm Hrest. revert acc.
  induction Hm as [|c m Hc Hm IH]; intros acc Hk; [done|].
  cbn [app re_plus_from]. rewrite Hc. destruct m as [|c2 m].
  - cbn [app]. 
    assert (Hnone : re_plus_from p (c :: acc) rest k = None).
    { destruct rest as [|c' rest]; [done|]. simpl. by rewrite Hrest. }
    rewrite Hnone. by rewrite reverse_cons.
  - rewrite IH; [done|done|]. by rewrite reverse_cons, <- app_assoc.
Qed.

Lemma re_plus_greedy {A} p (m rest : ustr) (k : ustr → ustr → option A) r :
  m ≠ [] → Forall (λ c, p c = true) m →
  match rest with [] => True | c :: _ => p c = false end →
  k m rest = Some r →
  re_plus p (m ++ rest) k = Some r.
Proof. intros. by apply re_plus_from_greedy. Qed.

Lemma is_host_keyword_inv (kw : ustr) :
  is_host_keyword kw →
  ∃ c1 c2 c3 c4, kw = [c1; c2; c3; c4]
    ∧ (c1 = 104 ∨ c1 = 72)%Z ∧ (c2 = 111 ∨ c2 = 79)%Z
    ∧ (c3 = 115 ∨ c3 = 83 ∨ c3 = 0x17F)%Z ∧ (c4 = 116 ∨ c4 = 84)%Z.
Proof.
  unfold is_host_keyword. intros Hkw.
  destruct kw as [|c1 [|c2 [|c3 [|c4 tl]]]]; simpl in Hkw; try done;
    repeat (match type of Hkw with
            | (if ?b then _ else _) = _ => destruct b eqn:?; [|done]
            end); try done.
  injection Hkw as ->. exists c1, c2, c3, c4. split; [done|]. lia.
Qed.

(** A line made of the keyword, whitespace and a rest that starts with
    something else: [HOST_LINE_RE] matches it, the group is the rest. *)
Lemma host_line_match_rest (kw ws rest : ustr) (c : Z) :
  is_host_keyword kw → ws ≠ [] → Forall (λ c, py_isspace c = true) ws →
  py_isspace c = false → (LF ∉ c :: rest) →
  host_line_match (kw ++ ws ++ c :: rest) = Some (c :: rest).
Proof.
  intros Hkw Hne Hws Hc Hlf. unfold host_line_match.
  assert (Hchars : re_chars host_keyword (kw ++ ws ++ c :: rest)
                   = Some (ws ++ c :: rest)).
  { apply is_host_keyword_inv in Hkw
      as (c1 & c2 & c3 & c4 & -> & H1 & H2 & H3 & H4).
    simpl.
    replace ((c1 =? 104) || (c1 =? 72))%Z with true by lia.
    replace ((c2 =? 111) || (c2 =? 79))%Z with true by lia.
    replace ((c3 =? 115) || (c3 =? 83) || (c3 =? 383))%Z with true by lia.
    by replace ((c4 =? 116) || (c4 =? 84))%Z with true by lia. }
  rewrite Hchars. apply re_plus_greedy; [done..|].
  rewrite <- (app_nil_r (c :: rest)) at 1.
  apply re_plus_greedy; [done| |done|done].
  apply Forall_forall. intros x Hx. unfold re_dot.
  apply negb_true_iff, Z.eqb_neq. intros ->. done.
Qed.

(** X17: a line that starts with the keyword [Host], in any letter case,
    followed by whitespace and by something else starts a block: the
    pending block is flushed and the names of the new block are the
    whitespace-separated tokens of what follows the keyword. *)
Theorem host_line_starts_block `{UnicodeData} (st : parser)
    (kw ws rest eol : ustr) (c : Z) :
  is_host_keyword kw → ws ≠ [] → Forall (λ c, py_isspace c = true) ws →
  py_isspace c = false → (LF ∉ ws ++ c :: rest) →
  eol = [] ∨ eol = [LF] →
  parse_line st (kw ++ ws ++ c :: rest ++ eol)
  = {| hosts := hosts (flush st);
       current_names := py_split (c :: rest);
       current_block := current_block (flush st) |}.
Proof.
  intros Hkw Hne Hws Hc Hlf Heol.
  assert (Hbody : LF ∉ kw ++ ws ++ c :: rest).
  { apply is_host_keyword_inv in Hkw
      as (c1 & c2 & c3 & c4 & -> & H1 & H2 & H3 & H4).
    cbn [app]. rewrite !not_elem_of_cons. unfold LF. split_and!; [lia..|done]. }
  assert (Hline : py_strip_nl (kw ++ ws ++ c :: rest ++ eol)
                  = kw ++ ws ++ c :: rest).
  { replace (kw ++ ws ++ c :: rest ++ eol)
      with ((kw ++ ws ++ c :: rest) ++ eol)
      by (by rewrite <- !app_assoc).
    by apply py_strip_nl_line. }
  assert (Hm : host_line_match (kw ++ ws ++ c :: rest) = Some (c :: rest)).
  { apply host_line_match_rest; [done..|].
    intros Hin. apply Hlf, elem_of_app. by right. }
  unfold parse_line. rewrite Hline, (host_line_not_skipped _ _ Hm).
  by rewrite Hm.
Qed.

Lemma host_line_starts_block_witness :
  parse_line (H := ascii_tables) parser_init (u "HOST web1  *.lan web2
")
  = {| hosts := []; current_names := [u "web1"; u "*.lan"; u "web2"];
       current_block := ∅ |}.
Proof.
  apply (host_line_starts_block (H := ascii_tables) parser_init
           (u "HOST") (u " ") (u "eb1  *.lan web2") [LF] 119%Z).
  - reflexivity.
  - done.
  - by repeat constructor.
  - reflexivity.
  - apply (bool_decide_eq_true_1 _). by vm_compute.
  - by right.
Defined.

Lemma strip_by_first p (s r : ustr) (c : Z) :
  strip_by p s = c :: r → p c = false.
Proof.
  unfold strip_by. destruct (lstrip_by p s) as [|c' r'] eqn:Hs; [done|].
  pose proof (lstrip_by_head p s r' c' Hs) as Hc'.
  rewrite rstrip_by_head by done. by intros [= <- _].
Qed.

Lemma rstrip_by_all p (ws : ustr) :
  Forall (λ c, p c = true) ws → rstrip_by p ws = [].
Proof.
  intros Hws. unfold rstrip_by.
  rewrite <- (app_nil_r (reverse ws)), lstrip_by_app_all; [done|].
  by apply Forall_reverse.
Qed.

(** A word character is no whitespace, and [#] is no word character. *)
Lemma re_word_not_space `{UnicodeData} (c : Z) :
  re_word c = true → py_isspace c = false.
Proof.
  intros Hc. destruct (py_isspace c) eqn:Hsp; [|done].
  unfold re_word in Hc. rewrite (uni_isalnum_space c Hsp) in Hc.
  unfold py_isspace in Hsp. lia.
Qed.

Lemma re_word_not_hash `{UnicodeData} (c : Z) : re_word c = true → c ≠ 35%Z.
Proof.
  intros Hc ->. unfold re_word in Hc.
  by rewrite uni_isalnum_ascii in Hc by lia.
Qed.

(** What is left of a directive line once stripped. *)
Lemma py_strip_directive (indent key ws value trail : ustr) (k1 : Z) :
  Forall (λ c, py_isspace c = true) indent →
  py_isspace k1 = false → stripped value →
  Forall (λ c, py_isspace c = true) trail →
  py_strip (indent ++ (k1 :: key) ++ ws ++ value ++ trail)
  = (k1 :: key) ++ ws ++ value.
Proof.
  intros Hind Hk1 [Hne Hval] Htrail. unfold py_strip, strip_by.
  rewrite lstrip_by_app_all by done. cbn [app lstrip_by]. rewrite Hk1.
  destruct (exists_last Hne) as (v & z & ->).
  assert (Hz : py_isspace z = false) by (by eapply strip_by_last).
  replace (k1 :: key ++ ws ++ (v ++ [z]) ++ trail)
    with ((k1 :: key ++ ws ++ v) ++ z :: trail)
    by (cbn [app]; by rewrite <- !app_assoc).
  rewrite rstrip_by_app_keep by done. rewrite rstrip_by_all by done.
  cbn [app]. by rewrite <- !app_assoc.
Qed.

(** A key followed by whitespace that starts a line that [HOST_LINE_RE]
    matches is a spelling of the keyword. *)
Lemma host_line_key `{UnicodeData} (key rest patterns : ustr) (w : Z) :
  Forall (λ c, re_word c = true) key → py_isspace w = true →
  host_line_match (key ++ w :: rest) = Some patterns →
  is_host_keyword key.
Proof.
  intros Hkey Hw Hm. apply host_line_match_Some in Hm
    as (c1 & c2 & c3 & c4 & w' & rest' & Heq & H1 & H2 & H3 & H4 & Hw').
  assert (Hnsp : ∀ c, re_word c = true → py_isspace c = true → False).
  { intros c Hc Hsp. by rewrite (re_word_not_space c Hc) in Hsp. }
  assert (key = [c1; c2; c3; c4]) as ->.
  { destruct key as [|k1 [|k2 [|k3 [|k4 [|k5 key]]]]]; simplify_eq/=.
    - destruct H1 as [-> | ->]; done.
    - destruct H2 as [-> | ->]; done.
    - destruct H3 as [-> | [-> | ->]]; done.
    - destruct H4 as [-> | ->]; done.
    - done.
    - exfalso. apply (Hnsp w'); [|done].
      by do 4 apply Forall_cons in Hkey as [_ Hkey];
        apply Forall_cons in Hkey as [Hkey _]. }
  unfold is_host_keyword. simpl.
  replace ((c1 =? 104) || (c1 =? 72))%Z with true by lia.
  replace ((c2 =? 111) || (c2 =? 79))%Z with true by lia.
  replace ((c3 =? 115) || (c3 =? 83) || (c3 =? 383))%Z with true by lia.
  by replace ((c4 =? 116) || (c4 =? 84))%Z with true by lia.
Qed.

(** A key with a supported lowercase form, followed by whitespace: the
    line is no [Host] line. *)
Lemma supported_key_no_host_line `{UnicodeData} (key rest : ustr) (w : Z) :
  Forall (λ c, re_word c = true) key → py_isspace w = true →
  py_lower key ∈ SUPPORTED_KEYS →
  host_line_match (key ++ w :: rest) = None.
Proof.
  intros Hkey Hw Hsup.
  destruct (host_line_match (key ++ w :: rest)) as [patterns|] eqn:Hm; [|done].
  exfalso. apply host_line_key in Hm; [|done..].
  apply is_host_keyword_inv in Hm
    as (c1 & c2 & c3 & c4 & -> & H1 & H2 & H3 & H4).
  pose proof (host_keyword_not_supported c1 c2 c3 c4 H1 H2 H3 H4) as Hno.
  by rewrite bool_decide_eq_true_2 in Hno.
Qed.

(** One turn of the loop on a directive line that is no [Host] line. *)
Lemma parse_line_directive `{UnicodeData} (st : parser)
    (indent key ws value trail eol : ustr) :
  Forall (λ c, py_isspace c = true) indent →
  key ≠ [] → Forall (λ c, re_word c = true) key →
  ws ≠ [] → Forall (λ c, py_isspace c = true) ws →
  value ≠ [] → py_strip value = value →
  Forall (λ c, py_isspace c = true) trail →
  (LF ∉ indent ++ key ++ ws ++ value ++ trail) →
  eol = [] ∨ eol = [LF] →
  host_line_match (indent ++ key ++ ws ++ value ++ trail) = None →
  parse_line st (indent ++ key ++ ws ++ value ++ trail ++ eol)
  = if bool_decide (py_lower key ∈ SUPPORTED_KEYS)
    then {| hosts := hosts st;
            current_names := current_names st;
            current_block := <[py_lower key := value]> (current_block st) |}
    else st.
Proof.
  intros Hind Hkne Hkey Hwne Hws Hvne Hval Htrail Hlf Heol Hno.
  destruct key as [|k1 key]; [done|].
  pose proof Hkey as [Hk1 _]%Forall_cons.
  destruct ws as [|w ws]; [done|].
  pose proof Hws as [Hw _]%Forall_cons.
  destruct value as [|a value]; [done|].
  assert (Ha : py_isspace a = false) by (by eapply strip_by_first).
  assert (Hline : py_strip_nl
                    (indent ++ (k1 :: key) ++ (w :: ws) ++ (a :: value)
                     ++ trail ++ eol)
                  = indent ++ (k1 :: key) ++ (w :: ws) ++ (a :: value)
                    ++ trail).
  { replace (indent ++ (k1 :: key) ++ (w :: ws) ++ (a :: value)
             ++ trail ++ eol)
      with ((indent ++ (k1 :: key) ++ (w :: ws) ++ (a :: value) ++ trail)
            ++ eol)
      by (by rewrite <- !app_assoc).
    by apply py_strip_nl_line. }
  assert (Hstrip : py_strip (indent ++ (k1 :: key) ++ (w :: ws)
                             ++ (a :: value) ++ trail)
                   = (k1 :: key) ++ (w :: ws) ++ (a :: value)).
  { apply py_strip_directive; [done|by apply re_word_not_space|done|done]. }
  assert (Hkv : kv_match ((k1 :: key) ++ (w :: ws) ++ (a :: value))
                = Some (k1 :: key, a :: value)).
  { unfold kv_match. apply re_plus_greedy; [done|done| |].
    { cbn [app]. destruct (re_word w) eqn:Hww; [|done].
      by rewrite (re_word_not_space w Hww) in Hw. }
    apply re_plus_greedy; [done|done|done|].
    rewrite <- (app_nil_r (a :: value)) at 1.
    apply re_plus_greedy; [done| |done|done].
    apply Forall_forall. intros x Hx. unfold re_dot.
    apply negb_true_iff, Z.eqb_neq. intros ->. apply Hlf.
    rewrite !elem_of_app. do 3 right. by left. }
  unfold parse_line. rewrite Hline, Hstrip, Hno, Hkv, Hval.
  change (u "#") with [35%Z]. cbn [app str_truthy negb orb py_startswith].
  by rewrite (proj2 (Z.eqb_neq k1 35) (re_word_not_hash k1 Hk1)).
Qed.

(** X18: a directive line, that is a key of word characters, whitespace
    and a value, with any indentation and any whitespace after the value:
    when the lowercase form of the key is a supported key, the stripped
    value is stored under it in the pending block, over what the block held
    for that key; the hosts emitted and the pending names stay as they
    are. *)
Theorem directive_line_stored `{UnicodeData} (st : parser)
    (indent key ws value trail eol : ustr) :
  Forall (λ c, py_isspace c = true) indent →
  key ≠ [] → Forall (λ c, re_word c = true) key →
  ws ≠ [] → Forall (λ c, py_isspace c = true) ws →
  value ≠ [] → py_strip value = value →
  Forall (λ c, py_isspace c = true) trail →
  (LF ∉ indent ++ key ++ ws ++ value ++ trail) →
  eol = [] ∨ eol = [LF] →
  py_lower key ∈ SUPPORTED_KEYS →
  parse_line st (indent ++ key ++ ws ++ value ++ trail ++ eol)
  = {| hosts := hosts st;
       current_names := current_names st;
       current_block := <[py_lower key := value]> (current_block st) |}.
Proof.
  intros Hind Hkne Hkey Hwne Hws Hvne Hval Htrail Hlf Heol Hsup.
  rewrite parse_line_directive;
    [by rewrite bool_decide_eq_true_2|done..|].
  destruct indent as [|i indent].
  - destruct ws as [|w ws]; [done|].
    apply Forall_cons in Hws as [Hw _]. cbn [app].
    by apply (supported_key_no_host_line key _ w).
  - apply Forall_cons in Hind as [Hi _]. by apply host_line_match_space.
Qed.

Lemma directive_line_stored_witness :
  let st := {| hosts := []; current_names := [u "web"];
               current_block := {[ u "hostname" := u "old" ]} |} in
  parse_line (H := ascii_tables) st
    (u "    HostName  web.example  " ++ [LF])
  = {| hosts := []; current_names := [u "web"];
       current_block := <[u "hostname" := u "web.example"]>
                          {[ u "hostname" := u "old" ]} |}.
Proof.
  intros st.
  assert (H1 : Forall (λ c, py_isspace c = true) (u "    "))
    by (by repeat constructor).
  assert (H2 : u "HostName" ≠ []) by done.
  assert (H3 : Forall (λ c, re_word (H := ascii_tables) c = true)
                 (u "HostName"))
    by (apply (bool_decide_eq_true_1 _); by vm_compute).
  assert (H4 : u "  " ≠ []) by done.
  assert (H5 : Forall (λ c, py_isspace c = true) (u "  "))
    by (by repeat constructor).
  assert (H6 : u "web.example" ≠ []) by done.
  assert (H7 : py_strip (u "web.example") = u "web.example") by reflexivity.
  assert (H8 : LF ∉ u "    " ++ u "HostName" ++ u "  " ++ u "web.example"
                    ++ u "  ")
    by (apply (bool_decide_eq_true_1 _); by vm_compute).
  assert (H9 : py_lower (H := ascii_tables) (u "HostName") ∈ SUPPORTED_KEYS)
    by (apply (bool_decide_eq_true_1 _); by vm_compute).
  exact (directive_line_stored (H := ascii_tables) st
           (u "    ") (u "HostName") (u "  ") (u "web.example") (u "  ") [LF]
           H1 H2 H3 H4 H5 H6 H7 H5 H8 (or_intror eq_refl) H9).
Defined.

Lemma lstrip_by_none p (s : ustr) :
  Forall (λ c, p c = false) s → lstrip_by p s = s.
Proof. intros [|c s' Hc _]; simpl; [done|]. by rewrite Hc. Qed.

Lemma rstrip_by_none p (s : ustr) :
  Forall (λ c, p c = false) s → rstrip_by p s = s.
Proof.
  intros Hs. unfold rstrip_by.
  rewrite lstrip_by_none by (by apply Forall_reverse).
  apply reverse_involutive.
Qed.

Lemma rstrip_by_app_all p (s ws : ustr) :
  Forall (λ c, p c = true) ws → rstrip_by p (s ++ ws) = rstrip_by p s.
Proof.
  intros Hws. unfold rstrip_by.
  by rewrite reverse_app, lstrip_by_app_all by (by apply Forall_reverse).
Qed.

(** On a line of the file, [rstrip("\n")] and [strip("\n")] agree. *)
Lemma py_rstrip_nl_line (body eol : ustr) :
  (LF ∉ body) → eol = [] ∨ eol = [LF] →
  py_rstrip_nl (body ++ eol) = body.
Proof.
  intros Hbody Heol. unfold py_rstrip_nl.
  assert (Hnone : rstrip_by (λ c, (c =? LF)%Z) body = body).
  { apply rstrip_by_none, Forall_forall. intros c Hc.
    apply Z.eqb_neq. by intros ->. }
  destruct Heol as [-> | ->]; [by rewrite app_nil_r|].
  rewrite rstrip_by_app_all; [done|]. by repeat constructor.
Qed.

(** A list of lines that gives a host holds a line that [HOST_LINE_RE]
    matches. *)
Lemma parse_lines_host_line `{UnicodeData} (lines : list ustr) :
  parse_lines lines ≠ [] →
  Exists (λ raw, is_Some (host_line_match (py_strip_nl raw))) lines.
Proof.
  intros Hne.
  destruct (decide (Exists (λ raw, is_Some (host_line_match (py_strip_nl raw)))
                      lines)) as [Hex | Hex]; [done|].
  destruct Hne. apply fmap_nil_inv with (f := name).
  rewrite parse_lines_names.
  replace (lines ≫= host_patterns) with (@nil ustr); [done|].
  symmetry. apply not_Exists_Forall in Hex; [|apply _].
  induction Hex as [|raw lines Hraw _ IH]; [done|].
  rewrite bind_cons, IH, app_nil_r. unfold host_patterns. simpl in Hraw.
  destruct (host_line_match _); [|done]. destruct Hraw. by eexists.
Qed.

(** A file that gives a host looks like a configuration file. *)
Lemma parsed_looks_like_ssh_config `{UnicodeData} `{System}
    (f : FS) (p text : ustr) :
  fs_read f p = Returned text → parse_ssh_config text ≠ [] →
  looks_like_ssh_config f p = true.
Proof.
  intros Hread Hne. unfold looks_like_ssh_config. rewrite Hread.
  apply parse_lines_host_line in Hne.
  apply existsb_exists. apply Exists_exists in Hne as (raw & Hraw & Hm).
  exists raw. split; [by apply list_elem_of_In|].
  apply bool_decide_eq_true.
  pose proof (readlines_shape text) as Hshape. rewrite Forall_forall in Hshape.
  destruct (Hshape raw Hraw) as (body & eol & -> & Hbody & Heol).
  rewrite py_rstrip_nl_line by done. by rewrite py_strip_nl_line in Hm.
Qed.

(** X19: discovery loses no host: a file of the directory listing whose
    name is not excluded and that [parse_ssh_config] gives at least one host
    for looks like a configuration file, and is among the files that
    [discover_ssh_config_files] returns. *)
Theorem parsed_file_is_discovered `{UnicodeData} `{System}
    (f : FS) (dir : ustr) (include_subdirs : bool) (excludes : list ustr)
    (p text : ustr) :
  p ∈ fs_files f dir include_subdirs →
  path_name p ∉ (list_to_set (map os_path_basename excludes) : gset ustr) →
  fs_read f p = Returned text → parse_ssh_config text ≠ [] →
  looks_like_ssh_config f p = true
  ∧ p ∈ discover_ssh_config_files f dir include_subdirs excludes.
Proof.
  intros Hp Hex Hread Hne.
  pose proof (parsed_looks_like_ssh_config f p text Hread Hne) as Hlooks.
  split; [done|]. unfold discover_ssh_config_files.
  apply list_elem_of_filter. split; [|done]. split; [done|].
  by rewrite Hlooks.
Qed.

Lemma parsed_file_is_discovered_witness :
  let f : gmap ustr ustr :=
    {[ u "/home/me/.ssh/config" := u "Host web" ++ [LF];
       u "/home/me/.ssh/notes.txt" := u "nothing here" ]} in
  looks_like_ssh_config (H0 := memory_system) f (u "/home/me/.ssh/config")
  = true
  ∧ u "/home/me/.ssh/config"
    ∈ discover_ssh_config_files (H0 := memory_system) f (u "/home/me/.ssh")
        true [u "known_hosts"].
Proof.
  intros f.
  apply (parsed_file_is_discovered (H := ascii_tables) (H0 := memory_system)
           f (u "/home/me/.ssh") true [u "known_hosts"]
           (u "/home/me/.ssh/config") (u "Host web" ++ [LF])).
  - apply (bool_decide_eq_true_1 _). by vm_compute.
  - apply (bool_decide_eq_true_1 _). by vm_compute.
  - by vm_compute.
  - apply (bool_decide_eq_true_1 _). by vm_compute.
Defined.





Lemma flush_pending (st : parser) :
  current_names st ≠ [] →
  flush st
  = {| hosts := hosts st
                ++ map (host_of_block (current_block st))
                     (filter (λ hn, is_wildcard hn = false) (current_names st));
       current_names := [];
       current_block := ∅ |}.
Proof.
  intros Hne. unfold flush. destruct (current_names st) as [|hn names]; [done|].
  f_equal. apply flush_loop.
Qed.

(** A line that [HOST_LINE_RE] does not match leaves the hosts emitted and
    the pending names as they are. *)
Lemma parse_line_no_host `{UnicodeData} (st : parser) (raw : ustr) :
  host_line_match (py_strip_nl raw) = None →
  hosts (parse_line st raw) = hosts st
  ∧ current_names (parse_line st raw) = current_names st.
Proof.
  intros Hno. unfold parse_line. rewrite Hno.
  destruct (negb _ || _); [done|].
  destruct (kv_match _) as [[key value]|]; [|done].
  by destruct (bool_decide _).
Qed.

(** X21: a block whose names all hold a wildcard gives nothing to any
    host: after its [Host] line and the lines of the block, the flush emits
    no host for it and drops what its directives stored. *)
Theorem wildcard_block_dropped `{UnicodeData} (st : parser)
    (raw patterns : ustr) (ds : list ustr) :
  host_line_match (py_strip_nl raw) = Some patterns →
  py_split patterns ≠ [] →
  Forall (λ n, is_wildcard n = true) (py_split patterns) →
  Forall (λ d, host_line_match (py_strip_nl d) = None) ds →
  flush (fold_left parse_line ds (parse_line st raw))
  = {| hosts := hosts (flush st); current_names := []; current_block := ∅ |}.
Proof.
  intros Hm Hne Hwild Hds.
  assert (Hfold : ∀ st',
            hosts (fold_left parse_line ds st') = hosts st'
            ∧ current_names (fold_left parse_line ds st') = current_names st').
  { induction Hds as [|d ds Hd _ IH]; intros st'; [done|].
    cbn [fold_left]. destruct (IH (parse_line st' d)) as [-> ->].
    by apply parse_line_no_host. }
  assert (Hfirst : hosts (parse_line st raw) = hosts (flush st)
                   ∧ current_names (parse_line st raw) = py_split patterns).
  { unfold parse_line. by rewrite (host_line_not_skipped _ _ Hm), Hm. }
  destruct (Hfold (parse_line st raw)) as [Hh Hn].
  destruct Hfirst as [Hh' Hn'].
  rewrite flush_pending by (by rewrite Hn, Hn').
  rewrite Hh, Hh', Hn, Hn'. f_equal.
  rewrite filter_none, app_nil_r; [done|].
  eapply Forall_impl; [exact Hwild|]. intros n Hw. simpl. congruence.
Qed.

Lemma wildcard_block_dropped_witness :
  let st := {| hosts := []; current_names := [u "web"];
               current_block := {[ u "user" := u "bob" ]} |} in
  flush (fold_left (parse_line (H := ascii_tables))
           [u "  User root" ++ [LF]; u "  Port 2222" ++ [LF]]
           (parse_line (H := ascii_tables) st (u "Host * ?.lan" ++ [LF])))
  = {| hosts := hosts (flush st); current_names := []; current_block := ∅ |}.
Proof.
  intros st.
  apply (wildcard_block_dropped (H := ascii_tables) st
           (u "Host * ?.lan" ++ [LF]) (u "* ?.lan")).
  - by vm_compute.
  - done.
  - by repeat constructor.
  - by repeat constructor.
Defined.

(** ** The hosts of a decoded file have identifiers *)

(** What holds of every character of the text and of the line feed holds
    of every character of every line. *)
Lemma readlines_from_Forall (Q : Z → Prop) (s cur : ustr) :
  Q LF → Forall Q cur → Forall Q s →
  Forall (Forall Q) (readlines_from cur s).
Proof.
  intros HLF. remember (length s) as n eqn:Hn. revert s cur Hn.
  induction n as [n IH] using lt_wf_ind. intros s cur -> Hcur Hs.
  assert (Hrev : ∀ l : ustr, Forall Q l → Forall Q (reverse (LF :: l))).
  { intros l Hl. apply Forall_reverse. by constructor. }
  destruct s as [|c s]; simpl.
  - destruct cur; repeat constructor. by apply Forall_reverse.
  - apply Forall_cons in Hs as [Hc Hs].
    destruct (c =? LF)%Z; [|destruct (c =? CR)%Z].
    + constructor; [by apply Hrev|].
      eapply IH; [|done|done|done]. simpl. lia.
    + constructor; [by apply Hrev|].
      destruct s as [|c2 s]; [constructor|].
      apply Forall_cons in Hs as [Hc2 Hs].
      destruct (c2 =? LF)%Z.
      * eapply IH; [|done|done|done]. simpl. lia.
      * eapply IH; [|done|done|by constructor]. simpl. lia.
    + eapply IH; [|done|by constructor|done]. simpl. lia.
Qed.

Lemma split_from_Forall (Q : Z → Prop) (tok s : ustr) :
  Forall Q tok → Forall Q s → Forall (Forall Q) (split_from tok s).
Proof.
  intros Htok Hs. revert tok Htok.
  induction Hs as [|c s Hc _ IH]; intros tok Htok; cbn [split_from].
  - destruct tok; [constructor|].
    constructor; [by apply Forall_reverse|constructor].
  - destruct (py_isspace c); [|apply IH; by constructor].
    destruct tok; [by apply IH|].
    constructor; [by apply Forall_reverse|by apply IH].
Qed.

Lemma re_chars_suffix (ps : list (Z → bool)) (s r : ustr) :
  re_chars ps s = Some r → r `suffix_of` s.
Proof.
  revert s. induction ps as [|p ps IH]; intros s; simpl.
  - by intros [= ->].
  - destruct s as [|c s]; [done|]. destruct (p c); [|done].
    intros Hr. by apply suffix_cons_r, IH.
Qed.

Lemma host_line_match_Forall (Q : Z → Prop) (line patterns : ustr) :
  host_line_match line = Some patterns → Forall Q line → Forall Q patterns.
Proof.
  unfold host_line_match.
  destruct (re_chars host_keyword line) as [r|] eqn:Hkw; [|done].
  intros Hm Hline. apply re_chars_suffix in Hkw as [pre ->].
  apply re_plus_Some in Hm as (m & r2 & -> & _ & _ & Hm).
  apply re_plus_Some in Hm as (v & r3 & -> & _ & _ & Hm).
  destruct (re_at_end r3); [|done]. injection Hm as ->.
  rewrite !Forall_app in Hline. tauto.
Qed.

(** The names of the hosts parsed are made of characters of the text. *)
Lemma parsed_names_Forall `{UnicodeData} (Q : Z → Prop) (text : ustr) :
  Q LF → Forall Q text →
  Forall (λ h, Forall Q (name h)) (parse_ssh_config text).
Proof.
  intros HLF Htext. unfold parse_ssh_config.
  apply (parse_names_from_host_lines (Forall Q)).
  intros raw patterns t Hraw Hm Ht.
  pose proof (readlines_from_Forall Q text [] HLF (Forall_nil_2 _) Htext)
    as Hlines.
  rewrite Forall_forall in Hlines. specialize (Hlines raw Hraw).
  assert (Hpat : Forall Q patterns).
  { eapply host_line_match_Forall; [done|]. by apply strip_by_Forall. }
  pose proof (split_from_Forall Q [] patterns (Forall_nil_2 _) Hpat) as Htok.
  rewrite Forall_forall in Htok. by apply Htok.
Qed.

(** X22: the hosts of a text that holds no surrogate, as every text
    decoded from UTF-8 does, all have an identifier; so [upsert_profiles]
    with these hosts returns on every list in which no dict has a non-empty
    list or dict as name. *)
Theorem parsed_hosts_have_identifiers `{UnicodeData} (text : ustr) :
  Forall (λ c, is_code_point c ∧ ¬ is_surrogate c) text →
  Forall (λ h, ∃ g, guid h = Returned g) (parse_ssh_config text)
  ∧ ∀ P, Forall (λ p, unhashable_name p = false) P →
         snd (upsert_profiles P (parse_ssh_config text)) = Returned tt.
Proof.
  intros Htext.
  assert (Hok : Forall host_ok (parse_ssh_config text)).
  { eapply Forall_impl;
      [apply (parsed_names_Forall
                (λ c, is_code_point c ∧ ¬ is_surrogate c) text); [|done]|].
    - unfold is_code_point, is_surrogate, LF. lia.
    - intros h Hh. simpl in Hh. apply host_ok_guid.
      destruct (guid_of_name_outcome (name h)) as [[Hex _] | [_ Hg]].
      + eapply Forall_impl; [exact Hh|]. by intros c [? _].
      + apply Exists_exists in Hex as (c & Hc & Hs).
        rewrite Forall_forall in Hh. by destruct (Hh c Hc).
      + done. }
  split.
  - eapply Forall_impl; [exact Hok|]. intros h. by rewrite host_ok_guid.
  - intros P HP. by destruct (upsert_profiles_ok P _ HP Hok) as (bn & _ & ->).
Qed.

Lemma parsed_hosts_have_identifiers_witness :
  Forall (λ h, ∃ g, guid h = Returned g)
    (parse_ssh_config (H := ascii_tables) two_names_block)
  ∧ ∀ P, Forall (λ p, unhashable_name p = false) P →
         snd (upsert_profiles P
                (parse_ssh_config (H := ascii_tables) two_names_block))
         = Returned tt.
Proof.
  apply (parsed_hosts_have_identifiers (H := ascii_tables) two_names_block).
  apply (bool_decide_eq_true_1 _). by vm_compute.
Defined.

(** ** The words of a command line *)

Lemma split_from_token (tok t s : ustr) :
  Forall (λ c, py_isspace c = false) t →
  split_from tok (t ++ s) = split_from (reverse t ++ tok) s.
Proof.
  intros Ht. revert tok. induction Ht as [|c t Hc _ IH]; intros tok; [done|].
  cbn [app split_from]. rewrite Hc, IH.
  by rewrite reverse_cons, <- app_assoc.
Qed.

(** Joining words with a space and splitting gives the words back. *)
Lemma py_split_join (parts : list ustr) :
  Forall is_token parts → py_split (py_join (u " ") parts) = parts.
Proof.
  unfold py_split. induction 1 as [|p parts [Hne Hp] Hparts IH]; [done|].
  assert (Hrev : reverse p ≠ []).
  { intros Heq. apply (f_equal length) in Heq.
    rewrite length_reverse in Heq. by destruct p. }
  destruct parts as [|q parts].
  - cbn [py_join]. rewrite <- (app_nil_r p) at 1.
    rewrite split_from_token, app_nil_r by done. cbn [split_from].
    destruct (reverse p) eqn:Hr; [done|]. by rewrite <- Hr, reverse_involutive.
  - change (py_join (u " ") (p :: q :: parts))
      with (p ++ 32%Z :: py_join (u " ") (q :: parts)).
    rewrite split_from_token, app_nil_r by done. cbn [split_from].
    change (py_isspace 32) with true. cbv iota.
    destruct (reverse p) eqn:Hr; [done|].
    by rewrite <- Hr, reverse_involutive, IH.
Qed.

(** X23: when neither the name nor a field that is present is empty or
    holds whitespace, the command line splits on whitespace into exactly
    its words: [ssh], then [-p] and the port when there is one, then [-i]
    and the identity file when there is one, then the target. *)
Theorem commandline_words (h : SshHost) :
  is_token (name h) →
  Forall (λ o, ∀ v, o = Some v → is_token v)
    [hostname h; user h; port h; identity_file h] →
  py_split (commandline h)
  = [u "ssh"] ++ flag_tokens (u "-p") (port h)
    ++ flag_tokens (u "-i") (identity_file h) ++ [target_of h].
Proof.
  intros Hname Hfields.
  apply Forall_cons in Hfields as [H1 Hf]. apply Forall_cons in Hf as [H2 Hf].
  apply Forall_cons in Hf as [H3 Hf]. apply Forall_cons in Hf as [H4 _].
  assert (Hne : ∀ o, (∀ v, o = Some v → is_token v) → o ≠ Some []).
  { intros o Ho Heq. by destruct (Ho _ Heq). }
  rewrite commandline_spec_nonempty by (by apply Hne).
  unfold spec_commandline. fold (target_of h). apply py_split_join.
  assert (Htarget : is_token (target_of h)).
  { unfold target_of.
    assert (Ht : is_token match hostname h with
                          | Some hn => hn | None => name h end).
    { destruct (hostname h) as [hn|]; [by apply H1|done]. }
    destruct (user h) as [us|]; [|done].
    destruct (H2 us eq_refl) as [Hus1 Hus2], Ht as [Ht1 Ht2].
    split; [by destruct us|].
    apply Forall_app. split; [done|]. by constructor. }
  assert (Hflag : ∀ f o, is_token f → (∀ v, o = Some v → is_token v) →
                         Forall is_token (flag_tokens f o)).
  { intros f [v|] Hf' Ho; [|constructor].
    constructor; [exact Hf'|].
    constructor; [exact (Ho v eq_refl)|constructor]. }
  assert (Hlit : ∀ s : ustr, bool_decide (is_token s) = true → is_token s)
    by (intros s; apply bool_decide_eq_true_1).
  rewrite !Forall_app. split_and!.
  - constructor; [by apply Hlit|constructor].
  - apply Hflag; [by apply Hlit|done].
  - apply Hflag; [by apply Hlit|done].
  - constructor; [done|constructor].
Qed.

Lemma commandline_words_witness :
  py_split
    (commandline
       {| name := u "Server01"; hostname := Some (u "1.2.3.4");
          user := Some (u "alice"); port := Some (u "2222");
          identity_file := Some (u "/home/alice/.ssh/id_rsa") |})
  = [u "ssh"; u "-p"; u "2222"; u "-i"; u "/home/alice/.ssh/id_rsa";
     u "alice@1.2.3.4"].
Proof.
  apply (commandline_words
           {| name := u "Server01"; hostname := Some (u "1.2.3.4");
              user := Some (u "alice"); port := Some (u "2222");
              identity_file := Some (u "/home/alice/.ssh/id_rsa") |}).
  - apply (bool_decide_eq_true_1 _). by vm_compute.
  - repeat (constructor;
              [intros v [= <-]; apply (bool_decide_eq_true_1 _); by vm_compute|]).
    constructor.
Defined.

(** ** The profiles that [upsert_profiles] appends *)

Lemma indexes_known (bn : gmap ustr nat) (l : list json) (s : ustr) :
  indexes bn l → bn !! s = None ↔ s ∉ known_names l.
Proof.
  intros Hbn. specialize (Hbn s). unfold known_names.
  rewrite list_elem_of_omap. destruct (bn !! s) as [i|]; split; try done.
  - intros Hnot. destruct Hbn as [(p & Hp & Hps) _]. destruct Hnot.
    exists p. split; [by eapply list_elem_of_lookup_2|done].
  - intros _ (p & (j & Hj)%list_elem_of_lookup_1 & Hps). by apply (Hbn j p).
Qed.

(** X24: what [upsert_profiles] adds when it returns: past the entries
    the list had, it holds one profile for each host whose name is empty or
    is not the name of a dict of the list, in the order of the hosts (one
    for each such host, also when two hosts have the same name). *)
Theorem upsert_appends_unknown (P P' : list json) (H : list SshHost) :
  upsert_profiles P H = (P', Returned tt) →
  length P' = length P + length (filter (λ h, name h ∉ known_names P) H)
  ∧ drop (length P) P'
    = the_profile <$> filter (λ h, name h ∉ known_names P) H.
Proof.
  intros (bn & _ & Hbn & _ & ->)%upsert_profiles_returned.
  assert (Happ : appended bn H = filter (λ h, name h ∉ known_names P) H).
  { unfold appended. apply list_filter_iff. intros h. by apply indexes_known. }
  rewrite <- Happ. split.
  - by rewrite length_app, overwrite_length, length_fmap.
  - rewrite <- (overwrite_length bn H P). by rewrite drop_app_length.
Qed.

Lemma upsert_appends_unknown_witness :
  let P := [JObj [(u "name", JStr (u "A")); (u "tag", JInt 1)];
            JStr (u "foreign")] in
  let H := [host_named (u "B"); host_named (u "A"); host_named (u "B")] in
  length (fst (upsert_profiles P H)) = 4
  ∧ drop 2 (fst (upsert_profiles P H))
    = [the_profile (host_named (u "B")); the_profile (host_named (u "B"))].
Proof.
  intros P H.
  destruct (upsert_appends_unknown P (fst (upsert_profiles P H)) H)
    as [Hlen Hdrop].
  - by vm_compute.
  - split; [exact Hlen|exact Hdrop].
Defined.

(** ** Blocks are read one by one *)

(** The hosts already emitted are carried along: the parser never reads
    them. *)
Lemma flush_carries (hs : list SshHost) (st : parser) :
  flush {| hosts := hs ++ hosts st; current_names := current_names st;
           current_block := current_block st |}
  = {| hosts := hs ++ hosts (flush st);
       current_names := current_names (flush st);
       current_block := current_block (flush st) |}.
Proof.
  destruct st as [h [|hn names] b]; [done|].
  unfold flush. cbn [hosts current_names current_block]. f_equal.
  rewrite !flush_loop. by rewrite app_assoc.
Qed.

Lemma parse_line_carries `{UnicodeData} (hs : list SshHost) (st : parser)
    (raw : ustr) :
  parse_line {| hosts := hs ++ hosts st; current_names := current_names st;
                current_block := current_block st |} raw
  = {| hosts := hs ++ hosts (parse_line st raw);
       current_names := current_names (parse_line st raw);
       current_block := current_block (parse_line st raw) |}.
Proof.
  unfold parse_line. destruct (negb _ || _); [done|].
  destruct (host_line_match _).
  - rewrite flush_carries. done.
  - destruct (kv_match _) as [[key value]|]; [|done].
    by destruct (bool_decide _).
Qed.

Lemma parse_lines_carries `{UnicodeData} (hs : list SshHost) (st : parser)
    (lines : list ustr) :
  fold_left parse_line lines
    {| hosts := hs ++ hosts st; current_names := current_names st;
       current_block := current_block st |}
  = {| hosts := hs ++ hosts (fold_left parse_line lines st);
       current_names := current_names (fold_left parse_line lines st);
       current_block := current_block (fold_left parse_line lines st) |}.
Proof.
  revert st. induction lines as [|raw lines IH]; intros st; [done|].
  cbn [fold_left]. by rewrite parse_line_carries, IH.
Qed.

(** X25: blocks are read one by one. When the lines read so far end in a
    block that has names, what follows from a line that [HOST_LINE_RE]
    matches is parsed as if it stood alone: the hosts of the whole are the
    hosts of the first part followed by the hosts of the rest. So parsing
    such files one by one, as [main] does, gives the hosts of their
    concatenation. *)
Theorem parse_lines_app `{UnicodeData} (l1 l2 : list ustr)
    (raw patterns : ustr) :
  current_names (fold_left parse_line l1 parser_init) ≠ [] →
  host_line_match (py_strip_nl raw) = Some patterns →
  parse_lines (l1 ++ raw :: l2) = parse_lines l1 ++ parse_lines (raw :: l2).
Proof.
  intros Hne Hm. unfold parse_lines. rewrite fold_left_app.
  set (st1 := fold_left parse_line l1 parser_init) in *.
  cbn [fold_left].
  assert (Hline : ∀ st, parse_line st raw
                        = {| hosts := hosts (flush st);
                             current_names := py_split patterns;
                             current_block := current_block (flush st) |}).
  { intros st. unfold parse_line.
    by rewrite (host_line_not_skipped _ _ Hm), Hm. }
  rewrite !Hline. rewrite (flush_pending st1) by done.
  cbn [hosts current_names current_block flush parser_init].
  pose proof (parse_lines_carries
                (hosts st1
                 ++ map (host_of_block (current_block st1))
                      (filter (λ hn, is_wildcard hn = false)
                         (current_names st1)))
                {| hosts := []; current_names := py_split patterns;
                   current_block := ∅ |} l2) as Hcarry.
  cbn [hosts current_names current_block] in Hcarry.
  rewrite app_nil_r in Hcarry. rewrite Hcarry, flush_carries.
  done.
Qed.

Lemma parse_lines_app_witness :
  parse_lines (H := ascii_tables)
    ([u "Host a" ++ [LF]; u "  User al" ++ [LF]]
     ++ (u "Host b" ++ [LF]) :: [u "  Port 22" ++ [LF]])
  = parse_lines (H := ascii_tables) [u "Host a" ++ [LF]; u "  User al" ++ [LF]]
    ++ parse_lines (H := ascii_tables)
         ((u "Host b" ++ [LF]) :: [u "  Port 22" ++ [LF]]).
Proof.
  apply (parse_lines_app (H := ascii_tables) _ _ _ (u "b")).
  - by vm_compute.
  - by vm_compute.
Defined.

(** X26: a directive line whose key has no supported lowercase form
    changes nothing, be it indented or not, unless it is a [Host] line: the
    parser keeps the four directives [HostName], [User], [Port] and
    [IdentityFile] and ignores every other one. *)
Theorem other_directive_ignored `{UnicodeData} (st : parser)
    (indent key ws value trail eol : ustr) :
  Forall (λ c, py_isspace c = true) indent →
  key ≠ [] → Forall (λ c, re_word c = true) key →
  ws ≠ [] → Forall (λ c, py_isspace c = true) ws →
  value ≠ [] → py_strip value = value →
  Forall (λ c, py_isspace c = true) trail →
  (LF ∉ indent ++ key ++ ws ++ value ++ trail) →
  eol = [] ∨ eol = [LF] →
  py_lower key ∉ SUPPORTED_KEYS →
  indent ≠ [] ∨ ¬ is_host_keyword key →
  parse_line st (indent ++ key ++ ws ++ value ++ trail ++ eol) = st.
Proof.
  intros Hind Hkne Hkey Hwne Hws Hvne Hval Htrail Hlf Heol Hsup Hnohost.
  rewrite parse_line_directive;
    [by rewrite bool_decide_eq_false_2|done..|].
  destruct indent as [|i indent].
  - destruct Hnohost as [? | Hnohost]; [done|].
    destruct ws as [|w ws]; [done|].
    apply Forall_cons in Hws as [Hw _]. cbn [app].
    destruct (host_line_match _) as [patterns|] eqn:Hm; [|done].
    destruct Hnohost. by eapply host_line_key.
  - apply Forall_cons in Hind as [Hi _]. by apply host_line_match_space.
Qed.

Lemma other_directive_ignored_witness :
  let st := {| hosts := []; current_names := [u "web"];
               current_block := {[ u "user" := u "bob" ]} |} in
  parse_line (H := ascii_tables) st (u "ProxyJump bastion" ++ [LF]) = st.
Proof.
  intros st.
  assert (H1 : Forall (λ c, py_isspace c = true) (u "")) by constructor.
  assert (H2 : u "ProxyJump" ≠ []) by done.
  assert (H3 : Forall (λ c, re_word (H := ascii_tables) c = true)
                 (u "ProxyJump"))
    by (apply (bool_decide_eq_true_1 _); by vm_compute).
  assert (H4 : u " " ≠ []) by done.
  assert (H5 : Forall (λ c, py_isspace c = true) (u " "))
    by (by repeat constructor).
  assert (H6 : u "bastion" ≠ []) by done.
  assert (H7 : py_strip (u "bastion") = u "bastion") by reflexivity.
  assert (H8 : LF ∉ u "" ++ u "ProxyJump" ++ u " " ++ u "bastion" ++ u "")
    by (apply (bool_decide_eq_true_1 _); by vm_compute).
  assert (H9 : py_lower (H := ascii_tables) (u "ProxyJump") ∉ SUPPORTED_KEYS)
    by (apply (bool_decide_eq_true_1 _); by vm_compute).
  assert (H10 : u "" ≠ [] ∨ ¬ is_host_keyword (u "ProxyJump"))
    by (right; by vm_compute).
  exact (other_directive_ignored (H := ascii_tables) st
           (u "") (u "ProxyJump") (u " ") (u "bastion") (u "") [LF]
           H1 H2 H3 H4 H5 H6 H7 H1 H8 (or_intror eq_refl) H9 H10).
Defined.

(** ** The flush of a block *)









(** A [Host] line without token does not clear the mapping either: what
    the lines after it set is carried by the next block with a name. *)
Example directive_after_empty_host_line :
  parse_lines (H := ascii_tables)
    [u "Host a" ++ [LF]; u "Host  " ++ [LF]; u "User zed" ++ [LF]; u "Host b"]
  = [ {| name := u "a"; hostname := None; user := None;
         port := None; identity_file := None |};
      {| name := u "b"; hostname := None; user := Some (u "zed");
         port := None; identity_file := None |} ].
Proof. by vm_compute. Qed.

